(** * MoGas plane gas finder: the fetch pipeline and the browser list/map UI

    This development embeds the two programs of the repository:

    - [fetch/fetch.go], the Go batch job that computes an FAA NASR cycle date,
      downloads the cycle ZIP, extracts [APT_BASE.csv], parses it and writes
      [public/airports.json] (module [Fetch]);
    - [public/js/main.js], the browser code that filters, sorts, pins and
      pages the airports (module [UI]).

    Go strings are byte strings and are modelled by [string]; Go's [int] and
    [time.Duration] are 64-bit and wrap; [float64] is the kernel's binary64
    [float].  JavaScript strings are lists of UTF-16 code units and
    JavaScript numbers are binary64 [float]s, with the kernel's IEEE 754
    arithmetic and comparisons. *)

From Stdlib Require Import ZArith Floats Uint63 Ascii String.
From stdpp Require Import base option list strings gmap pretty sorting.

Set Warnings "-inexact-float".

Local Open Scope Z_scope.

(** ** Outcomes of Go code: error values and panics *)

(** A Go function returning [(T, error)]. *)
Inductive result (A : Type) : Type :=
| Ok (a : A)
| Err (e : string).
Arguments Ok {A} a.
Arguments Err {A} e.

(** A Go call either returns or panics. *)
Inductive outcome (A : Type) : Type :=
| Returned (a : A)
| Panicked (msg : string).
Arguments Returned {A} a.
Arguments Panicked {A} msg.

Module Fetch.

(** ** Machine integers, durations and instants *)

(** Two's complement wrap-around of 64-bit signed arithmetic. *)
Definition wrap64 (z : Z) : Z := (z + 2 ^ 63) mod 2 ^ 64 - 2 ^ 63.

Definition maxDuration : Z := 2 ^ 63 - 1.
Definition minDuration : Z := - 2 ^ 63.

(** [time.Duration] counts nanoseconds. *)
Definition Second : Z := 1000000000.
Definition Hour : Z := 3600 * Second.

(** A [time.Time] in UTC, as nanoseconds since the Unix epoch. *)
Definition Time : Type := Z.

(** [t.Sub(u)]: the difference, saturated to the range of [Duration]. *)
Definition Time_Sub (t u : Time) : Z :=
  let d := t - u in
  if d <? minDuration then minDuration
  else if maxDuration <? d then maxDuration
  else d.

(** [t.Add(d)]. *)
Definition Time_Add (t : Time) (d : Z) : Time := t + d.

(** [float64(i)] for a 64-bit integer [i]: rounded to nearest. *)
Definition float64_of_int (z : Z) : float :=
  if z <? 0 then PrimFloat.opp (PrimFloat.of_uint63 (Uint63.of_Z (- z)))
  else PrimFloat.of_uint63 (Uint63.of_Z z).

(** [int(f)]: truncation toward zero.  Go leaves the conversion of NaN and of
    values outside the range of [int] to the platform; 0 stands for them. *)
Definition int_of_float64 (f : float) : Z :=
  match Prim2SF f with
  | S754_finite s m e =>
      let v := if 0 <=? e then Z.pos m * 2 ^ e else Z.pos m / 2 ^ (- e) in
      let z := if s then - v else v in
      if (minDuration <=? z) && (z <=? maxDuration) then z else 0
  | _ => 0
  end.

(** [d.Hours()], as the standard library computes it:
    [float64(d / Hour) + float64(d % Hour) / (60*60*1e9)]. *)
Definition Duration_Hours (d : Z) : float :=
  PrimFloat.add (float64_of_int (Z.quot d Hour))
                (PrimFloat.div (float64_of_int (Z.rem d Hour))
                               (float64_of_int Hour)).

(** ** Constants *)

(** 2025-12-25 00:00:00 UTC, the cycle of [25_Dec_2025_APT_CSV.zip]. *)
Definition anchorDate : Time := 1766620800 * Second.

Definition cycleLengthDays : Z := 28.

(** One cycle as a duration: 28 days of 24 hours. *)
Definition cycleLength : Z := cycleLengthDays * 24 * Hour.

(** ** Cycle calculation *)

Definition computeNextCycle (now : Time) : Time :=
  let daysSinceAnchor :=
    PrimFloat.div (Duration_Hours (Time_Sub now anchorDate)) (float64_of_int 24) in
  let n :=
    wrap64 (int_of_float64
              (PrimFloat.div daysSinceAnchor (float64_of_int cycleLengthDays)) + 1) in
  Time_Add anchorDate
    (wrap64 (wrap64 (wrap64 (n * cycleLengthDays) * 24) * Hour)).

(** The date the code is after: the first cycle boundary strictly later than
    [now], in exact integer arithmetic. *)
Definition nextBoundary (now : Time) : Time :=
  anchorDate + ((now - anchorDate) / cycleLength + 1) * cycleLength.

(** *** Calendar fields of an instant (UTC, proleptic Gregorian) *)

Definition daysSinceEpoch (t : Time) : Z := t / (24 * Hour).

(** Year, month (1..12) and day of the month of a day number. *)
Definition civil (days : Z) : Z * Z * Z :=
  let z := days + 719468 in
  let era := z / 146097 in
  let doe := z mod 146097 in
  let yoe := (doe - doe / 1460 + doe / 36524 - doe / 146096) / 365 in
  let doy := doe - (365 * yoe + yoe / 4 - yoe / 100) in
  let mp := (5 * doy + 2) / 153 in
  let d := doy - (153 * mp + 2) / 5 + 1 in
  let m := if mp <? 10 then mp + 3 else mp - 9 in
  let y := yoe + era * 400 + (if m <=? 2 then 1 else 0) in
  (y, m, d).

Definition Time_Year (t : Time) : Z := (civil (daysSinceEpoch t)).1.1.
Definition Time_Month (t : Time) : Z := (civil (daysSinceEpoch t)).1.2.
Definition Time_Day (t : Time) : Z := (civil (daysSinceEpoch t)).2.

(** The day number of a calendar date (days since 1970-01-01). *)
Definition daysFromCivil (y m d : Z) : Z :=
  let y' := if m <=? 2 then y - 1 else y in
  let era := y' / 400 in
  let yoe := y' - era * 400 in
  let mp := if 2 <? m then m - 3 else m + 9 in
  let doy := (153 * mp + 2) / 5 + d - 1 in
  let doe := yoe * 365 + yoe / 4 - yoe / 100 + doy in
  era * 146097 + doe - 719468.

(** [time.Date(y, m, d, 0, 0, 0, 0, time.UTC)] for a date of the calendar. *)
Definition Time_Date (y m d : Z) : Time := daysFromCivil y m d * (24 * Hour).

(** [t.Format("Jan")]. *)
Definition monthAbbrev (m : Z) : string :=
  match m with
  | 1 => "Jan" | 2 => "Feb" | 3 => "Mar" | 4 => "Apr"
  | 5 => "May" | 6 => "Jun" | 7 => "Jul" | 8 => "Aug"
  | 9 => "Sep" | 10 => "Oct" | 11 => "Nov" | _ => "Dec"
  end.

(** [fmt.Sprintf("%02d", n)]. *)
Definition sprintf_02d (n : Z) : string :=
  if (0 <=? n) && (n <? 10) then "0" +:+ pretty n else pretty n.

Definition formatZipURL (t : Time) : string :=
  let day := sprintf_02d (Time_Day t) in
  let mon := monthAbbrev (Time_Month t) in
  let year := Time_Year t in
  let file := day +:+ "_" +:+ mon +:+ "_" +:+ pretty year +:+ "_APT_CSV.zip" in
  "https://nfdc.faa.gov/webContent/28DaySub/extra/" +:+ file.

(** ** Types *)

Record Airport : Type := {
  ArptID : string;
  Name : string;
  City : string;
  State : string;
  ICAO : string;
  Lat : float;
  Lon : float;
  Fuel : gmap string bool;
}.

(** One file of a ZIP archive as [archive/zip] presents it: its name, the
    error of [f.Open()] if any, the bytes a copy of it delivers, and the error
    the copy ends with if any (a checksum mismatch, say). *)
Record ZipFile : Type := {
  zName : string;
  zOpenErr : option string;
  zData : string;
  zCopyErr : option string;
}.

(** ** The standard library functions the program calls *)

Definition byte (c : ascii) : Z := Z.of_N (N_of_ascii c).

(** [utf8.RuneSelf]: bytes below it are ASCII characters. *)
Definition RuneSelf : Z := 128.

(** What the Go standard library does outside the ASCII range (Unicode case
    tables, Unicode white space, case folding) and its ZIP, CSV, number and
    JSON codecs are taken as given. *)
Class GoLib : Type := {
  (** [strconv.ParseFloat(s, 64)], the returned value (the code drops the error) *)
  ParseFloat : string -> float;
  (** [strings.Map(unicode.ToUpper, s)] *)
  unicode_ToUpper : string -> string;
  (** [strings.TrimFunc(s, unicode.IsSpace)] *)
  TrimFunc_IsSpace : string -> string;
  (** [strings.TrimRightFunc(s, unicode.IsSpace)] *)
  TrimRightFunc_IsSpace : string -> string;
  (** [strings.EqualFold] *)
  EqualFold : string -> string -> bool;
  (** [zip.OpenReader] on the bytes of a file: the archive's files, or an error *)
  zip_Read : string -> result (list ZipFile);
  (** [csv.Reader.ReadAll] with [FieldsPerRecord = -1] on the bytes of a file *)
  csv_ReadAll : string -> result (list (list string));
  (** [json.MarshalIndent(v, "", "  ")] of a slice of airports *)
  json_MarshalIndent : list Airport -> result string;
}.

Fixpoint mapBytes (f : ascii -> ascii) (s : string) : string :=
  match s with
  | EmptyString => EmptyString
  | String c s' => String (f c) (mapBytes f s')
  end.

Fixpoint allBytes (p : ascii -> bool) (s : string) : bool :=
  match s with
  | EmptyString => true
  | String c s' => p c && allBytes p s'
  end.

Definition isLower (c : ascii) : bool := (97 <=? byte c) && (byte c <=? 122).

(** [c -= 'a' - 'A'] on a lower-case letter. *)
Definition upperByte (c : ascii) : ascii :=
  if isLower c then ascii_of_N (Z.to_N (byte c - 32)) else c.

(** The bytes [strings.TrimSpace] treats as space on its ASCII path:
    tab, line feed, vertical tab, form feed, carriage return, space. *)
Definition asciiSpace (c : ascii) : bool :=
  ((9 <=? byte c) && (byte c <=? 13)) || (byte c =? 32).

(** Second loop of [strings.TrimSpace], on the reversed remainder: drop
    ASCII space from the end; a non-ASCII byte hands over to the
    Unicode-aware trim of what is left. *)
Fixpoint trimRightRev `{GoLib} (r : string) : string :=
  match r with
  | EmptyString => EmptyString
  | String c r' =>
      if RuneSelf <=? byte c then TrimRightFunc_IsSpace (String.rev r)
      else if asciiSpace c then trimRightRev r'
      else String.rev r
  end.

(** [strings.TrimSpace]: the first loop drops ASCII space from the front;
    a non-ASCII byte hands the rest over to the Unicode-aware trim. *)
Fixpoint TrimSpace `{GoLib} (s : string) : string :=
  match s with
  | EmptyString => EmptyString
  | String c s' =>
      if RuneSelf <=? byte c then TrimFunc_IsSpace s
      else if asciiSpace c then TrimSpace s'
      else trimRightRev (String.rev s)
  end.

(** [strings.ToUpper]: ASCII-only strings are mapped byte by byte, the
    others through the Unicode tables. *)
Definition ToUpper `{GoLib} (s : string) : string :=
  if allBytes (fun c => byte c <? RuneSelf) s then mapBytes upperByte s
  else unicode_ToUpper s.

(** [strings.HasPrefix(s, p)]. *)
Fixpoint HasPrefix (s p : string) {struct p} : bool :=
  match p, s with
  | EmptyString, _ => true
  | String a p', String b s' => bool_decide (a = b) && HasPrefix s' p'
  | String _ _, EmptyString => false
  end.

(** [strings.Contains(s, substr)]: [substr] occurs in [s] at some offset. *)
Fixpoint Contains (s substr : string) : bool :=
  HasPrefix s substr ||
  match s with
  | EmptyString => false
  | String _ s' => Contains s' substr
  end.

(** ** CSV parser *)

Definition parseFuel `{GoLib} (s : string) : gmap string bool :=
  let x := ToUpper s in
  <["mogas" := Contains x "MOGAS"]>
    (<["100ll" := Contains x "100"]>
       {["jet_a" := Contains x "JET"]}).

(** The closure [col] of [parseAirports]: position of the first header cell
    equal to [name], or -1. *)
Fixpoint colFrom (i : Z) (header : list string) (name : string) : Z :=
  match header with
  | [] => -1
  | h :: rest => if bool_decide (h = name) then i else colFrom (i + 1) rest name
  end.

Definition col (header : list string) (name : string) : Z := colFrom 0 header name.

(** Go's [row[i]]: out of range (negative included) is a run-time panic,
    [None] here. *)
Definition index {A : Type} (row : list A) (i : Z) : option A :=
  if i <? 0 then None else row !! Z.to_nat i.

(** The column positions [parseAirports] looks up in the header. *)
Record Columns : Type := {
  iID : Z; iLat : Z; iLon : Z; iName : Z; iCity : Z; iState : Z; iFuel : Z;
}.

Definition columnsOf (header : list string) : Columns :=
  {| iID := col header "ARPT_ID";
     iLat := col header "LAT_DECIMAL";
     iLon := col header "LONG_DECIMAL";
     iName := col header "ARPT_NAME";
     iCity := col header "CITY";
     iState := col header "STATE_CODE";
     iFuel := col header "FUEL_TYPES" |}.

(** Body of the loop over the data rows: the record built from one row,
    [None] when an index is out of range. *)
Definition airportOfRow `{GoLib} (c : Columns) (row : list string) : option Airport :=
  lat ← ParseFloat <$> index row (iLat c);
  lon ← ParseFloat <$> index row (iLon c);
  id ← TrimSpace <$> index row (iID c);
  name ← index row (iName c);
  city ← index row (iCity c);
  state ← index row (iState c);
  fuel ← index row (iFuel c);
  Some {| ArptID := id; Name := name; City := city; State := state;
          ICAO := "K" +:+ id; Lat := lat; Lon := lon;
          Fuel := parseFuel fuel |}.

Definition indexPanic : string := "runtime error: index out of range".

(** The loop [for _, row := range rows[1:]] with [out = append(out, ap)]. *)
Fixpoint parseDataRows `{GoLib} (c : Columns) (rows : list (list string))
  : outcome (list Airport) :=
  match rows with
  | [] => Returned []
  | row :: rest =>
      match airportOfRow c row with
      | None => Panicked indexPanic
      | Some ap =>
          match parseDataRows c rest with
          | Returned out => Returned (ap :: out)
          | Panicked msg => Panicked msg
          end
      end
  end.

(** [parseAirports] from the point where [ReadAll] has returned [rows]. *)
Definition parseRows `{GoLib} (rows : list (list string)) : outcome (list Airport) :=
  match rows with
  | [] => Panicked indexPanic
  | header :: data => parseDataRows (columnsOf header) data
  end.

(** ** The world the program runs in *)

(** What [http.Get] and the copy of the response body deliver for a URL. *)
Inductive Response : Type :=
| GetFails (e : string)
| Reply (status : Z) (body : string) (copyErr : option string).

(** The environment of one run: the clock, the server, and the paths at which
    creating a file fails. *)
Record World : Type := {
  time_Now : Time;
  http_Get : string -> Response;
  create_err : string -> option string;
}.

(** The state a run changes: the files, and the URLs requested so far. *)
Record Sys : Type := {
  fs : gmap string string;
  requests : list string;
}.

Definition IO (A : Type) : Type := Sys -> outcome A * Sys.

#[export] Instance IO_ret : MRet IO := fun A a s => (Returned a, s).

#[export] Instance IO_bind : MBind IO := fun A B f m s =>
  match m s with
  | (Returned a, s') => f a s'
  | (Panicked msg, s') => (Panicked msg, s')
  end.

Definition panic {A : Type} (msg : string) : IO A := fun s => (Panicked msg, s).

(** [defer f] around [body]: [f] runs when [body] returns and when it panics. *)
Definition defer {A : Type} (f : IO unit) (body : IO A) : IO A := fun s =>
  let '(o, s') := body s in (o, (f s').2).

Definition readFile (path : string) : IO (option string) := fun s =>
  (Returned (fs s !! path), s).

Definition writeFile (path data : string) : IO unit := fun s =>
  (Returned (), {| fs := <[path := data]> (fs s); requests := requests s |}).

Definition os_Remove (path : string) : IO unit := fun s =>
  (Returned (), {| fs := delete path (fs s); requests := requests s |}).

Definition request (url : string) : IO unit := fun s =>
  (Returned (), {| fs := fs s; requests := requests s ++ [url] |}).

(** ** Download and ZIP validation *)

(** The returned value is the error, [None] for [nil]. *)
Definition download (w : World) (url path : string) : IO (option string) :=
  _ ← request url;
  match http_Get w url with
  | GetFails e => mret (Some e)
  | Reply status body copyErr =>
      if bool_decide (status ≠ 200) then
        mret (Some ("HTTP " +:+ pretty status +:+ ": " +:+ url))
      else
        match create_err w path with
        | Some e => mret (Some e)
        | None => _ ← writeFile path body; mret copyErr
        end
  end.

Definition noSuchFile (path : string) : string :=
  "open " +:+ path +:+ ": no such file or directory".

(** [zip.OpenReader(path)]. *)
Definition zip_OpenReader `{GoLib} (path : string) : IO (result (list ZipFile)) :=
  data ← readFile path;
  match data with
  | None => mret (Err (noSuchFile path))
  | Some bytes => mret (zip_Read bytes)
  end.

Definition isZipValid `{GoLib} (path : string) : IO bool :=
  r ← zip_OpenReader path;
  match r with
  | Err _ => mret false
  | Ok _ => mret true
  end.

(** ** ZIP extraction *)

Definition extractCSV `{GoLib} (w : World) (zipPath : string) : IO (result string) :=
  r ← zip_OpenReader zipPath;
  match r with
  | Err e => mret (Err e)
  | Ok files =>
      match List.find (fun f => EqualFold (zName f) "APT_BASE.csv") files with
      | None => mret (Err "APT_BASE.csv not found in ZIP")
      | Some f =>
          match zOpenErr f with
          | Some e => mret (Err e)
          | None =>
              let outName := "APT_BASE.csv" in
              match create_err w outName with
              | Some e => mret (Err e)
              | None =>
                  _ ← writeFile outName (zData f);
                  match zCopyErr f with
                  | Some e => mret (Err e)
                  | None => mret (Ok outName)
                  end
              end
          end
      end
  end.

Definition parseAirports `{GoLib} (path : string) : IO (result (list Airport)) :=
  data ← readFile path;
  match data with
  | None => mret (Err (noSuchFile path))
  | Some bytes =>
      match csv_ReadAll bytes with
      | Err e => mret (Err e)
      | Ok rows =>
          match parseRows rows with
          | Returned out => mret (Ok out)
          | Panicked msg => panic msg
          end
      end
  end.

(** ** JSON output *)

(** The returned value is the error, [None] for [nil]. *)
Definition writeJSON `{GoLib} (w : World) (path : string) (v : list Airport)
  : IO (option string) :=
  match json_MarshalIndent v with
  | Err e => mret (Some e)
  | Ok b =>
      match create_err w path with
      | Some e => mret (Some e)
      | None => _ ← writeFile path b; mret None
      end
  end.

(** ** Pipeline *)

Definition runPipeline `{GoLib} (w : World) (zipPath : string) : IO unit :=
  r ← extractCSV w zipPath;
  match r with
  | Err e => panic e
  | Ok csvPath =>
      defer (os_Remove csvPath)
        (r ← parseAirports csvPath;
         match r with
         | Err e => panic e
         | Ok airports =>
             err ← writeJSON w "public/airports.json" airports;
             match err with
             | Some e => panic e
             | None => mret ()
             end
         end)
  end.

(** ** Main entry *)

Definition main `{GoLib} (w : World) : IO unit :=
  let nextCycle := computeNextCycle (time_Now w) in
  let nextURL := formatZipURL nextCycle in
  err ← download w nextURL "cycle.zip";
  unusable ← match err with
             | Some _ => mret true
             | None => valid ← isZipValid "cycle.zip"; mret (negb valid)
             end;
  _ ← (if unusable : bool then
         _ ← os_Remove "cycle.zip";
         let currentCycle := Time_Add nextCycle (- cycleLengthDays * 24 * Hour) in
         let currentURL := formatZipURL currentCycle in
         err2 ← download w currentURL "cycle.zip";
         match err2 with
         | Some e => panic ("failed to download current cycle: " +:+ e)
         | None =>
             valid ← isZipValid "cycle.zip";
             if valid : bool then mret ()
             else panic "Downloaded current cycle but it is NOT a valid ZIP."
         end
       else mret ());
  runPipeline w "cycle.zip".

End Fetch.

Module UI.

Local Open Scope nat_scope.

(** ** JavaScript values *)

(** A string is a sequence of UTF-16 code units. *)
Definition jsstring : Type := list N.

(** A string literal of the source (ASCII). *)
Definition js (s : string) : jsstring := N_of_ascii <$> list_ascii_of_string s.

(** The double quote, for the literals that hold one. *)
Definition dq : jsstring := [34%N].

(** ["..."] inside a literal. *)
Definition quoted (s : string) : jsstring := dq ++ js s ++ dq.

(** What [escapeHtml] is called with. *)
Inductive jsval : Type :=
| JNull
| JUndefined
| JStr (s : jsstring).

(** [s.replace(/c/g, by)] for a one-character pattern and a replacement
    without [$]. *)
Definition replaceAll (c : N) (by_ : jsstring) (s : jsstring) : jsstring :=
  s ≫= (fun x => if (x =? c)%N then by_ else [x]).

(** Code units of the characters [escapeHtml] replaces. *)
Definition c_amp : N := 38.
Definition c_lt : N := 60.
Definition c_gt : N := 62.
Definition c_quot : N := 34.
Definition c_apos : N := 39.

Definition escapeHtml (str : jsval) : jsstring :=
  match str with
  | JNull | JUndefined => []
  | JStr s =>
      replaceAll c_apos (js "&#039;")
        (replaceAll c_quot (js "&quot;")
           (replaceAll c_gt (js "&gt;")
              (replaceAll c_lt (js "&lt;")
                 (replaceAll c_amp (js "&amp;") s))))
  end.

(** [a.slice(start, end)] for non-negative integers. *)
Definition slice {A : Type} (a : list A) (start end_ : nat) : list A :=
  take (end_ - start) (drop start a).

(** [a.join(sep)]. *)
Fixpoint join (sep : jsstring) (a : list jsstring) : jsstring :=
  match a with
  | [] => []
  | [x] => x
  | x :: rest => x ++ sep ++ join sep rest
  end.

(** *** [Array.prototype.sort] *)

(** Placing [x] in front of a sorted array: [x] moves right past every [y]
    with [comparefn(x, y) > 0]; a NaN result counts as 0. *)
Fixpoint sortInsert {A : Type} (comparefn : A -> A -> float) (x : A) (a : list A)
  : list A :=
  match a with
  | [] => [x]
  | y :: rest =>
      if (0 <? comparefn x y)%float then y :: sortInsert comparefn x rest
      else x :: a
  end.

(** The stable sort by [comparefn].  ECMAScript leaves the sequence of
    comparisons to the engine: for a consistent comparison function every
    engine returns this array. *)
Fixpoint Array_sort {A : Type} (comparefn : A -> A -> float) (a : list A) : list A :=
  match a with
  | [] => []
  | x :: rest => sortInsert comparefn x (Array_sort comparefn rest)
  end.

(** ** Data *)

(** One element of [airports.json]. *)
Record Airport : Type := {
  arpt_id : jsstring;
  name : jsstring;
  city : jsstring;
  state : jsstring;
  icao : jsstring;
  lat : float;
  lon : float;
  fuel : list (jsstring * bool);
}.

(** [{ lat, lon }]. *)
Record Point : Type := { p_lat : float; p_lon : float }.

Definition pointOf (ap : Airport) : Point := {| p_lat := lat ap; p_lon := lon ap |}.

(** [{ ...ap, dist }]. *)
Record Entry : Type := { ap : Airport; dist : float }.

(** [ap.fuel[f]] as a condition: a missing key is undefined, hence false. *)
Definition fuelHas (a : Airport) (f : jsstring) : bool :=
  match List.find (fun kv => bool_decide (kv.1 = f)) (fuel a) with
  | Some kv => kv.2
  | None => false
  end.

(** [Object.keys(ap.fuel).filter((f) => ap.fuel[f]).join(", ")]. *)
Definition fuelsText (a : Airport) : jsstring :=
  join (js ", ") (List.filter (fuelHas a) ((fun kv => kv.1) <$> fuel a)).

Inductive Mode : Type := ViewMode | RadiusMode | AllMode.

Definition MAX_PINS : nat := 2000.
Definition PAGE_SIZE : nat := 80.

(** What the JavaScript engine provides: the functions of [Math] and the
    operator [**], which ECMAScript leaves implementation-approximated except
    at the arguments for which it fixes the result (a NaN or infinite
    argument of [Math.sin] gives NaN; NaN to a non-zero power, and the square
    root and arc sine of NaN, are NaN); the decimal renderings of numbers; and
    whether [IntersectionObserver] exists. *)
Class Browser : Type := {
  Math_sin : float -> float;
  Math_cos : float -> float;
  Math_asin : float -> float;
  Math_sqrt : float -> float;
  exponentiate : float -> float -> float;
  toFixed1 : float -> jsstring;
  numberToString : float -> jsstring;
  hasIntersectionObserver : bool;
  Math_sin_nan : Math_sin nan = nan;
  Math_sin_infinity : Math_sin infinity = nan /\ Math_sin neg_infinity = nan;
  exponentiate_nan_2 : exponentiate nan 2 = nan;
  Math_sqrt_nan : Math_sqrt nan = nan;
  Math_asin_nan : Math_asin nan = nan;
}.

(** [Math.PI]. *)
Definition Math_PI : float := 3.141592653589793%float.

Definition haversine `{Browser} (a b : Point) : float :=
  let R := 3958.8%float in
  let dLat := ((p_lat b - p_lat a) * Math_PI / 180)%float in
  let dLon := ((p_lon b - p_lon a) * Math_PI / 180)%float in
  let lat1 := (p_lat a * Math_PI / 180)%float in
  let lat2 := (p_lat b * Math_PI / 180)%float in
  let x :=
    (exponentiate (Math_sin (dLat / 2)) 2 +
     exponentiate (Math_sin (dLon / 2)) 2 * Math_cos lat1 * Math_cos lat2)%float in
  (2 * R * Math_asin (Math_sqrt x))%float.

(** The script's variables and the parts of the document it reads and
    writes.  An element that the page lacks is [None]. *)
Record State : Type := {
  airports : list Airport;
  filtered : list Entry;
  markers : list Entry;
  center : Point;
  radiusMiles : float;
  radiusCircle : bool;
  listPage : nat;
  searchMode : Mode;
  isLoadingMore : bool;
  loadMoreObserver : option bool;
  (** [map.getBounds().contains([lat, lon])] for the current view *)
  mapBounds : Point -> bool;
  (** class [active] of [#fuel-mogas], [#fuel-100ll], [#fuel-jet] *)
  fuelMogas : option bool;
  fuel100ll : option bool;
  fuelJet : option bool;
  (** [#showCircle.checked] *)
  showCircle : option bool;
  (** children of [#list], each the entry it was rendered from *)
  listEl : option (list Entry);
  (** text of [#resultCount] *)
  countEl : option jsstring;
  (** attribute [disabled] of [#loadMoreBtn] *)
  loadMoreBtn : option bool;
}.

(** Assignments to one variable or element. *)
Definition set_airports (v : list Airport) (st : State) : State :=
  {| airports := v; filtered := filtered st; markers := markers st; center := center st;
     radiusMiles := radiusMiles st; radiusCircle := radiusCircle st; listPage :=
     listPage st; searchMode := searchMode st; isLoadingMore := isLoadingMore st;
     loadMoreObserver := loadMoreObserver st; mapBounds := mapBounds st; fuelMogas :=
     fuelMogas st; fuel100ll := fuel100ll st; fuelJet := fuelJet st; showCircle :=
     showCircle st; listEl := listEl st; countEl := countEl st; loadMoreBtn :=
     loadMoreBtn st |}.

Definition set_filtered (v : list Entry) (st : State) : State :=
  {| airports := airports st; filtered := v; markers := markers st; center := center st;
     radiusMiles := radiusMiles st; radiusCircle := radiusCircle st; listPage :=
     listPage st; searchMode := searchMode st; isLoadingMore := isLoadingMore st;
     loadMoreObserver := loadMoreObserver st; mapBounds := mapBounds st; fuelMogas :=
     fuelMogas st; fuel100ll := fuel100ll st; fuelJet := fuelJet st; showCircle :=
     showCircle st; listEl := listEl st; countEl := countEl st; loadMoreBtn :=
     loadMoreBtn st |}.

Definition set_markers (v : list Entry) (st : State) : State :=
  {| airports := airports st; filtered := filtered st; markers := v; center := center
     st; radiusMiles := radiusMiles st; radiusCircle := radiusCircle st; listPage :=
     listPage st; searchMode := searchMode st; isLoadingMore := isLoadingMore st;
     loadMoreObserver := loadMoreObserver st; mapBounds := mapBounds st; fuelMogas :=
     fuelMogas st; fuel100ll := fuel100ll st; fuelJet := fuelJet st; showCircle :=
     showCircle st; listEl := listEl st; countEl := countEl st; loadMoreBtn :=
     loadMoreBtn st |}.

Definition set_center (v : Point) (st : State) : State :=
  {| airports := airports st; filtered := filtered st; markers := markers st; center :=
     v; radiusMiles := radiusMiles st; radiusCircle := radiusCircle st; listPage :=
     listPage st; searchMode := searchMode st; isLoadingMore := isLoadingMore st;
     loadMoreObserver := loadMoreObserver st; mapBounds := mapBounds st; fuelMogas :=
     fuelMogas st; fuel100ll := fuel100ll st; fuelJet := fuelJet st; showCircle :=
     showCircle st; listEl := listEl st; countEl := countEl st; loadMoreBtn :=
     loadMoreBtn st |}.

Definition set_radiusMiles (v : float) (st : State) : State :=
  {| airports := airports st; filtered := filtered st; markers := markers st; center :=
     center st; radiusMiles := v; radiusCircle := radiusCircle st; listPage := listPage
     st; searchMode := searchMode st; isLoadingMore := isLoadingMore st;
     loadMoreObserver := loadMoreObserver st; mapBounds := mapBounds st; fuelMogas :=
     fuelMogas st; fuel100ll := fuel100ll st; fuelJet := fuelJet st; showCircle :=
     showCircle st; listEl := listEl st; countEl := countEl st; loadMoreBtn :=
     loadMoreBtn st |}.

Definition set_radiusCircle (v : bool) (st : State) : State :=
  {| airports := airports st; filtered := filtered st; markers := markers st; center :=
     center st; radiusMiles := radiusMiles st; radiusCircle := v; listPage := listPage
     st; searchMode := searchMode st; isLoadingMore := isLoadingMore st;
     loadMoreObserver := loadMoreObserver st; mapBounds := mapBounds st; fuelMogas :=
     fuelMogas st; fuel100ll := fuel100ll st; fuelJet := fuelJet st; showCircle :=
     showCircle st; listEl := listEl st; countEl := countEl st; loadMoreBtn :=
     loadMoreBtn st |}.

Definition set_listPage (v : nat) (st : State) : State :=
  {| airports := airports st; filtered := filtered st; markers := markers st; center :=
     center st; radiusMiles := radiusMiles st; radiusCircle := radiusCircle st; listPage
     := v; searchMode := searchMode st; isLoadingMore := isLoadingMore st;
     loadMoreObserver := loadMoreObserver st; mapBounds := mapBounds st; fuelMogas :=
     fuelMogas st; fuel100ll := fuel100ll st; fuelJet := fuelJet st; showCircle :=
     showCircle st; listEl := listEl st; countEl := countEl st; loadMoreBtn :=
     loadMoreBtn st |}.

Definition set_searchMode (v : Mode) (st : State) : State :=
  {| airports := airports st; filtered := filtered st; markers := markers st; center :=
     center st; radiusMiles := radiusMiles st; radiusCircle := radiusCircle st; listPage
     := listPage st; searchMode := v; isLoadingMore := isLoadingMore st;
     loadMoreObserver := loadMoreObserver st; mapBounds := mapBounds st; fuelMogas :=
     fuelMogas st; fuel100ll := fuel100ll st; fuelJet := fuelJet st; showCircle :=
     showCircle st; listEl := listEl st; countEl := countEl st; loadMoreBtn :=
     loadMoreBtn st |}.

Definition set_isLoadingMore (v : bool) (st : State) : State :=
  {| airports := airports st; filtered := filtered st; markers := markers st; center :=
     center st; radiusMiles := radiusMiles st; radiusCircle := radiusCircle st; listPage
     := listPage st; searchMode := searchMode st; isLoadingMore := v; loadMoreObserver
     := loadMoreObserver st; mapBounds := mapBounds st; fuelMogas := fuelMogas st;
     fuel100ll := fuel100ll st; fuelJet := fuelJet st; showCircle := showCircle st;
     listEl := listEl st; countEl := countEl st; loadMoreBtn := loadMoreBtn st |}.

Definition set_loadMoreObserver (v : option bool) (st : State) : State :=
  {| airports := airports st; filtered := filtered st; markers := markers st; center :=
     center st; radiusMiles := radiusMiles st; radiusCircle := radiusCircle st; listPage
     := listPage st; searchMode := searchMode st; isLoadingMore := isLoadingMore st;
     loadMoreObserver := v; mapBounds := mapBounds st; fuelMogas := fuelMogas st;
     fuel100ll := fuel100ll st; fuelJet := fuelJet st; showCircle := showCircle st;
     listEl := listEl st; countEl := countEl st; loadMoreBtn := loadMoreBtn st |}.

Definition set_mapBounds (v : Point -> bool) (st : State) : State :=
  {| airports := airports st; filtered := filtered st; markers := markers st; center :=
     center st; radiusMiles := radiusMiles st; radiusCircle := radiusCircle st; listPage
     := listPage st; searchMode := searchMode st; isLoadingMore := isLoadingMore st;
     loadMoreObserver := loadMoreObserver st; mapBounds := v; fuelMogas := fuelMogas st;
     fuel100ll := fuel100ll st; fuelJet := fuelJet st; showCircle := showCircle st;
     listEl := listEl st; countEl := countEl st; loadMoreBtn := loadMoreBtn st |}.

Definition set_fuelMogas (v : option bool) (st : State) : State :=
  {| airports := airports st; filtered := filtered st; markers := markers st; center :=
     center st; radiusMiles := radiusMiles st; radiusCircle := radiusCircle st; listPage
     := listPage st; searchMode := searchMode st; isLoadingMore := isLoadingMore st;
     loadMoreObserver := loadMoreObserver st; mapBounds := mapBounds st; fuelMogas := v;
     fuel100ll := fuel100ll st; fuelJet := fuelJet st; showCircle := showCircle st;
     listEl := listEl st; countEl := countEl st; loadMoreBtn := loadMoreBtn st |}.

Definition set_fuel100ll (v : option bool) (st : State) : State :=
  {| airports := airports st; filtered := filtered st; markers := markers st; center :=
     center st; radiusMiles := radiusMiles st; radiusCircle := radiusCircle st; listPage
     := listPage st; searchMode := searchMode st; isLoadingMore := isLoadingMore st;
     loadMoreObserver := loadMoreObserver st; mapBounds := mapBounds st; fuelMogas :=
     fuelMogas st; fuel100ll := v; fuelJet := fuelJet st; showCircle := showCircle st;
     listEl := listEl st; countEl := countEl st; loadMoreBtn := loadMoreBtn st |}.

Definition set_fuelJet (v : option bool) (st : State) : State :=
  {| airports := airports st; filtered := filtered st; markers := markers st; center :=
     center st; radiusMiles := radiusMiles st; radiusCircle := radiusCircle st; listPage
     := listPage st; searchMode := searchMode st; isLoadingMore := isLoadingMore st;
     loadMoreObserver := loadMoreObserver st; mapBounds := mapBounds st; fuelMogas :=
     fuelMogas st; fuel100ll := fuel100ll st; fuelJet := v; showCircle := showCircle st;
     listEl := listEl st; countEl := countEl st; loadMoreBtn := loadMoreBtn st |}.

Definition set_showCircle (v : option bool) (st : State) : State :=
  {| airports := airports st; filtered := filtered st; markers := markers st; center :=
     center st; radiusMiles := radiusMiles st; radiusCircle := radiusCircle st; listPage
     := listPage st; searchMode := searchMode st; isLoadingMore := isLoadingMore st;
     loadMoreObserver := loadMoreObserver st; mapBounds := mapBounds st; fuelMogas :=
     fuelMogas st; fuel100ll := fuel100ll st; fuelJet := fuelJet st; showCircle := v;
     listEl := listEl st; countEl := countEl st; loadMoreBtn := loadMoreBtn st |}.

Definition set_listEl (v : option (list Entry)) (st : State) : State :=
  {| airports := airports st; filtered := filtered st; markers := markers st; center :=
     center st; radiusMiles := radiusMiles st; radiusCircle := radiusCircle st; listPage
     := listPage st; searchMode := searchMode st; isLoadingMore := isLoadingMore st;
     loadMoreObserver := loadMoreObserver st; mapBounds := mapBounds st; fuelMogas :=
     fuelMogas st; fuel100ll := fuel100ll st; fuelJet := fuelJet st; showCircle :=
     showCircle st; listEl := v; countEl := countEl st; loadMoreBtn := loadMoreBtn st
     |}.

Definition set_countEl (v : option jsstring) (st : State) : State :=
  {| airports := airports st; filtered := filtered st; markers := markers st; center :=
     center st; radiusMiles := radiusMiles st; radiusCircle := radiusCircle st; listPage
     := listPage st; searchMode := searchMode st; isLoadingMore := isLoadingMore st;
     loadMoreObserver := loadMoreObserver st; mapBounds := mapBounds st; fuelMogas :=
     fuelMogas st; fuel100ll := fuel100ll st; fuelJet := fuelJet st; showCircle :=
     showCircle st; listEl := listEl st; countEl := v; loadMoreBtn := loadMoreBtn st |}.

Definition set_loadMoreBtn (v : option bool) (st : State) : State :=
  {| airports := airports st; filtered := filtered st; markers := markers st; center :=
     center st; radiusMiles := radiusMiles st; radiusCircle := radiusCircle st; listPage
     := listPage st; searchMode := searchMode st; isLoadingMore := isLoadingMore st;
     loadMoreObserver := loadMoreObserver st; mapBounds := mapBounds st; fuelMogas :=
     fuelMogas st; fuel100ll := fuel100ll st; fuelJet := fuelJet st; showCircle :=
     showCircle st; listEl := listEl st; countEl := countEl st; loadMoreBtn := v |}.

(** ** Filtering *)

(** [el?.classList.contains("active")] as a condition. *)
Definition isActive (el : option bool) : bool := default false el.

Definition getSelectedFuels (st : State) : list jsstring :=
  (if isActive (fuelMogas st) then [js "mogas"] else []) ++
  (if isActive (fuel100ll st) then [js "100ll"] else []) ++
  (if isActive (fuelJet st) then [js "jet_a"] else []).

Definition inBounds (st : State) (a : Airport) : bool := mapBounds st (pointOf a).

Definition filterAirports `{Browser} (st : State) : list Airport :=
  let fuels := getSelectedFuels st in
  if bool_decide (length fuels = 0) then []
  else
    let result := List.filter (fun a => existsb (fun f => fuelHas a f) fuels) (airports st) in
    match searchMode st with
    | AllMode => result
    | RadiusMode =>
        List.filter (fun a => (haversine (center st) (pointOf a) <=? radiusMiles st)%float)
                    result
    | ViewMode => List.filter (fun a => inBounds st a) result
    end.

(** ** Rendered HTML *)

Definition nl (indent : nat) : jsstring := [10%N] ++ replicate indent 32%N.

(** The popup bound to a pin in [renderPins]. *)
Definition popupHtml `{Browser} (e : Entry) : jsstring :=
  let a := ap e in
  (js "<b>" ++ escapeHtml (JStr (name a)) ++ js "</b><br>") ++
  (escapeHtml (JStr (city a)) ++ js ", " ++ escapeHtml (JStr (state a)) ++ js "<br>") ++
  (js "Fuel: " ++ escapeHtml (JStr (fuelsText a)) ++ js "<br>") ++
  (js "Distance: " ++ toFixed1 (dist e) ++ js " mi<br>") ++
  (js "<a href=" ++ dq ++ js "https://www.airnav.com/airport/K" ++ arpt_id a ++ dq ++
   js " target=" ++ quoted "_blank" ++
   js " style=" ++ quoted "color:#2e7555; text-decoration:underline;" ++
   js ">View on AirNav</a>").

(** The [innerHTML] of a list item in [renderList]. *)
Definition itemHtml `{Browser} (e : Entry) : jsstring :=
  let a := ap e in
  nl 6 ++ js "<div class=" ++ quoted "font-semibold text-gray-800" ++ js ">" ++
  nl 8 ++ escapeHtml (JStr (name a)) ++
    js " <span class=" ++ quoted "text-gray-500 text-sm" ++ js ">(" ++
    escapeHtml (JStr (arpt_id a)) ++ js ")</span>" ++
  nl 6 ++ js "</div>" ++
  nl 6 ++ js "<div class=" ++ quoted "text-gray-600" ++ js ">" ++
    escapeHtml (JStr (city a)) ++ js ", " ++ escapeHtml (JStr (state a)) ++ js "</div>" ++
  nl 6 ++ js "<div class=" ++ quoted "text-gray-700 text-sm" ++ js ">Fuel: " ++
    escapeHtml (JStr (fuelsText a)) ++ js "</div>" ++
  nl 6 ++ js "<div class=" ++ quoted "text-gray-600 text-sm" ++ js ">Distance: " ++
    toFixed1 (dist e) ++ js " miles</div>" ++
  nl 6 ++ js "<a class=" ++ quoted "text-primary text-sm underline" ++
    js " target=" ++ quoted "_blank" ++
    js " href=" ++ dq ++ js "https://www.airnav.com/airport/K" ++ arpt_id a ++ dq ++ js ">" ++
  nl 8 ++ js "View on AirNav" ++
  nl 6 ++ js "</a>" ++
  nl 4.

(** ** Load-more state *)

Definition hasMore (st : State) : bool :=
  (listPage st + 1) * PAGE_SIZE <? length (filtered st).

Definition setupLoadMoreObserver `{Browser} (st : State) : State :=
  match loadMoreBtn st with
  | None => st
  | Some _ =>
      if hasIntersectionObserver then set_loadMoreObserver (Some true) st else st
  end.

Definition updateLoadMoreState `{Browser} (st : State) : State :=
  match loadMoreBtn st with
  | None => st
  | Some _ =>
      if negb (hasMore st) then
        let st := set_loadMoreBtn (Some true) st in
        match loadMoreObserver st with
        | Some _ => set_loadMoreObserver (Some false) st
        | None => st
        end
      else
        let st := set_loadMoreBtn (Some false) st in
        match loadMoreObserver st with
        | None => if hasIntersectionObserver then setupLoadMoreObserver st else st
        | Some _ => set_loadMoreObserver (Some true) st
        end
  end.

(** ** Render *)

Definition countText `{Browser} (st : State) : jsstring :=
  let modeText :=
    match searchMode st with
    | AllMode => js "total"
    | RadiusMode => js "within " ++ numberToString (radiusMiles st) ++ js "mi"
    | ViewMode => js "in view"
    end in
  js "(" ++ js (pretty (length (filtered st))) ++ js " " ++ modeText ++
  (if MAX_PINS <? length (filtered st)
   then js ", " ++ js (pretty MAX_PINS) ++ js " shown on map" else []) ++
  js ")".

Definition renderList `{Browser} (reset : bool) (st : State) : State :=
  match listEl st, countEl st with
  | Some _, Some _ =>
      let st := if reset then set_listPage 0 (set_listEl (Some []) st) else st in
      let start := listPage st * PAGE_SIZE in
      let end_ := Nat.min (start + PAGE_SIZE) (length (filtered st)) in
      let chunk := slice (filtered st) start end_ in
      let st := set_listEl (Some (default [] (listEl st) ++ chunk)) st in
      let st := set_countEl (Some (countText st)) st in
      updateLoadMoreState st
  | _, _ => st
  end.

Definition renderPins (airportsToShow : list Entry) (st : State) : State :=
  set_markers airportsToShow st.

Definition renderRadiusCircle (st : State) : State :=
  let shown :=
    match searchMode st with
    | RadiusMode => true
    | ViewMode => default false (showCircle st)
    | AllMode => false
    end in
  set_radiusCircle shown st.

Definition withDist `{Browser} (c : Point) (a : Airport) : Entry :=
  {| ap := a; dist := haversine c (pointOf a) |}.

(** [(a, b) => a.dist - b.dist]. *)
Definition byDist (a b : Entry) : float := (dist a - dist b)%float.

Definition render `{Browser} (st : State) : State :=
  let result := filterAirports st in
  let st := set_filtered (Array_sort byDist (withDist (center st) <$> result)) st in
  let pinsToShow := slice (filtered st) 0 MAX_PINS in
  let st := renderPins pinsToShow st in
  let st := renderRadiusCircle st in
  let st := renderList true st in
  updateLoadMoreState st.

(** ** Loading more *)

(** [attemptLoadMore] up to the point where it schedules the animation
    frame: [isLoadingMore] is true exactly while that callback is pending. *)
Definition attemptLoadMore `{Browser} (st : State) : State :=
  if isLoadingMore st then st
  else if negb (hasMore st) then updateLoadMoreState st
  else set_isLoadingMore true st.

(** The callback [attemptLoadMore] hands to [requestAnimationFrame]. *)
Definition loadMoreFrame `{Browser} (st : State) : State :=
  let st := set_listPage (listPage st + 1) st in
  let st := renderList false st in
  let st := set_isLoadingMore false st in
  updateLoadMoreState st.

(** The callback of the [IntersectionObserver], for an intersecting entry. *)
Definition observerCallback `{Browser} (st : State) : State :=
  if negb (isLoadingMore st) then
    if hasMore st then attemptLoadMore st else updateLoadMoreState st
  else st.

(** ** Events *)

Inductive FuelButton : Type := BtnMogas | Btn100ll | BtnJet.

(** What can happen to the page once [init] has run. *)
Inductive Event : Type :=
| MapClick (p : Point)
| MapMoved (bounds : Point -> bool)
| Geolocated (p : Point)
| FuelToggle (b : FuelButton)
| SliderInput (v : float)
| ShowCircleChange (checked : bool)
| ViewModeClick
| ListAllClick
| LoadMoreClick
| ButtonInView
| AnimationFrame.

(** [el.classList.toggle("active")] followed by the rest of [toggleHandler];
    a button the page lacks has no handler. *)
Definition toggleFuel `{Browser} (b : FuelButton) (st : State) : State :=
  let el := match b with
            | BtnMogas => fuelMogas st
            | Btn100ll => fuel100ll st
            | BtnJet => fuelJet st
            end in
  match el with
  | None => st
  | Some active =>
      let st := match b with
                | BtnMogas => set_fuelMogas (Some (negb active)) st
                | Btn100ll => set_fuel100ll (Some (negb active)) st
                | BtnJet => set_fuelJet (Some (negb active)) st
                end in
      render (set_listPage 0 st)
  end.

(** The handler of each event, as registered in [init] and [initUI]. *)
Definition handle `{Browser} (ev : Event) (st : State) : State :=
  match ev with
  | MapClick p =>
      let st := set_center p st in
      let st := match searchMode st with
                | ViewMode => set_searchMode RadiusMode st
                | _ => st
                end in
      render st
  | MapMoved bounds =>
      let st := set_mapBounds bounds st in
      match searchMode st with
      | ViewMode => render st
      | _ => st
      end
  | Geolocated p => render (set_center p st)
  | FuelToggle b => toggleFuel b st
  | SliderInput v => render (set_listPage 0 (set_radiusMiles v st))
  | ShowCircleChange checked =>
      match showCircle st with
      | None => st
      | Some _ => render (set_showCircle (Some checked) st)
      end
  | ViewModeClick => render (set_listPage 0 (set_searchMode ViewMode st))
  | ListAllClick => render (set_listPage 0 (set_searchMode AllMode st))
  | LoadMoreClick =>
      match loadMoreBtn st with
      | None => st
      | Some _ => attemptLoadMore st
      end
  | ButtonInView =>
      match loadMoreObserver st with
      | Some true => observerCallback st
      | _ => st
      end
  | AnimationFrame => if isLoadingMore st then loadMoreFrame st else st
  end.

(** The states of the page: any state right after a [render()] (as at the end
    of [init]), and those the handlers lead to from there. *)
Inductive reachable `{Browser} : State -> Prop :=
| reach_render (st : State) : reachable (render st)
| reach_handle (ev : Event) (st : State) : reachable st -> reachable (handle ev st).

End UI.

(** * Sample environments

    Concrete libraries, worlds and pages on which the definitions above are
    run in the examples below. *)

Module Samples.
Import Fetch.

(** Splits [s] at every byte [sep]. *)
Fixpoint splitOn (sep : ascii) (s : string) : list string :=
  match s with
  | EmptyString => [EmptyString]
  | String c s' =>
      match splitOn sep s' with
      | [] => [EmptyString]
      | field :: rest =>
          if bool_decide (c = sep) then EmptyString :: field :: rest
          else String c field :: rest
      end
  end.

Definition lf : ascii := ascii_of_N 10.

(** A library for ASCII data without quoted CSV fields: an archive is the
    bytes [PK] followed by the contents of its one file [APT_BASE.csv]; the
    JSON rendering lists the ICAO codes. *)
#[export] Instance sampleLib : GoLib := {|
  ParseFloat := fun _ => 0%float;
  unicode_ToUpper := fun s => s;
  TrimFunc_IsSpace := fun s => s;
  TrimRightFunc_IsSpace := fun s => s;
  EqualFold := fun s t => bool_decide (mapBytes upperByte s = mapBytes upperByte t);
  zip_Read := fun bytes =>
    match bytes with
    | String "P" (String "K" data) =>
        Ok [{| zName := "apt_base.CSV"; zOpenErr := None; zData := data; zCopyErr := None |}]
    | _ => Err "zip: not a valid zip file"
    end;
  csv_ReadAll := fun bytes => Ok (splitOn "," <$> splitOn lf bytes);
  json_MarshalIndent := fun v => Ok (String.concat "," (ICAO <$> v));
|}.

Definition sampleHeader : string :=
  "ARPT_ID,ARPT_NAME,CITY,STATE_CODE,LAT_DECIMAL,LONG_DECIMAL,FUEL_TYPES".

(** Three data rows: one with fuel, one with an identifier that is not a
    three-letter code, one with no fuel at all. *)
Definition sampleCSV : string :=
  sampleHeader +:+ String lf
    " ABC ,EXAMPLE,SOMEWHERE,XX,12.3456,-98.7654,100LL MOGAS" +:+ String lf
    "1A2B,PRIVATE STRIP,NOWHERE,YY,1.5,2.5,jet-a" +:+ String lf
    "ZZ9,NO FUEL FIELD,ELSEWHERE,ZZ,,,".

(** The table the sample reader returns for [sampleCSV]. *)
Definition sampleRows : list (list string) :=
  [ ["ARPT_ID"; "ARPT_NAME"; "CITY"; "STATE_CODE"; "LAT_DECIMAL"; "LONG_DECIMAL";
     "FUEL_TYPES"];
    [" ABC "; "EXAMPLE"; "SOMEWHERE"; "XX"; "12.3456"; "-98.7654"; "100LL MOGAS"];
    ["1A2B"; "PRIVATE STRIP"; "NOWHERE"; "YY"; "1.5"; "2.5"; "jet-a"];
    ["ZZ9"; "NO FUEL FIELD"; "ELSEWHERE"; "ZZ"; ""; ""; ""] ].

(** The records parsed from [sampleRows]. *)
Definition sampleAirports : list Airport :=
  match parseRows sampleRows with
  | Returned out => out
  | Panicked _ => []
  end.

Definition sampleZip : string := "PK" +:+ sampleCSV.

(** 2026-11-03 00:00:00 UTC. *)
Definition sampleNow : Time := 1793664000 * Second.

(** A server on which the cycle of 26 Nov 2026 is not out yet (404) and
    every other cycle is. *)
Definition sampleWorld : World := {|
  time_Now := sampleNow;
  http_Get := fun url =>
    if bool_decide (url = "https://nfdc.faa.gov/webContent/28DaySub/extra/26_Nov_2026_APT_CSV.zip")
    then Reply 404 "Not Found" None
    else Reply 200 sampleZip None;
  create_err := fun _ => None;
|}.

(** A server that answers every request with an HTML error page and
    status 200. *)
Definition brokenWorld : World := {|
  time_Now := sampleNow;
  http_Get := fun _ => Reply 200 "<html>Service unavailable</html>" None;
  create_err := fun _ => None;
|}.

Definition emptySys : Sys := {| fs := ∅; requests := [] |}.

(** A disk on which [cycle.zip] is already in place. *)
Definition sampleSys : Sys := {| fs := {["cycle.zip" := sampleZip]}; requests := [] |}.

End Samples.

(** * Sample pages *)

Module UISamples.
Import UI.

Local Open Scope nat_scope.

(** The integer part of a number, 0 for NaN and the infinities. *)
Definition truncate (x : float) : Z :=
  match Prim2SF x with
  | S754_finite s m e =>
      let v := if (0 <=? e)%Z then (Z.pos m * 2 ^ e)%Z else (Z.pos m / 2 ^ (- e))%Z in
      if s then (- v)%Z else v
  | _ => 0%Z
  end.

Definition showNumber (x : float) : jsstring :=
  if is_nan x then js "NaN" else js (pretty (truncate x)).

(** An engine with the small-angle approximations sin x = x, cos x = 1 and
    asin x = x, the exact square root, and x ** y as x * x (for y = 2). *)
#[export, refine] Instance sampleBrowser : Browser := {|
  Math_sin := fun x => if is_infinity x then nan else x;
  Math_cos := fun x => if is_infinity x then nan else 1%float;
  Math_asin := fun x => if (1 <? abs x)%float then nan else x;
  Math_sqrt := PrimFloat.sqrt;
  exponentiate := fun x y => if (y =? 2)%float then (x * x)%float else nan;
  toFixed1 := showNumber;
  numberToString := showNumber;
  hasIntersectionObserver := true;
|}.
Proof. all: abstract (vm_compute; auto). Defined.

Definition mkAirport (id : jsstring) (x : float) (mogas avgas jet : bool) : Airport := {|
  arpt_id := id; name := js "EXAMPLE"; city := js "SOMEWHERE"; state := js "XX";
  icao := js "K" ++ id; lat := x; lon := (-98.3)%float;
  fuel := [(js "100ll", avgas); (js "jet_a", jet); (js "mogas", mogas)];
|}.

Definition threeAirports : list Airport :=
  [mkAirport (js "ABC") 42 true true false;
   mkAirport (js "1A2B") 40 false true true;
   mkAirport (js "ZZ9") 41 true false false].

(** An airport whose identifier closes the attribute it is written into. *)
Definition hostileAirport : Airport :=
  mkAirport (dq ++ js "><img src=x onerror=alert(1)>") 40 true false false.

(** An airport whose latitude is a number but not an angle. *)
Definition farAirport : Airport := mkAirport (js "FAR") 1e308 true false false.

(** 200 airports at latitudes 41.5, 41.49, ..., 39.51. *)
Definition manyAirports : list Airport :=
  (fun i => mkAirport (js (pretty i))
              (39.5 + PrimFloat.of_uint63 (Uint63.of_Z (Z.of_nat (200 - i))) / 100)%float
              true false false) <$> seq 0 200.

(** Two airports 172.7 and 103.6 miles from the center, and between them one
    whose distance is not a number. *)
Definition farAirports : list Airport :=
  [mkAirport (js "ABC") 42 true true false;
   farAirport;
   mkAirport (js "ZZ9") 41 true false false].

(** A page with every element present, only MoGas selected, listing all,
    with the center and radius the script starts with. *)
Definition samplePage (data : list Airport) : State := {|
  airports := data; filtered := []; markers := [];
  center := {| p_lat := 39.5; p_lon := -98.3 |};
  radiusMiles := 200; radiusCircle := false; listPage := 0;
  searchMode := AllMode; isLoadingMore := false; loadMoreObserver := Some true;
  mapBounds := fun _ => true;
  fuelMogas := Some true; fuel100ll := Some false; fuelJet := Some false;
  showCircle := Some false; listEl := Some []; countEl := Some [];
  loadMoreBtn := Some false;
|}.

End UISamples.

(** * Facts about the fetch pipeline *)

Module FetchFacts.
Import Fetch.

(** [sub] occurs in [x]: [x] is some prefix, then [sub], then some suffix. *)
Definition occursIn (sub x : string) : Prop :=
  exists pre post : string, x = pre +:+ sub +:+ post.

(** A row that has every column the parser looks up. *)
Definition hasColumns (c : Columns) (row : list string) : Prop :=
  Forall (fun i => is_Some (index row i))
         [iLat c; iLon c; iID c; iName c; iCity c; iState c; iFuel c].

(** The URL of the computed next cycle, and of the cycle 28 days before it. *)
Definition nextURL (w : World) : string :=
  formatZipURL (computeNextCycle (time_Now w)).

Definition fallbackURL (w : World) : string :=
  formatZipURL (computeNextCycle (time_Now w) - 28 * (24 * Hour)).

(** The column names [parseAirports] looks up. *)
Definition columnNames : list string :=
  ["ARPT_ID"; "LAT_DECIMAL"; "LONG_DECIMAL"; "ARPT_NAME"; "CITY"; "STATE_CODE";
   "FUEL_TYPES"].

(** The body the server sends for [url], empty when the request fails. *)
Definition bodyOf (w : World) (url : string) : string :=
  match http_Get w url with
  | Reply _ body _ => body
  | GetFails _ => ""
  end.

(** [s] with [url] requested and, when [saved] is a body, that body saved at
    [path]. *)
Definition afterDownload (url path : string) (saved : option string) (s : Sys) : Sys :=
  {| fs := match saved with Some body => <[path := body]> (fs s) | None => fs s end;
     requests := requests s ++ [url] |}.

(** [s] holds ASCII bytes only. *)
Definition isASCII (s : string) : bool := allBytes (fun c => byte c <? RuneSelf) s.

(** [s] begins with a byte of ASCII white space. *)
Definition startsWithSpace (s : string) : bool :=
  match s with
  | EmptyString => false
  | String c _ => asciiSpace c
  end.

(** [sub] occurs in [s] up to the case of ASCII letters. *)
Definition occursUpToCase (sub s : string) : Prop :=
  exists pre mid post,
    s = pre +:+ mid +:+ post /\ mapBytes upperByte mid = mapBytes upperByte sub.

(** The Gregorian calendar. *)
Definition isLeap (y : Z) : bool :=
  (y mod 4 =? 0) && (negb (y mod 100 =? 0) || (y mod 400 =? 0)).

Definition daysIn (y m : Z) : Z :=
  if m =? 2 then (if isLeap y then 29 else 28)
  else if (m =? 4) || (m =? 6) || (m =? 9) || (m =? 11) then 30
  else 31.

(** [d] is a day of month [m] of year [y]. *)
Definition validDate (y m d : Z) : bool :=
  (1 <=? m) && (m <=? 12) && (1 <=? d) && (d <=? daysIn y m).

(** The directory of the NASR subscription files. *)
Definition urlBase : string := "https://nfdc.faa.gov/webContent/28DaySub/extra/".

(** A decimal digit. *)
Definition digit (n : Z) : ascii := pretty_N_char (Z.to_N n).

(** The twelve values of [t.Format("Jan")]. *)
Definition monthNames : list string :=
  ["Jan"; "Feb"; "Mar"; "Apr"; "May"; "Jun"; "Jul"; "Aug"; "Sep"; "Oct"; "Nov"; "Dec"].

(** [p] holds of [z], [z + 1], ..., [z + n - 1]. *)
Fixpoint allFrom (p : Z -> bool) (z : Z) (n : nat) : bool :=
  match n with
  | O => true
  | S k => p z && allFrom p (z + 1) k
  end.

(** At midnight UTC [d] days after the anchor date, [computeNextCycle]
    returns the first boundary later than now; on the days before the anchor
    date, the boundary after the anchor date. *)
Definition rightAtMidnight (d : Z) : bool :=
  let now := Time_Add anchorDate (d * (24 * Hour)) in
  computeNextCycle now =?
    (if d <? 0 then Time_Add anchorDate cycleLength else nextBoundary now).

Section WithLib.
Context `{GoLib}.

(** The requests of one run of [main]. *)
Definition attempts (w : World) (s : Sys) : list string :=
  drop (length (requests s)) (requests (main w s).2).

(** [download(url, "cycle.zip")] returns an error. *)
Definition downloadFails (w : World) (url : string) (s : Sys) : Prop :=
  exists e, (download w url "cycle.zip" s).1 = Returned (Some e).

(** After [download(url, "cycle.zip")], [isZipValid("cycle.zip")] is false. *)
Definition notValidZip (w : World) (url : string) (s : Sys) : Prop :=
  (isZipValid "cycle.zip" (download w url "cycle.zip" s).2).1 = Returned false.

(** The state in which the fallback download starts: after the first
    download and [os.Remove("cycle.zip")]. *)
Definition beforeFallback (w : World) (s : Sys) : Sys :=
  (os_Remove "cycle.zip" (download w (nextURL w) "cycle.zip" s).2).2.

(** The server answers [url] with status 200, the body is saved to
    [cycle.zip] without error, and the saved bytes are a ZIP archive. *)
Definition delivers (w : World) (url : string) : bool :=
  match http_Get w url with
  | Reply status body None =>
      bool_decide (status = 200) &&
      bool_decide (create_err w "cycle.zip" = None) &&
      match zip_Read body with Ok _ => true | Err _ => false end
  | _ => false
  end.

(** One attempt: the download and, when it reported no error, the validity
    check, against what the server delivers. *)
Inductive attempt_result (w : World) (url : string) (s : Sys) : Prop :=
| attempt_ok (files : gmap string string) :
    delivers w url = true ->
    download w url "cycle.zip" s =
      (Returned None, {| fs := files; requests := requests s ++ [url] |}) ->
    isZipValid "cycle.zip" {| fs := files; requests := requests s ++ [url] |} =
      (Returned true, {| fs := files; requests := requests s ++ [url] |}) ->
    attempt_result w url s
| attempt_error (files : gmap string string) (e : string) :
    delivers w url = false ->
    download w url "cycle.zip" s =
      (Returned (Some e), {| fs := files; requests := requests s ++ [url] |}) ->
    attempt_result w url s
| attempt_invalid (files : gmap string string) :
    delivers w url = false ->
    download w url "cycle.zip" s =
      (Returned None, {| fs := files; requests := requests s ++ [url] |}) ->
    isZipValid "cycle.zip" {| fs := files; requests := requests s ++ [url] |} =
      (Returned false, {| fs := files; requests := requests s ++ [url] |}) ->
    attempt_result w url s.

Ltac io_unfold :=
  unfold mbind, mret, IO_bind, IO_ret, panic, defer, readFile, writeFile,
    os_Remove, request in *; simpl in *.

Lemma HasPrefix_spec (p s : string) :
  HasPrefix s p = true <-> exists post, s = p +:+ post.
Proof.
  revert s. induction p as [|a p IH]; intros s; simpl.
  - split; [intros _; by exists s | done].
  - destruct s as [|b s]; simpl.
    + split; [done | intros [post Hp]; discriminate].
    + rewrite andb_true_iff, bool_decide_eq_true, IH. split.
      * intros [-> [post ->]]. by exists post.
      * intros [post Hp]. injection Hp as -> ->. eauto.
Qed.

Lemma Contains_spec (s sub : string) :
  Contains s sub = true <-> occursIn sub s.
Proof.
  unfold occursIn. induction s as [|c s IH].
  - cbn [Contains]. rewrite orb_false_r, HasPrefix_spec. split.
    + intros [post Hp]. by exists EmptyString, post.
    + intros (pre & post & Hp). destruct pre; [by exists post | discriminate].
  - cbn [Contains]. rewrite orb_true_iff, HasPrefix_spec, IH. split.
    + intros [[post Hp] | (pre & post & Hp)].
      * by exists EmptyString, post.
      * exists (String c pre), post. by rewrite Hp.
    + intros (pre & post & Hp). destruct pre as [|c' pre]; simpl in Hp.
      * left. by exists post.
      * right. injection Hp as -> Hp. by exists pre, post.
Qed.

Lemma parseFuel_lookups (s : string) :
  parseFuel s !! "mogas" = Some (Contains (ToUpper s) "MOGAS") /\
  parseFuel s !! "100ll" = Some (Contains (ToUpper s) "100") /\
  parseFuel s !! "jet_a" = Some (Contains (ToUpper s) "JET").
Proof.
  unfold parseFuel. by simplify_map_eq.
Qed.

(** C5.  The map [parseFuel] returns has exactly the keys mogas, 100ll and
    jet_a, and each is true exactly when the upper-cased input contains
    MOGAS, 100 and JET respectively. *)
Theorem parseFuel_substring_match (s : string) :
  dom (parseFuel s) = ({[ "mogas"; "100ll"; "jet_a" ]} : gset string) /\
  (parseFuel s !! "mogas" = Some true <-> occursIn "MOGAS" (ToUpper s)) /\
  (parseFuel s !! "100ll" = Some true <-> occursIn "100" (ToUpper s)) /\
  (parseFuel s !! "jet_a" = Some true <-> occursIn "JET" (ToUpper s)).
Proof.
  destruct (parseFuel_lookups s) as (Hm & Hl & Hj).
  split.
  - unfold parseFuel. rewrite !dom_insert_L, dom_singleton_L. set_solver.
  - rewrite Hm, Hl, Hj, <- !Contains_spec.
    repeat split; congruence.
Qed.

(** *** The parser emits one record per data row *)

Lemma parseDataRows_rows (c : Columns) (rows : list (list string)) (out : list Airport) :
  parseDataRows c rows = Returned out ->
  Forall2 (fun row a => airportOfRow c row = Some a) rows out.
Proof.
  revert out. induction rows as [|row rows IH]; intros out Hp; simpl in Hp.
  - injection Hp as <-. constructor.
  - destruct (airportOfRow c row) as [a|] eqn:Ha; [|discriminate].
    destruct (parseDataRows c rows) as [out'|msg]; [|discriminate].
    injection Hp as <-. constructor; auto.
Qed.

Lemma parseRows_rows (rows : list (list string)) (out : list Airport) :
  parseRows rows = Returned out ->
  exists header data,
    rows = header :: data /\
    Forall2 (fun row a => airportOfRow (columnsOf header) row = Some a) data out.
Proof.
  destruct rows as [|header data]; [discriminate|]. simpl. intros Hp.
  exists header, data. split; [done|]. by apply parseDataRows_rows.
Qed.

Lemma airportOfRow_fields (c : Columns) (row : list string) (a : Airport) :
  airportOfRow c row = Some a ->
  exists id, index row (iID c) = Some id /\
             ArptID a = TrimSpace id /\ ICAO a = "K" +:+ TrimSpace id.
Proof.
  unfold airportOfRow. intros Ha.
  destruct (index row (iID c)) as [id|] eqn:Hid; simplify_option_eq; eauto.
Qed.

Lemma airportOfRow_is_Some (c : Columns) (row : list string) :
  hasColumns c row -> is_Some (airportOfRow c row).
Proof.
  unfold hasColumns, airportOfRow. rewrite !Forall_cons.
  intros ([? ->] & [? ->] & [? ->] & [? ->] & [? ->] & [? ->] & [? ->] & _).
  simpl. eauto.
Qed.

(** [parseRows] returns (no index panic) on a table whose data rows all
    have the looked-up columns. *)
Lemma parseRows_returns (header : list string) (data : list (list string)) :
  Forall (hasColumns (columnsOf header)) data ->
  exists out, parseRows (header :: data) = Returned out.
Proof.
  simpl. induction 1 as [|row data Hrow _ [out IH]]; simpl; [eauto|].
  destruct (airportOfRow_is_Some _ _ Hrow) as [a ->]. rewrite IH. eauto.
Qed.

(** C9.  Every record [parseAirports] builds from a data row has
    ICAO = "K" followed by the trimmed ARPT_ID cell of that row, whatever the
    cell holds. *)
Theorem icao_is_K_then_trimmed_id (rows : list (list string)) (out : list Airport) :
  parseRows rows = Returned out ->
  exists header data,
    rows = header :: data /\
    Forall2 (fun row a =>
               exists id, index row (col header "ARPT_ID") = Some id /\
                          ICAO a = "K" +:+ TrimSpace id)
            data out.
Proof.
  intros (header & data & -> & Hrows)%parseRows_rows.
  exists header, data. split; [done|].
  eapply Forall2_impl; [exact Hrows|].
  intros row a (id & Hid & _ & Hicao)%airportOfRow_fields. eauto.
Qed.

Lemma parseRows_length (rows : list (list string)) (out : list Airport) :
  parseRows rows = Returned out -> length out = length (tail rows).
Proof.
  intros (header & data & -> & Hrows)%parseRows_rows.
  simpl. symmetry. by eapply Forall2_length.
Qed.

(** *** The pipeline writes what the parser returns *)

(** C1, as amended.  When [runPipeline] completes, [public/airports.json]
    holds the JSON rendering of a list with exactly one record for every
    data row of the extracted [APT_BASE.csv], in row order: no row is left
    out. *)
Theorem pipeline_emits_every_row (w : World) (zipPath : string) (s s' : Sys) :
  runPipeline w zipPath s = (Returned (), s') ->
  exists (bytes : string) (files : list ZipFile) (f : ZipFile)
         (header : list string) (data : list (list string))
         (out : list Airport) (b : string),
    fs s !! zipPath = Some bytes /\
    zip_Read bytes = Ok files /\
    List.find (fun f => EqualFold (zName f) "APT_BASE.csv") files = Some f /\
    csv_ReadAll (zData f) = Ok (header :: data) /\
    Forall2 (fun row a => airportOfRow (columnsOf header) row = Some a) data out /\
    length out = length data /\
    json_MarshalIndent out = Ok b /\
    fs s' !! "public/airports.json" = Some b.
Proof.
  unfold runPipeline, extractCSV, zip_OpenReader, parseAirports, writeJSON.
  io_unfold. intros Hrun.
  destruct (fs s !! zipPath) as [bytes|] eqn:Hzip; simpl in Hrun; [|discriminate].
  destruct (zip_Read bytes) as [files|e] eqn:Hread; simpl in Hrun; [|discriminate].
  destruct (List.find _ files) as [f|] eqn:Hfind; simpl in Hrun; [|discriminate].
  destruct (zOpenErr f); simpl in Hrun; [discriminate|].
  destruct (create_err w "APT_BASE.csv"); simpl in Hrun; [discriminate|].
  destruct (zCopyErr f); simpl in Hrun; [discriminate|].
  rewrite lookup_insert_eq in Hrun. simpl in Hrun.
  destruct (csv_ReadAll (zData f)) as [rows|e] eqn:Hcsv; simpl in Hrun; [|discriminate].
  destruct (parseRows rows) as [out|msg] eqn:Hparse; simpl in Hrun; [|discriminate].
  destruct (json_MarshalIndent out) as [b|e] eqn:Hjson; simpl in Hrun; [|discriminate].
  destruct (create_err w "public/airports.json"); simpl in Hrun; [discriminate|].
  injection Hrun as <-. simpl.
  destruct (parseRows_rows _ _ Hparse) as (header & data & -> & Hrows).
  exists bytes, files, f, header, data, out, b.
  repeat split; try done.
  - symmetry. by eapply Forall2_length.
  - rewrite lookup_delete_ne by done. by rewrite lookup_insert_eq.
Qed.

(** *** The download attempts of [main] *)

Lemma runPipeline_requests (w : World) (zipPath : string) (s : Sys) :
  requests (runPipeline w zipPath s).2 = requests s.
Proof.
  unfold runPipeline, extractCSV, zip_OpenReader, parseAirports, writeJSON.
  io_unfold.
  repeat (case_match; simplify_eq; simpl in * ); try done.
Qed.

Lemma fallback_duration : (- cycleLengthDays * 24 * Hour)%Z = (- (28 * (24 * Hour)))%Z.
Proof. reflexivity. Qed.

Lemma attempt_cases (w : World) (url : string) (s : Sys) : attempt_result w url s.
Proof.
  destruct (http_Get w url) as [e|status body copyErr] eqn:Hget.
  { eapply attempt_error; [unfold delivers; by rewrite Hget|].
    unfold download. io_unfold. by rewrite Hget. }
  destruct (decide (status = 200)) as [->|Hst].
  2:{ eapply attempt_error.
      - unfold delivers. rewrite Hget. destruct copyErr; [done|].
        by rewrite bool_decide_eq_false_2.
      - unfold download. io_unfold. rewrite Hget. by rewrite bool_decide_eq_true_2. }
  destruct (create_err w "cycle.zip") as [e|] eqn:Hcr.
  { eapply attempt_error.
    - unfold delivers. rewrite Hget, Hcr. by destruct copyErr.
    - unfold download. io_unfold. by rewrite Hget, Hcr. }
  destruct copyErr as [e|].
  { eapply attempt_error; [unfold delivers; by rewrite Hget|].
    unfold download. io_unfold. by rewrite Hget, Hcr. }
  destruct (zip_Read body) as [files|e] eqn:Hzip.
  - eapply attempt_ok.
    + unfold delivers. by rewrite Hget, Hcr, Hzip.
    + unfold download. io_unfold. by rewrite Hget, Hcr.
    + unfold isZipValid, zip_OpenReader. io_unfold.
      by rewrite lookup_insert_eq, Hzip.
  - eapply attempt_invalid.
    + unfold delivers. by rewrite Hget, Hcr, Hzip.
    + unfold download. io_unfold. by rewrite Hget, Hcr.
    + unfold isZipValid, zip_OpenReader. io_unfold.
      by rewrite lookup_insert_eq, Hzip.
Qed.

Lemma main_run (w : World) (s : Sys) :
  requests (main w s).2 =
    requests s ++ (if delivers w (nextURL w) then [nextURL w]
                   else [nextURL w; fallbackURL w]) /\
  (delivers w (nextURL w) = false -> delivers w (fallbackURL w) = false ->
   exists msg, (main w s).1 = Panicked msg).
Proof.
  pose proof (runPipeline_requests w "cycle.zip") as Hrp.
  unfold main, nextURL, fallbackURL, Time_Add.
  rewrite fallback_duration, Z.add_opp_r.
  set (rp := runPipeline w "cycle.zip") in *. clearbody rp.
  set (u1 := formatZipURL (computeNextCycle (time_Now w))).
  set (u2 := formatZipURL _).
  clearbody u1 u2.
  unfold mbind, IO_bind.
  destruct (attempt_cases w u1 s) as [fs1 -> -> Hv|fs1 e -> ->|fs1 -> -> Hv].
  - unfold mret at 1, IO_ret at 1. rewrite Hv. simpl. rewrite Hrp. simpl. done.
  - unfold mret, IO_ret, os_Remove, panic. simpl.
    destruct (attempt_cases w u2 {| fs := delete "cycle.zip" fs1;
                                    requests := requests s ++ [u1] |})
      as [fs2 -> -> Hv2|fs2 e2 -> ->|fs2 -> -> Hv2]; simpl in *.
    + rewrite Hv2. simpl. rewrite Hrp. simpl. by rewrite <- app_assoc.
    + rewrite <- app_assoc. eauto.
    + rewrite Hv2. simpl. rewrite <- app_assoc. eauto.
  - unfold mret, IO_ret, os_Remove, panic. rewrite Hv. simpl.
    destruct (attempt_cases w u2 {| fs := delete "cycle.zip" fs1;
                                    requests := requests s ++ [u1] |})
      as [fs2 -> -> Hv2|fs2 e2 -> ->|fs2 -> -> Hv2]; simpl in *.
    + rewrite Hv2. simpl. rewrite Hrp. simpl. by rewrite <- app_assoc.
    + rewrite <- app_assoc. eauto.
    + rewrite Hv2. simpl. rewrite <- app_assoc. eauto.
Qed.

Lemma delivers_false_iff (w : World) (url : string) (s : Sys) :
  delivers w url = false <-> downloadFails w url s \/ notValidZip w url s.
Proof.
  unfold downloadFails, notValidZip.
  destruct (attempt_cases w url s) as [files Hd -> Hv|files e Hd ->|files Hd -> Hv];
    simpl; rewrite ?Hv, Hd; simpl.
  - split; [done|]. by intros [[e ?]|?].
  - split; [eauto|done].
  - split; [eauto|done].
Qed.

Lemma attempts_eq (w : World) (s : Sys) :
  attempts w s =
    if delivers w (nextURL w) then [nextURL w] else [nextURL w; fallbackURL w].
Proof.
  unfold attempts. rewrite (proj1 (main_run w s)). by rewrite drop_app_length.
Qed.

(** C2.  When the download of the next cycle fails, or the file it saved is
    not a valid ZIP, the run requests exactly two URLs: that of the next
    cycle, then that of the cycle 28 days before it. *)
Theorem fallback_is_the_cycle_28_days_earlier (w : World) (s : Sys) :
  downloadFails w (nextURL w) s \/ notValidZip w (nextURL w) s ->
  attempts w s =
    [formatZipURL (computeNextCycle (time_Now w));
     formatZipURL (computeNextCycle (time_Now w) - 28 * (24 * Hour))].
Proof.
  intros Hbad%delivers_false_iff. by rewrite attempts_eq, Hbad.
Qed.

(** C4.  A run makes at most two requests; when the fallback download fails
    too, or saves a file that is not a valid ZIP, [main] panics after
    exactly those two requests. *)
Theorem at_most_two_attempts_then_panic (w : World) (s : Sys) :
  (length (attempts w s) <= 2)%nat /\
  (downloadFails w (nextURL w) s \/ notValidZip w (nextURL w) s ->
   downloadFails w (fallbackURL w) (beforeFallback w s) \/
     notValidZip w (fallbackURL w) (beforeFallback w s) ->
   (exists msg, (main w s).1 = Panicked msg) /\
   attempts w s = [nextURL w; fallbackURL w]).
Proof.
  split.
  - rewrite attempts_eq. destruct (delivers w (nextURL w)); simpl; lia.
  - intros Hbad1%delivers_false_iff Hbad2%delivers_false_iff. split.
    + by apply main_run.
    + by rewrite attempts_eq, Hbad1.
Qed.

(** When the next cycle is delivered, it is the only request. *)
Lemma no_fallback_when_delivered (w : World) (s : Sys) :
  delivers w (nextURL w) = true -> attempts w s = [nextURL w].
Proof.
  intros Hok. by rewrite attempts_eq, Hok.
Qed.

End WithLib.

(** ** More of the pipeline: edge cases, files, strings *)

Section Pipeline.
Context `{GoLib}.

(** One download attempt and the validity check after it, with the disk
    each leaves. *)
Inductive attempt (w : World) (url : string) (s : Sys) : Prop :=
| attempt_delivered :
    delivers w url = true ->
    download w url "cycle.zip" s =
      (Returned None, afterDownload url "cycle.zip" (Some (bodyOf w url)) s) ->
    isZipValid "cycle.zip" (afterDownload url "cycle.zip" (Some (bodyOf w url)) s) =
      (Returned true, afterDownload url "cycle.zip" (Some (bodyOf w url)) s) ->
    attempt w url s
| attempt_failed (saved : option string) (e : string) :
    delivers w url = false ->
    download w url "cycle.zip" s = (Returned (Some e), afterDownload url "cycle.zip" saved s) ->
    attempt w url s
| attempt_not_zip (body : string) :
    delivers w url = false ->
    download w url "cycle.zip" s =
      (Returned None, afterDownload url "cycle.zip" (Some body) s) ->
    isZipValid "cycle.zip" (afterDownload url "cycle.zip" (Some body) s) =
      (Returned false, afterDownload url "cycle.zip" (Some body) s) ->
    attempt w url s.

Ltac io_steps :=
  unfold mbind, mret, IO_bind, IO_ret, panic, defer, readFile, writeFile,
    os_Remove, request in *; simpl in *.

(** *** The header lookup *)

Lemma colFrom_spec (header : list string) (name : string) (i : Z) :
  ((name ∉ header) /\ colFrom i header name = -1) \/
  (exists k : nat,
     colFrom i header name = i + Z.of_nat k /\
     header !! k = Some name /\
     forall j : nat, (j < k)%nat -> header !! j ≠ Some name).
Proof.
  revert i. induction header as [|h rest IH]; intros i; simpl.
  - left. split; [apply not_elem_of_nil|done].
  - case_bool_decide as Hh.
    + right. exists 0%nat. split; [lia|]. split; [by rewrite Hh|]. lia.
    + destruct (IH (i + 1)) as [[Hnot ->]|(k & -> & Hk & Hfirst)].
      * left. split; [|done]. rewrite not_elem_of_cons. split; congruence.
      * right. exists (S k). split; [lia|]. split; [done|].
        intros [|j] Hj; simpl; [congruence|]. apply Hfirst. lia.
Qed.

Lemma col_absent (header : list string) (name : string) :
  col header name = -1 <-> name ∉ header.
Proof.
  unfold col.
  destruct (colFrom_spec header name 0) as [[Hnot ->]|(k & -> & Hk & _)]; [done|].
  split; [lia|]. intros Hnot. destruct Hnot. by eapply list_elem_of_lookup_2.
Qed.

(** X1.  [col] returns the position of the first header cell equal to the
    name, and -1 exactly when no cell is. *)
Theorem col_is_first_match (header : list string) (name : string) :
  (col header name = -1 <-> name ∉ header) /\
  (forall k : nat,
     col header name = Z.of_nat k <->
     header !! k = Some name /\ forall j : nat, (j < k)%nat -> header !! j ≠ Some name).
Proof.
  split; [apply col_absent|]. unfold col.
  destruct (colFrom_spec header name 0) as [[Hnot Hc]|(k & Hc & Hk & Hfirst)].
  - intros k. rewrite Hc. split; [lia|].
    intros [Hk _]. destruct Hnot. by eapply list_elem_of_lookup_2.
  - intros k'. rewrite Hc. split.
    + intros Heq. assert (k' = k) as -> by lia. done.
    + intros [Hk' Hfirst'].
      destruct (Nat.lt_trichotomy k k') as [Hlt|[->|Hlt]]; [|done|].
      * by destruct (Hfirst' k Hlt).
      * by destruct (Hfirst k' Hlt).
Qed.

(** *** Rows that make the parser panic *)

Lemma airportOfRow_Some_iff (c : Columns) (row : list string) :
  is_Some (airportOfRow c row) <-> hasColumns c row.
Proof.
  split; [|apply airportOfRow_is_Some].
  unfold hasColumns, airportOfRow. intros [a Ha].
  rewrite !Forall_cons.
  destruct (index row (iLat c)); [|done].
  destruct (index row (iLon c)); [|done].
  destruct (index row (iID c)); [|done].
  destruct (index row (iName c)); [|done].
  destruct (index row (iCity c)); [|done].
  destruct (index row (iState c)); [|done].
  destruct (index row (iFuel c)); [|done].
  repeat split; eauto.
Qed.

Lemma parseDataRows_returns_iff (c : Columns) (data : list (list string)) :
  (exists out, parseDataRows c data = Returned out) <-> Forall (hasColumns c) data.
Proof.
  induction data as [|row data IH]; simpl.
  - split; [constructor|eauto].
  - rewrite Forall_cons, <- IH, <- airportOfRow_Some_iff. split.
    + intros [out Hout]. destruct (airportOfRow c row) as [a|]; [|done].
      destruct (parseDataRows c data) as [out'|]; [|done]. split; eauto.
    + intros [[a ->] [out ->]]. eauto.
Qed.

Lemma parseDataRows_panic (c : Columns) (data : list (list string)) (msg : string) :
  parseDataRows c data = Panicked msg -> msg = indexPanic.
Proof.
  induction data as [|row data IH]; simpl; [done|].
  destruct (airportOfRow c row); [|congruence].
  destruct (parseDataRows c data); [done|]. intros [= <-]. by apply IH.
Qed.

(** X2.  [parseAirports] gets through a table without a panic exactly when
    the table has a header row and every data row has a cell at each of the
    seven positions looked up in the header; every panic is an index out of
    range. *)
Theorem parseRows_returns_iff (rows : list (list string)) :
  ((exists out, parseRows rows = Returned out) <->
   exists header data,
     rows = header :: data /\ Forall (hasColumns (columnsOf header)) data) /\
  (forall msg, parseRows rows = Panicked msg -> msg = indexPanic).
Proof.
  split.
  - destruct rows as [|header data]; simpl.
    + split; [by intros [? ?]|by intros (? & ? & ? & _)].
    + rewrite parseDataRows_returns_iff. split; [eauto|].
      by intros (? & ? & [= <- <-] & ?).
  - destruct rows as [|header data]; simpl; [congruence|].
    apply parseDataRows_panic.
Qed.

Lemma columnsOf_missing (header : list string) (name : string) :
  name ∈ columnNames -> name ∉ header ->
  forall row, ~ hasColumns (columnsOf header) row.
Proof.
  intros Hname Hnot row Hrow.
  assert (Hc : col header name = -1) by by apply col_absent.
  unfold hasColumns, columnsOf in Hrow. simpl in Hrow.
  rewrite !Forall_cons in Hrow.
  unfold columnNames in Hname. rewrite !elem_of_cons in Hname.
  destruct Hrow as (H1 & H2 & H3 & H4 & H5 & H6 & H7 & _).
  destruct Hname as [->|[->|[->|[->|[->|[->|[->|Hn]]]]]]];
    [..|by apply elem_of_nil in Hn];
    rewrite Hc in *; by match goal with Hx : is_Some (index row (-1)) |- _ => destruct Hx end.
Qed.

(** X3.  A header that lacks one of the seven column names is not reported
    as an error: with no data row the parser returns an empty list, with at
    least one it panics on the first data row with an index out of range. *)
Theorem missing_column_panics (header : list string) (data : list (list string))
    (name : string) :
  name ∈ columnNames -> name ∉ header ->
  parseRows (header :: data) =
    match data with [] => Returned [] | _ :: _ => Panicked indexPanic end.
Proof.
  intros Hname Hnot. destruct data as [|row data]; [done|]. simpl.
  destruct (airportOfRow (columnsOf header) row) as [a|] eqn:Ha; [|done].
  destruct (columnsOf_missing header name Hname Hnot row).
  apply airportOfRow_Some_iff. eauto.
Qed.

(** *** Downloads *)

Lemma download_cases (w : World) (url path : string) (s : Sys) :
  match http_Get w url with
  | GetFails e =>
      download w url path s = (Returned (Some e), afterDownload url path None s)
  | Reply status body copyErr =>
      if bool_decide (status = 200) then
        match create_err w path with
        | Some e => download w url path s = (Returned (Some e), afterDownload url path None s)
        | None => download w url path s = (Returned copyErr, afterDownload url path (Some body) s)
        end
      else
        download w url path s =
          (Returned (Some ("HTTP " +:+ pretty status +:+ ": " +:+ url)),
           afterDownload url path None s)
  end.
Proof.
  unfold download, afterDownload. io_steps.
  destruct (http_Get w url) as [e|status body copyErr]; [done|].
  destruct (decide (status = 200)) as [->|Hne].
  - simpl. by destruct (create_err w path).
  - rewrite (bool_decide_eq_false_2 _ Hne), (bool_decide_eq_true_2 _ Hne). done.
Qed.

(** X4.  [download] always makes the request and never panics.  It writes
    nothing unless the server answered 200 and the file could be created,
    and then [path] holds the body; when it returns nil the copy ended
    without error, so [path] holds the complete body. *)
Theorem download_saves_only_after_200 (w : World) (url path : string) (s : Sys) :
  exists err s',
    download w url path s = (Returned err, s') /\
    requests s' = requests s ++ [url] /\
    (fs s' = fs s \/
     exists body copyErr,
       http_Get w url = Reply 200 body copyErr /\ create_err w path = None /\
       fs s' = <[path := body]> (fs s)) /\
    (err = None ->
     exists body, http_Get w url = Reply 200 body None /\ fs s' !! path = Some body).
Proof.
  pose proof (download_cases w url path s) as Hd.
  destruct (http_Get w url) as [e|status body copyErr].
  { eexists _, _. split; [exact Hd|]. split; [done|]. split; [by left|done]. }
  case_bool_decide as Hst.
  2:{ eexists _, _. split; [exact Hd|]. split; [done|]. split; [by left|done]. }
  subst status. destruct (create_err w path) as [e|] eqn:Hcr.
  { eexists _, _. split; [exact Hd|]. split; [done|]. split; [by left|done]. }
  eexists _, _. split; [exact Hd|]. split; [done|]. split.
  - right. by exists body, copyErr.
  - intros ->. exists body. split; [done|]. simpl. apply lookup_insert_eq.
Qed.

Lemma attempt_outcome (w : World) (url : string) (s : Sys) : attempt w url s.
Proof.
  pose proof (download_cases w url "cycle.zip" s) as Hd.
  unfold delivers, bodyOf in *.
  destruct (http_Get w url) as [e|status body copyErr] eqn:Hget.
  { eapply attempt_failed; [unfold delivers; by rewrite Hget|exact Hd]. }
  case_bool_decide as Hst.
  2:{ eapply attempt_failed; [|exact Hd].
      unfold delivers. rewrite Hget. destruct copyErr; [done|].
      by rewrite (bool_decide_eq_false_2 _ Hst). }
  subst status.
  destruct (create_err w "cycle.zip") as [e|] eqn:Hcr.
  { eapply attempt_failed; [|exact Hd].
    unfold delivers. rewrite Hget, Hcr. by destruct copyErr. }
  destruct copyErr as [e|].
  { eapply attempt_failed; [|exact Hd]. unfold delivers. by rewrite Hget. }
  destruct (zip_Read body) as [files|e] eqn:Hzip.
  - eapply attempt_delivered.
    + unfold delivers. by rewrite Hget, Hcr, Hzip.
    + unfold bodyOf. by rewrite Hget.
    + unfold bodyOf. rewrite Hget. unfold isZipValid, zip_OpenReader, afterDownload.
      io_steps. by rewrite lookup_insert_eq, Hzip.
  - eapply attempt_not_zip.
    + unfold delivers. by rewrite Hget, Hcr, Hzip.
    + exact Hd.
    + unfold isZipValid, zip_OpenReader, afterDownload.
      io_steps. by rewrite lookup_insert_eq, Hzip.
Qed.

Lemma afterDownload_other (url path : string) (saved : option string) (s : Sys) (p : string) :
  p ≠ path -> fs (afterDownload url path saved s) !! p = fs s !! p.
Proof.
  intros Hp. unfold afterDownload. simpl. destruct saved; [|done].
  by rewrite lookup_insert_ne.
Qed.

Ltac other_files :=
  cbn [fst snd]; rewrite afterDownload_other by done;
  match goal with s1 := _ |- _ => subst s1 end;
  cbn [fs]; rewrite lookup_delete_ne by done;
  rewrite afterDownload_other by done.

Lemma redownload (u1 u2 : string) (saved : option string) (body : string) (s : Sys) :
  afterDownload u2 "cycle.zip" (Some body)
    {| fs := delete "cycle.zip" (fs (afterDownload u1 "cycle.zip" saved s));
       requests := requests (afterDownload u1 "cycle.zip" saved s) |} =
  {| fs := <["cycle.zip" := body]> (fs s); requests := requests s ++ [u1; u2] |}.
Proof.
  unfold afterDownload. simpl. f_equal.
  - destruct saved; [|by rewrite insert_delete_eq].
    by rewrite insert_delete_eq, insert_insert_eq.
  - by rewrite <- app_assoc.
Qed.

(** The download phase of [main]. *)
Lemma main_download_phase (w : World) (s : Sys) :
  if delivers w (nextURL w) then
    main w s =
      runPipeline w "cycle.zip"
        {| fs := <["cycle.zip" := bodyOf w (nextURL w)]> (fs s);
           requests := requests s ++ [nextURL w] |}
  else if delivers w (fallbackURL w) then
    main w s =
      runPipeline w "cycle.zip"
        {| fs := <["cycle.zip" := bodyOf w (fallbackURL w)]> (fs s);
           requests := requests s ++ [nextURL w; fallbackURL w] |}
  else
    (exists msg, (main w s).1 = Panicked msg) /\
    (forall p, p ≠ "cycle.zip" -> fs (main w s).2 !! p = fs s !! p).
Proof.
  unfold main, nextURL, fallbackURL, Time_Add.
  rewrite fallback_duration, Z.add_opp_r.
  set (rp := runPipeline w "cycle.zip"). clearbody rp.
  set (u1 := formatZipURL (computeNextCycle (time_Now w))).
  set (u2 := formatZipURL _).
  clearbody u1 u2.
  unfold mbind, IO_bind.
  destruct (attempt_outcome w u1 s) as [-> -> Hv|saved e -> ->|body -> -> Hv].
  - unfold mret at 1, IO_ret at 1. rewrite Hv. done.
  - unfold mret, IO_ret, os_Remove, panic.
    cbn [fst snd negb].
    set (s1 := {| fs := delete "cycle.zip" _; requests := _ |}).
    destruct (attempt_outcome w u2 s1) as [-> -> Hv2|saved2 e2 -> ->|body2 -> -> Hv2].
    + rewrite Hv2. cbn. subst s1. by rewrite redownload.
    + split; [eauto|]. intros p Hp. by other_files.
    + rewrite Hv2. split; [eauto|]. intros p Hp. by other_files.
  - unfold mret, IO_ret, os_Remove, panic. rewrite Hv.
    cbn [fst snd negb].
    set (s1 := {| fs := delete "cycle.zip" _; requests := _ |}).
    destruct (attempt_outcome w u2 s1) as [-> -> Hv2|saved2 e2 -> ->|body2 -> -> Hv2].
    + rewrite Hv2. cbn. subst s1. by rewrite redownload.
    + split; [eauto|]. intros p Hp. by other_files.
    + rewrite Hv2. split; [eauto|]. intros p Hp. by other_files.
Qed.

(** X5.  What [main] hands to the pipeline is always an archive downloaded
    in this run, never a [cycle.zip] left on disk: when the next cycle is
    delivered, the pipeline runs on the disk as it was with [cycle.zip]
    replaced by that body; otherwise, when the cycle before it is delivered,
    with [cycle.zip] replaced by the body of that one; otherwise [main]
    panics, and no file other than [cycle.zip] has changed. *)
Theorem main_parses_what_it_downloaded (w : World) (s : Sys) :
  if delivers w (nextURL w) then
    main w s =
      runPipeline w "cycle.zip"
        {| fs := <["cycle.zip" := bodyOf w (nextURL w)]> (fs s);
           requests := requests s ++ [nextURL w] |}
  else if delivers w (fallbackURL w) then
    main w s =
      runPipeline w "cycle.zip"
        {| fs := <["cycle.zip" := bodyOf w (fallbackURL w)]> (fs s);
           requests := requests s ++ [nextURL w; fallbackURL w] |}
  else
    (exists msg, (main w s).1 = Panicked msg) /\
    (forall p, p ≠ "cycle.zip" -> fs (main w s).2 !! p = fs s !! p).
Proof. apply main_download_phase. Qed.

(** *** Extraction and clean-up *)

(** X6.  [extractCSV] returns without panicking and writes no file other
    than [APT_BASE.csv].  It succeeds only with the name [APT_BASE.csv], and
    then that file holds the data of the first entry of the archive whose
    name is [APT_BASE.csv] up to case.  When the copy of that entry ends
    with an error, the error is returned and what was copied stays on
    disk. *)
Theorem extractCSV_outcome (w : World) (zipPath : string) (s : Sys) :
  exists r s1,
    extractCSV w zipPath s = (Returned r, s1) /\
    requests s1 = requests s /\
    (forall p, p ≠ "APT_BASE.csv" -> fs s1 !! p = fs s !! p) /\
    (forall name, r = Ok name ->
       name = "APT_BASE.csv" /\
       exists bytes files f,
         fs s !! zipPath = Some bytes /\ zip_Read bytes = Ok files /\
         List.find (fun f => EqualFold (zName f) "APT_BASE.csv") files = Some f /\
         fs s1 !! "APT_BASE.csv" = Some (zData f)) /\
    (forall bytes files f e,
       fs s !! zipPath = Some bytes -> zip_Read bytes = Ok files ->
       List.find (fun f => EqualFold (zName f) "APT_BASE.csv") files = Some f ->
       zOpenErr f = None -> create_err w "APT_BASE.csv" = None ->
       zCopyErr f = Some e ->
       r = Err e /\ fs s1 !! "APT_BASE.csv" = Some (zData f)).
Proof.
  unfold extractCSV, zip_OpenReader. io_steps.
  destruct (fs s !! zipPath) as [bytes|] eqn:Hzip; simpl;
    [|eexists _, _; split; [done|]; repeat split; intros; congruence].
  destruct (zip_Read bytes) as [files|e] eqn:Hread; simpl;
    [|eexists _, _; split; [done|]; repeat split; intros; congruence].
  destruct (List.find _ files) as [f|] eqn:Hfind; simpl;
    [|eexists _, _; split; [done|]; repeat split; intros; congruence].
  destruct (zOpenErr f) as [e|] eqn:Hopen; simpl;
    [eexists _, _; split; [done|]; repeat split; intros; congruence|].
  destruct (create_err w "APT_BASE.csv") as [e|] eqn:Hcr; simpl;
    [eexists _, _; split; [done|]; repeat split; intros; congruence|].
  destruct (zCopyErr f) as [e|] eqn:Hcopy; simpl.
  - eexists _, _. split; [done|]. simpl.
    split; [done|]. split; [intros p Hp; by rewrite lookup_insert_ne|].
    split; [intros; congruence|].
    intros bytes' files' f' e' ? ? ? ? ? ?.
    assert (bytes' = bytes) as -> by congruence.
    assert (files' = files) as -> by congruence.
    assert (f' = f) as -> by congruence.
    split; [congruence|]. by rewrite lookup_insert_eq.
  - eexists _, _. split; [done|]. simpl.
    split; [done|]. split; [intros p Hp; by rewrite lookup_insert_ne|].
    split; [|intros; congruence].
    intros name [= <-]. split; [done|].
    exists bytes, files, f. by rewrite lookup_insert_eq.
Qed.

(** The extraction never panics, and succeeds only with [APT_BASE.csv]. *)
Lemma extractCSV_returns (w : World) (zipPath : string) (s : Sys) :
  exists r s1,
    extractCSV w zipPath s = (Returned r, s1) /\
    (forall p, p ≠ "APT_BASE.csv" -> fs s1 !! p = fs s !! p) /\
    (forall name, r = Ok name -> name = "APT_BASE.csv").
Proof.
  unfold extractCSV, zip_OpenReader. io_steps.
  destruct (fs s !! zipPath) as [bytes|]; simpl;
    [|eexists _, _; split; [done|]; split; intros; congruence].
  destruct (zip_Read bytes) as [files|e]; simpl;
    [|eexists _, _; split; [done|]; split; intros; congruence].
  destruct (List.find _ files) as [f|]; simpl;
    [|eexists _, _; split; [done|]; split; intros; congruence].
  destruct (zOpenErr f) as [e|]; simpl;
    [eexists _, _; split; [done|]; split; intros; congruence|].
  destruct (create_err w "APT_BASE.csv") as [e|]; simpl;
    [eexists _, _; split; [done|]; split; intros; congruence|].
  destruct (zCopyErr f) as [e|]; simpl;
    (eexists _, _; split; [done|]; simpl; split;
     [intros p Hp; by rewrite lookup_insert_ne|intros; congruence]).
Qed.

(** The steps of [runPipeline] after the extraction. *)
Lemma runPipeline_steps (w : World) (zipPath : string) (s : Sys) :
  exists r s1,
    extractCSV w zipPath s = (Returned r, s1) /\
    match r with
    | Err e => runPipeline w zipPath s = (Panicked e, s1)
    | Ok csvPath =>
        csvPath = "APT_BASE.csv" /\
        exists (o : outcome unit) (published : option string),
          runPipeline w zipPath s =
            (o, {| fs := delete csvPath
                           (match published with
                            | Some b => <["public/airports.json" := b]> (fs s1)
                            | None => fs s1
                            end);
                   requests := requests s1 |}) /\
          match published with
          | Some b =>
              o = Returned () /\
              exists out, (parseAirports csvPath s1).1 = Returned (Ok out) /\
                          json_MarshalIndent out = Ok b
          | None => exists msg, o = Panicked msg
          end
    end.
Proof.
  destruct (extractCSV_returns w zipPath s) as (r & s1 & Hex & _ & Hok).
  exists r, s1. split; [done|].
  destruct r as [csvPath|e];
    unfold runPipeline; unfold mbind at 1, IO_bind at 1; rewrite Hex; [|done].
  rewrite (Hok csvPath eq_refl). split; [done|].
  unfold defer, parseAirports, writeJSON. io_steps.
  destruct (fs s1 !! "APT_BASE.csv") as [bytes|]; simpl.
  2:{ exists (Panicked (noSuchFile "APT_BASE.csv")), None. eauto. }
  destruct (csv_ReadAll bytes) as [rows|e]; simpl.
  2:{ exists (Panicked e), None. eauto. }
  destruct (parseRows rows) as [out|msg]; simpl.
  2:{ exists (Panicked msg), None. eauto. }
  destruct (json_MarshalIndent out) as [b|e] eqn:Hjson; simpl.
  2:{ exists (Panicked e), None. eauto. }
  destruct (create_err w "public/airports.json") as [e|]; simpl.
  { exists (Panicked e), None. eauto. }
  exists (Returned ()), (Some b). eauto.
Qed.

(** X7.  Once the CSV is extracted, [runPipeline] ends with [APT_BASE.csv]
    removed from the disk, whether it returns or panics (the deferred
    [os.Remove]); when the extraction itself fails, [runPipeline] panics with
    that error and leaves the disk as the extraction left it. *)
Theorem runPipeline_removes_the_csv (w : World) (zipPath : string) (s : Sys) :
  match extractCSV w zipPath s with
  | (Returned (Ok csvPath), _) =>
      csvPath = "APT_BASE.csv" /\ fs (runPipeline w zipPath s).2 !! csvPath = None
  | (Returned (Err e), s1) => runPipeline w zipPath s = (Panicked e, s1)
  | (Panicked _, _) => False
  end.
Proof.
  destruct (runPipeline_steps w zipPath s) as (r & s1 & -> & Hr).
  destruct r as [csvPath|e]; [|done].
  destruct Hr as (-> & o & published & -> & _). split; [done|].
  simpl. apply lookup_delete_eq.
Qed.


(** *** From the download to the published file *)

Lemma delivers_true (w : World) (url : string) :
  delivers w url = true ->
  exists files,
    http_Get w url = Reply 200 (bodyOf w url) None /\ zip_Read (bodyOf w url) = Ok files.
Proof.
  unfold delivers, bodyOf.
  destruct (http_Get w url) as [e|status body [e|]]; try done.
  rewrite !andb_true_iff, !bool_decide_eq_true. intros [[-> _] Hzip].
  destruct (zip_Read body) as [files|]; [|done]. eauto.
Qed.

Lemma runPipeline_success (w : World) (zipPath : string) (s s' : Sys) :
  runPipeline w zipPath s = (Returned (), s') ->
  exists (bytes : string) (files : list ZipFile) (f : ZipFile)
         (header : list string) (data : list (list string))
         (out : list Airport) (b : string),
    fs s !! zipPath = Some bytes /\
    zip_Read bytes = Ok files /\
    List.find (fun f => EqualFold (zName f) "APT_BASE.csv") files = Some f /\
    csv_ReadAll (zData f) = Ok (header :: data) /\
    Forall2 (fun row a => airportOfRow (columnsOf header) row = Some a) data out /\
    json_MarshalIndent out = Ok b /\
    fs s' !! "public/airports.json" = Some b /\
    fs s' !! "APT_BASE.csv" = None /\
    requests s' = requests s.
Proof.
  unfold runPipeline, extractCSV, zip_OpenReader, parseAirports, writeJSON.
  io_steps. intros Hrun.
  destruct (fs s !! zipPath) as [bytes|] eqn:Hzip; simpl in Hrun; [|discriminate].
  destruct (zip_Read bytes) as [files|e] eqn:Hread; simpl in Hrun; [|discriminate].
  destruct (List.find _ files) as [f|] eqn:Hfind; simpl in Hrun; [|discriminate].
  destruct (zOpenErr f); simpl in Hrun; [discriminate|].
  destruct (create_err w "APT_BASE.csv"); simpl in Hrun; [discriminate|].
  destruct (zCopyErr f); simpl in Hrun; [discriminate|].
  rewrite lookup_insert_eq in Hrun. simpl in Hrun.
  destruct (csv_ReadAll (zData f)) as [rows|e] eqn:Hcsv; simpl in Hrun; [|discriminate].
  destruct (parseRows rows) as [out|msg] eqn:Hparse; simpl in Hrun; [|discriminate].
  destruct (json_MarshalIndent out) as [b|e] eqn:Hjson; simpl in Hrun; [|discriminate].
  destruct (create_err w "public/airports.json"); simpl in Hrun; [discriminate|].
  injection Hrun as <-. simpl.
  destruct (parseRows_rows _ _ Hparse) as (header & data & -> & Hrows).
  exists bytes, files, f, header, data, out, b.
  repeat split; try done.
  - rewrite lookup_delete_ne by done. by rewrite lookup_insert_eq.
  - apply lookup_delete_eq.
Qed.

(** X9.  When [main] returns, what it published is what it downloaded in
    this run: the last URL requested is that of the next cycle or of the
    cycle before it, the server answered it with status 200 and a ZIP
    archive, and [public/airports.json] holds the JSON of one record for
    every data row of the [APT_BASE.csv] of that archive; the extracted CSV
    is gone from the disk. *)
Theorem main_publishes_the_download (w : World) (s s' : Sys) :
  main w s = (Returned (), s') ->
  exists (url body : string) (files : list ZipFile) (f : ZipFile)
         (header : list string) (data : list (list string))
         (out : list Airport) (b : string),
    (url = nextURL w \/ url = fallbackURL w) /\
    last (requests s') = Some url /\
    http_Get w url = Reply 200 body None /\
    zip_Read body = Ok files /\
    List.find (fun f => EqualFold (zName f) "APT_BASE.csv") files = Some f /\
    csv_ReadAll (zData f) = Ok (header :: data) /\
    Forall2 (fun row a => airportOfRow (columnsOf header) row = Some a) data out /\
    json_MarshalIndent out = Ok b /\
    fs s' !! "public/airports.json" = Some b /\
    fs s' !! "APT_BASE.csv" = None.
Proof.
  intros Hmain. pose proof (main_download_phase w s) as Hphase.
  assert (Hrun : exists url l,
            delivers w url = true /\ (url = nextURL w \/ url = fallbackURL w) /\
            runPipeline w "cycle.zip"
              {| fs := <["cycle.zip" := bodyOf w url]> (fs s);
                 requests := l ++ [url] |} = (Returned (), s')).
  { destruct (delivers w (nextURL w)) eqn:H1.
    - exists (nextURL w), (requests s). rewrite <- Hphase. auto.
    - destruct (delivers w (fallbackURL w)) eqn:H2.
      + exists (fallbackURL w), (requests s ++ [nextURL w]).
        rewrite <- app_assoc. simpl. rewrite <- Hphase. auto.
      + destruct Hphase as [[msg Hmsg] _]. rewrite Hmain in Hmsg. discriminate. }
  destruct Hrun as (url & l & Hdel & Hurl & Hrun).
  destruct (delivers_true w url Hdel) as (files & Hget & Hzip).
  destruct (runPipeline_success _ _ _ _ Hrun)
    as (bytes & files' & f & header & data & out & b &
        Hbytes & Hread & Hfind & Hcsv & Hrows & Hjson & Hpub & Hgone & Hreq).
  simpl in Hbytes, Hreq. rewrite lookup_insert_eq in Hbytes. injection Hbytes as <-.
  exists url, (bodyOf w url), files', f, header, data, out, b.
  repeat split; try done. rewrite Hreq. apply last_snoc.
Qed.

(** *** Strings *)

Lemma app_String (c : ascii) (s t : string) : String c s +:+ t = String c (s +:+ t).
Proof. reflexivity. Qed.

Lemma app_empty_l (s : string) : "" +:+ s = s.
Proof. reflexivity. Qed.

Lemma app_empty_r (s : string) : s +:+ "" = s.
Proof. induction s as [|c s IH]; [done|]. by rewrite app_String, IH. Qed.

Lemma string_app_assoc (s t u : string) : (s +:+ t) +:+ u = s +:+ (t +:+ u).
Proof. induction s as [|c s IH]; [done|]. by rewrite !app_String, IH. Qed.

Lemma rev_app_spec (s t : string) : String.rev_app s t = String.rev s +:+ t.
Proof.
  unfold String.rev. revert t. induction s as [|c s IH]; intros t; [done|].
  cbn [String.rev_app]. rewrite (IH (String c t)), (IH (String c "")).
  by rewrite string_app_assoc.
Qed.

Lemma rev_String (c : ascii) (s : string) :
  String.rev (String c s) = String.rev s +:+ String c "".
Proof. unfold String.rev at 1. cbn [String.rev_app]. apply rev_app_spec. Qed.

Lemma rev_app_distr (s t : string) :
  String.rev (s +:+ t) = String.rev t +:+ String.rev s.
Proof.
  induction s as [|c s IH].
  - by rewrite app_empty_l, app_empty_r.
  - by rewrite app_String, !rev_String, IH, string_app_assoc.
Qed.

Lemma rev_involutive (s : string) : String.rev (String.rev s) = s.
Proof.
  induction s as [|c s IH]; [done|].
  by rewrite rev_String, rev_app_distr, IH.
Qed.

Lemma allBytes_app (p : ascii -> bool) (s t : string) :
  allBytes p (s +:+ t) = allBytes p s && allBytes p t.
Proof.
  induction s as [|c s IH]; [done|].
  rewrite app_String. cbn [allBytes]. by rewrite IH, andb_assoc.
Qed.

Lemma allBytes_rev (p : ascii -> bool) (s : string) :
  allBytes p (String.rev s) = allBytes p s.
Proof.
  induction s as [|c s IH]; [done|].
  rewrite rev_String, allBytes_app, IH. cbn [allBytes].
  by rewrite andb_true_r, andb_comm.
Qed.

(** *** [strings.TrimSpace] *)

Lemma trimRightRev_spec (r : string) :
  isASCII r = true ->
  exists sp t,
    r = sp +:+ t /\ allBytes asciiSpace sp = true /\
    startsWithSpace t = false /\ trimRightRev r = String.rev t.
Proof.
  unfold isASCII. induction r as [|c r IH]; cbn [allBytes trimRightRev].
  - intros _. by exists "", "".
  - rewrite andb_true_iff. intros [Hc Hr].
    apply Z.ltb_lt in Hc. rewrite (proj2 (Z.leb_gt _ _) Hc).
    destruct (asciiSpace c) eqn:Hsp.
    + destruct (IH Hr) as (sp & t & -> & Hall & Ht & Htrim).
      exists (String c sp), t. cbn [allBytes]. by rewrite Hsp, Hall.
    + exists "", (String c r). by cbn.
Qed.

(** X10.  On ASCII input [strings.TrimSpace] removes exactly the white
    space at both ends: the input is white space, then the result, then
    white space, and the result neither begins nor ends with white space.
    So the [arpt_id] of a record has no white space around it. *)
Theorem TrimSpace_ascii (s : string) :
  isASCII s = true ->
  exists pre post,
    s = pre +:+ TrimSpace s +:+ post /\
    allBytes asciiSpace pre = true /\ allBytes asciiSpace post = true /\
    startsWithSpace (TrimSpace s) = false /\
    startsWithSpace (String.rev (TrimSpace s)) = false.
Proof.
  unfold isASCII. induction s as [|c s IH].
  - intros _. by exists "", "".
  - intros Hs. pose proof Hs as Hcs. cbn [allBytes] in Hs.
    apply andb_true_iff in Hs as [Hc Hs].
    cbn [TrimSpace]. apply Z.ltb_lt in Hc. rewrite (proj2 (Z.leb_gt _ _) Hc).
    destruct (asciiSpace c) eqn:Hsp.
    + destruct (IH Hs) as (pre & post & Heq & Hpre & Hpost & Hstart & Hend).
      exists (String c pre), post. rewrite app_String, <- Heq.
      cbn [allBytes]. by rewrite Hsp, Hpre.
    + destruct (trimRightRev_spec (String.rev (String c s)))
        as (sp & t & Hr & Hsp' & Ht & ->).
      { unfold isASCII. by rewrite allBytes_rev. }
      apply (f_equal String.rev) in Hr.
      rewrite rev_involutive, rev_app_distr in Hr.
      exists "", (String.rev sp).
      rewrite app_empty_l, <- Hr, allBytes_rev, rev_involutive.
      repeat split; try done.
      destruct (String.rev t) as [|c' t'] eqn:Hrt; [done|].
      rewrite app_String in Hr. injection Hr as <- _. done.
Qed.

(** *** [strings.ToUpper] and [strings.Contains] *)

Lemma mapBytes_app (f : ascii -> ascii) (s t : string) :
  mapBytes f (s +:+ t) = mapBytes f s +:+ mapBytes f t.
Proof.
  induction s as [|c s IH]; [done|].
  rewrite app_String. cbn [mapBytes]. by rewrite IH.
Qed.

Lemma mapBytes_split (f : ascii -> ascii) (s a b : string) :
  mapBytes f s = a +:+ b ->
  exists s1 s2, s = s1 +:+ s2 /\ mapBytes f s1 = a /\ mapBytes f s2 = b.
Proof.
  revert s. induction a as [|c a IH]; intros s Hs.
  - by exists "", s.
  - destruct s as [|c' s]; [done|].
    rewrite app_String in Hs. cbn [mapBytes] in Hs. injection Hs as Hc Hs.
    destruct (IH s Hs) as (s1 & s2 & -> & <- & <-).
    exists (String c' s1), s2. cbn [mapBytes]. by rewrite <- Hc.
Qed.

Lemma occursIn_ToUpper (sub s : string) :
  isASCII s = true -> mapBytes upperByte sub = sub ->
  occursIn sub (ToUpper s) <-> occursUpToCase sub s.
Proof.
  intros Hs Hsub. unfold ToUpper, occursIn, occursUpToCase.
  unfold isASCII in Hs. rewrite Hs, Hsub. split.
  - intros (pre' & post' & Heq).
    destruct (mapBytes_split _ _ _ _ Heq) as (pre & rest & -> & _ & Hrest).
    destruct (mapBytes_split _ _ _ _ Hrest) as (mid & post & -> & Hmid & _).
    eauto.
  - intros (pre & mid & post & -> & Hmid).
    exists (mapBytes upperByte pre), (mapBytes upperByte post).
    by rewrite !mapBytes_app, Hmid.
Qed.

(** X11.  On ASCII input the fuel flags do not depend on case: [mogas] is
    set exactly when the input contains the letters of MOGAS in any mixture
    of upper and lower case, [100ll] when it contains 100, [jet_a] when it
    contains the letters of JET in any case. *)
Theorem parseFuel_ignores_case (s : string) :
  isASCII s = true ->
  (parseFuel s !! "mogas" = Some true <-> occursUpToCase "MOGAS" s) /\
  (parseFuel s !! "100ll" = Some true <-> occursUpToCase "100" s) /\
  (parseFuel s !! "jet_a" = Some true <-> occursUpToCase "JET" s).
Proof.
  intros Hs. destruct (parseFuel_lookups s) as (-> & -> & ->).
  rewrite <- !occursIn_ToUpper, <- !Contains_spec by done.
  repeat split; congruence.
Qed.

End Pipeline.

(** *** The calendar *)

(** The year of a 400-year era, from the day of the era. *)
Lemma year_of_era (yoe doy : Z) :
  0 <= yoe < 400 -> 0 <= doy <= 365 ->
  (doy = 365 -> yoe mod 4 = 3 /\ (yoe mod 100 <> 99 \/ yoe = 399)) ->
  let doe := yoe * 365 + yoe / 4 - yoe / 100 + doy in
  (doe - doe / 1460 + doe / 36524 - doe / 146096) / 365 = yoe /\ 0 <= doe < 146097.
Proof.
  intros Hy Hd Hleap doe. subst doe. Z.div_mod_to_equations. lia.
Qed.

(** The month and the day, from the day of a year that starts in March. *)
Lemma month_of_year (m d : Z) :
  1 <= m <= 12 -> 1 <= d <= daysIn 0 m ->
  let mp := if 2 <? m then m - 3 else m + 9 in
  let doy := (153 * mp + 2) / 5 + d - 1 in
  0 <= doy <= 365 /\ (doy = 365 -> m = 2 /\ d = 29) /\
  (5 * doy + 2) / 153 = mp /\ doy - (153 * mp + 2) / 5 + 1 = d /\
  (if mp <? 10 then mp + 3 else mp - 9) = m.
Proof.
  intros Hm Hd.
  assert (Hcases : m = 1 \/ m = 2 \/ m = 3 \/ m = 4 \/ m = 5 \/ m = 6 \/ m = 7 \/
                   m = 8 \/ m = 9 \/ m = 10 \/ m = 11 \/ m = 12) by lia.
  repeat (destruct Hcases as [->|Hcases]); try subst m;
    unfold daysIn in Hd; simpl in Hd; simpl;
    Z.div_mod_to_equations; lia.
Qed.

Lemma validDate_spec (y m d : Z) :
  validDate y m d = true ->
  1 <= m <= 12 /\ 1 <= d <= daysIn 0 m /\
  (m = 2 -> d = 29 -> y mod 4 = 0 /\ (y mod 100 <> 0 \/ y mod 400 = 0)).
Proof.
  unfold validDate, daysIn.
  rewrite !andb_true_iff, !Z.leb_le. intros [[[Hm1 Hm2] Hd1] Hd2].
  split; [lia|]. split.
  - split; [lia|]. change (isLeap 0) with true.
    destruct (m =? 2); [destruct (isLeap y); lia|done].
  - intros -> ->. change (2 =? 2) with true in Hd2. unfold isLeap in Hd2.
    destruct (Z.eqb_spec (y mod 4) 0) as [H4|H4]; [|simpl in Hd2; lia].
    destruct (Z.eqb_spec (y mod 100) 0) as [H100|H100]; [|lia].
    destruct (Z.eqb_spec (y mod 400) 0) as [H400|H400]; [lia|simpl in Hd2; lia].
Qed.

(** [civil] splits the day number of a date back into its fields. *)
Lemma civil_daysFromCivil (y m d : Z) :
  validDate y m d = true -> civil (daysFromCivil y m d) = (y, m, d).
Proof.
  intros (Hm & Hd & Hleap)%validDate_spec.
  destruct (month_of_year m d Hm Hd) as (Hdoy & H365 & Hmp & Hday & Hmonth).
  unfold daysFromCivil, civil. cbv zeta in *.
  set (y' := if m <=? 2 then y - 1 else y).
  set (mp := if 2 <? m then m - 3 else m + 9) in *.
  set (doy := (153 * mp + 2) / 5 + d - 1) in *.
  set (era := y' / 400). set (yoe := y' - era * 400).
  assert (Hyoe : 0 <= yoe < 400) by (subst yoe era; Z.div_mod_to_equations; lia).
  destruct (year_of_era yoe doy Hyoe Hdoy) as [Hyear Hdoe].
  { intros Heq. destruct (H365 Heq) as [-> ->].
    destruct (Hleap eq_refl eq_refl) as [H4 H100].
    subst yoe era y'. simpl. Z.div_mod_to_equations. lia. }
  cbv zeta in Hyear, Hdoe.
  set (doe := yoe * 365 + yoe / 4 - yoe / 100 + doy) in *.
  replace (era * 146097 + doe - 719468 + 719468) with (doe + era * 146097) by lia.
  rewrite Z.div_add, Z.mod_add by lia.
  rewrite (Z.div_small doe), (Z.mod_small doe) by lia.
  rewrite Hyear.
  replace (doe - (365 * yoe + yoe / 4 - yoe / 100)) with doy by (subst doe; lia).
  rewrite Hmp, Hday, Hmonth.
  f_equal; [f_equal|done..].
  subst yoe y'. destruct (Z.leb_spec m 2); lia.
Qed.

Lemma pretty_below_100 (n : N) :
  (0 < n < 100)%N ->
  pretty n =
    if (n <? 10)%N then String (pretty_N_char n) ""
    else String (pretty_N_char (n / 10)) (String (pretty_N_char (n mod 10)) "").
Proof.
  intros Hn. unfold pretty, pretty_N.
  rewrite decide_False by lia.
  rewrite pretty_N_go_step by lia.
  destruct (N.ltb_spec n 10) as [Hlt|Hge].
  - rewrite N.div_small, N.mod_small by done. by rewrite pretty_N_go_0.
  - rewrite pretty_N_go_step by (apply N.div_str_pos; lia).
    assert (Hq : (n / 10 < 10)%N) by (apply N.Div0.div_lt_upper_bound; lia).
    rewrite (N.div_small (n / 10)), (N.mod_small (n / 10)) by done.
    by rewrite pretty_N_go_0.
Qed.

(** [%02d] of a number below 100 is its two decimal digits. *)
Lemma sprintf_02d_digits (d : Z) :
  0 <= d < 100 -> sprintf_02d d = String (digit (d / 10)) (String (digit (d mod 10)) "").
Proof.
  intros Hd. unfold sprintf_02d, digit.
  destruct d as [|p|p]; [done| |lia].
  change (pretty (Z.pos p)) with (pretty (N.pos p)).
  rewrite pretty_below_100 by lia.
  rewrite (proj2 (Z.leb_le 0 (Z.pos p))) by lia. cbn [andb].
  rewrite Z2N.inj_div, Z2N.inj_mod by lia.
  change (Z.to_N (Z.pos p)) with (N.pos p). change (Z.to_N 10) with 10%N.
  destruct (Z.ltb_spec (Z.pos p) 10) as [Hlt|Hge].
  - rewrite (proj2 (N.ltb_lt (N.pos p) 10)) by lia.
    rewrite N.div_small, N.mod_small by lia. done.
  - by rewrite (proj2 (N.ltb_ge (N.pos p) 10)) by lia.
Qed.

Lemma validDate_bounds (y m d : Z) :
  validDate y m d = true -> 1 <= m <= 12 /\ 1 <= d <= 31.
Proof.
  unfold validDate. rewrite !andb_true_iff, !Z.leb_le.
  assert (daysIn y m <= 31) by (unfold daysIn; repeat case_match; lia). lia.
Qed.

(** The anchor date is the date the source gives for it. *)
Example anchorDate_is_the_date : anchorDate = Time_Date 2025 12 25.
Proof. vm_compute. reflexivity. Qed.

(** X12.  The URL names the calendar day: at any instant of the day [d] of
    month [m] of year [y], [formatZipURL] gives the NASR directory followed
    by the two decimal digits of the day, the English abbreviation of the
    month and the year, as [DD_Mon_YYYY_APT_CSV.zip]. *)
Theorem formatZipURL_of_date (y m d ns : Z) :
  validDate y m d = true -> 0 <= ns < 24 * Hour ->
  exists mon,
    monthNames !! Z.to_nat (m - 1) = Some mon /\
    formatZipURL (Time_Add (Time_Date y m d) ns) =
      urlBase +:+ String (digit (d / 10)) (String (digit (d mod 10)) "") +:+
      "_" +:+ mon +:+ "_" +:+ pretty y +:+ "_APT_CSV.zip".
Proof.
  intros Hvalid Hns.
  destruct (validDate_bounds _ _ _ Hvalid) as [Hm Hd].
  exists (monthAbbrev m). split.
  - assert (Hcases : m = 1 \/ m = 2 \/ m = 3 \/ m = 4 \/ m = 5 \/ m = 6 \/ m = 7 \/
                     m = 8 \/ m = 9 \/ m = 10 \/ m = 11 \/ m = 12) by lia.
    repeat (destruct Hcases as [->|Hcases]); try subst m; reflexivity.
  - unfold formatZipURL, Time_Day, Time_Month, Time_Year, daysSinceEpoch, Time_Add, Time_Date.
    assert (Hday : (daysFromCivil y m d * (24 * Hour) + ns) / (24 * Hour) = daysFromCivil y m d).
    { assert (Hpos : 24 * Hour <> 0) by (vm_compute; discriminate).
      rewrite Z.add_comm, Z.div_add by exact Hpos.
      rewrite Z.div_small by exact Hns. reflexivity. }
    rewrite Hday, civil_daysFromCivil by exact Hvalid. cbn [fst snd].
    rewrite sprintf_02d_digits by lia. reflexivity.
Qed.

(** *** The cycle date, day by day *)

Lemma allFrom_spec (p : Z -> bool) (z : Z) (n : nat) :
  allFrom p z n = true -> forall x, z <= x < z + Z.of_nat n -> p x = true.
Proof.
  revert z. induction n as [|k IH]; intros z; cbn [allFrom]; [lia|].
  rewrite andb_true_iff. intros [Hz Hrest] x Hx.
  destruct (decide (x = z)) as [->|Hne]; [done|]. apply (IH (z + 1)); [done|lia].
Qed.

Lemma rightAtMidnight_spec (d : Z) :
  rightAtMidnight d = true ->
  let now := Time_Add anchorDate (d * (24 * Hour)) in
  computeNextCycle now =
    if d <? 0 then Time_Add anchorDate cycleLength else nextBoundary now.
Proof. unfold rightAtMidnight. cbv zeta. apply Z.eqb_eq. Qed.

(** The last midnight of the range below is that of 2050-12-31. *)
Example last_midnight_is_the_date :
  Time_Add anchorDate (9137 * (24 * Hour)) = Time_Date 2050 12 31.
Proof. vm_compute. reflexivity. Qed.

(** The midnights from 27 days before the anchor date to 2050-12-31, each
    one evaluated. *)
Lemma midnights_checked : allFrom rightAtMidnight (-27) (Z.to_nat 9165) = true.
Proof. vm_compute. reflexivity. Qed.

(** X13.  At midnight UTC of every day from the anchor date to the end of
    the year 2050, [computeNextCycle] returns the first cycle boundary
    strictly later than now, boundary days included.  At midnight of each of
    the 27 days before the anchor date it returns the boundary 28 days after
    the anchor date: the anchor date itself, still to come, is skipped. *)
Theorem computeNextCycle_at_midnight (d : Z) :
  -27 <= d < 9138 ->
  let now := Time_Add anchorDate (d * (24 * Hour)) in
  computeNextCycle now =
    if d <? 0 then Time_Add anchorDate cycleLength else nextBoundary now.
Proof.
  intros Hd. apply rightAtMidnight_spec.
  apply (allFrom_spec rightAtMidnight (-27) (Z.to_nat 9165) midnights_checked).
  lia.
Qed.

Import Samples.

(** *** The cycle date *)

(** What the next cycle date has to be: [nextBoundary now] is a cycle
    boundary strictly later than [now], at most one cycle away, and the
    earliest such boundary. *)
Lemma nextBoundary_spec (now : Time) :
  now < nextBoundary now <= now + cycleLength /\
  (forall k, now < anchorDate + k * cycleLength ->
             nextBoundary now <= anchorDate + k * cycleLength).
Proof.
  unfold nextBoundary.
  assert (Hc : 0 < cycleLength) by done.
  generalize dependent cycleLength. intros c Hc.
  pose proof (Z.div_mod (now - anchorDate) c ltac:(lia)) as Hdm.
  pose proof (Z.mod_pos_bound (now - anchorDate) c Hc) as Hb.
  split; [nia|].
  intros k Hk.
  assert ((now - anchorDate) / c < k); [|nia].
  apply Z.div_lt_upper_bound; lia.
Qed.

(** On 2026-11-03 the code returns the boundary of 26 Nov 2026. *)
Example computeNextCycle_sample :
  computeNextCycle sampleNow = nextBoundary sampleNow /\
  formatZipURL (computeNextCycle sampleNow) =
    "https://nfdc.faa.gov/webContent/28DaySub/extra/26_Nov_2026_APT_CSV.zip".
Proof. split; vm_compute; reflexivity. Qed.

(** The anchor date formats to the file name the source quotes for it. *)
Example formatZipURL_anchor :
  formatZipURL anchorDate =
    "https://nfdc.faa.gov/webContent/28DaySub/extra/25_Dec_2025_APT_CSV.zip".
Proof. vm_compute. reflexivity. Qed.

(** C3, at its failing input.  At 2026-07-08 23:59:59.999999999 UTC, one
    nanosecond before the boundary of cycle 7, [Hours()] rounds to 4704.0
    and [computeNextCycle] returns the boundary of cycle 8: not the earliest
    boundary later than now, and more than 28 days away. *)
Theorem computeNextCycle_skips_a_cycle :
  let now := anchorDate + 7 * cycleLength - 1 in
  anchorDate <= now /\
  nextBoundary now = anchorDate + 7 * cycleLength /\
  computeNextCycle now = anchorDate + 8 * cycleLength /\
  computeNextCycle now - now = cycleLength + 1.
Proof.
  cbv zeta. split; [by vm_compute|].
  repeat split; vm_compute; reflexivity.
Qed.

(** From 2318-03-21 on, [n * 28 * 24 * Hour] no longer fits in 64 bits and
    the returned date lies before the anchor. *)
Lemma computeNextCycle_wraps :
  let now := anchorDate + 3812 * cycleLength in
  computeNextCycle now < anchorDate /\
  formatZipURL (computeNextCycle now) =
    "https://nfdc.faa.gov/webContent/28DaySub/extra/27_Sep_1733_APT_CSV.zip".
Proof.
  cbv zeta. split; vm_compute; reflexivity.
Qed.

(** *** Runs on the sample environments *)

(** C1 as stated fails: no run of the parser leaves a data row out, and on
    the sample archive the row that names no fuel at all is emitted with the
    others. *)
Lemma no_row_is_filtered_out :
  ~ (exists (lib : GoLib) (rows : list (list string)) (out : list Airport),
       @parseRows lib rows = Returned out /\ (length out < length (tail rows))%nat) /\
  fs (main sampleWorld emptySys).2 !! "public/airports.json" = Some "KABC,K1A2B,KZZ9".
Proof.
  split.
  - intros (lib & rows & out & Hparse%parseRows_length & Hlt). lia.
  - vm_compute. reflexivity.
Qed.

Lemma pipeline_emits_every_row_sample :
  let s' := (runPipeline sampleWorld "cycle.zip" sampleSys).2 in
  runPipeline sampleWorld "cycle.zip" sampleSys = (Returned (), s') /\
  exists (bytes : string) (files : list ZipFile) (f : ZipFile)
         (header : list string) (data : list (list string))
         (out : list Airport) (b : string),
    fs sampleSys !! "cycle.zip" = Some bytes /\
    zip_Read bytes = Ok files /\
    List.find (fun f => EqualFold (zName f) "APT_BASE.csv") files = Some f /\
    csv_ReadAll (zData f) = Ok (header :: data) /\
    Forall2 (fun row a => airportOfRow (columnsOf header) row = Some a) data out /\
    length out = length data /\
    json_MarshalIndent out = Ok b /\
    fs s' !! "public/airports.json" = Some b.
Proof.
  cbv zeta. split; [vm_compute; reflexivity|].
  apply (pipeline_emits_every_row sampleWorld "cycle.zip" sampleSys).
  vm_compute. reflexivity.
Defined.

Example sampleCSV_rows : csv_ReadAll sampleCSV = Ok sampleRows.
Proof. vm_compute. reflexivity. Qed.

Lemma icao_is_K_then_trimmed_id_sample :
  parseRows sampleRows = Returned sampleAirports /\
  ICAO <$> sampleAirports = ["KABC"; "K1A2B"; "KZZ9"] /\
  exists header data,
    sampleRows = header :: data /\
    Forall2 (fun row a =>
               exists id, index row (col header "ARPT_ID") = Some id /\
                          ICAO a = "K" +:+ TrimSpace id)
            data sampleAirports.
Proof.
  split; [vm_compute; reflexivity|].
  split; [vm_compute; reflexivity|].
  apply (icao_is_K_then_trimmed_id sampleRows sampleAirports).
  vm_compute. reflexivity.
Defined.

Lemma fallback_sample :
  (downloadFails sampleWorld (nextURL sampleWorld) emptySys \/
   notValidZip sampleWorld (nextURL sampleWorld) emptySys) /\
  attempts sampleWorld emptySys =
    ["https://nfdc.faa.gov/webContent/28DaySub/extra/26_Nov_2026_APT_CSV.zip";
     "https://nfdc.faa.gov/webContent/28DaySub/extra/29_Oct_2026_APT_CSV.zip"].
Proof.
  assert (Hfail : downloadFails sampleWorld (nextURL sampleWorld) emptySys).
  { exists "HTTP 404: https://nfdc.faa.gov/webContent/28DaySub/extra/26_Nov_2026_APT_CSV.zip".
    vm_compute. reflexivity. }
  split; [by left|].
  etrans; [apply (fallback_is_the_cycle_28_days_earlier sampleWorld emptySys); by left|].
  vm_compute. reflexivity.
Defined.

Lemma two_attempts_then_panic_sample :
  notValidZip brokenWorld (nextURL brokenWorld) emptySys /\
  notValidZip brokenWorld (fallbackURL brokenWorld) (beforeFallback brokenWorld emptySys) /\
  (length (attempts brokenWorld emptySys) <= 2)%nat /\
  (exists msg, (main brokenWorld emptySys).1 = Panicked msg) /\
  attempts brokenWorld emptySys = [nextURL brokenWorld; fallbackURL brokenWorld].
Proof.
  assert (H1 : notValidZip brokenWorld (nextURL brokenWorld) emptySys)
    by (vm_compute; reflexivity).
  assert (H2 : notValidZip brokenWorld (fallbackURL brokenWorld)
                 (beforeFallback brokenWorld emptySys))
    by (vm_compute; reflexivity).
  destruct (at_most_two_attempts_then_panic brokenWorld emptySys) as [Hle Hpanic].
  destruct (Hpanic (or_intror H1) (or_intror H2)) as [Hmsg Hreq].
  auto.
Defined.

(** The sample runs end as the source says they do. *)
Example main_outcomes :
  (main sampleWorld emptySys).1 = Returned () /\
  (main brokenWorld emptySys).1 =
    Panicked "Downloaded current cycle but it is NOT a valid ZIP.".
Proof. split; vm_compute; reflexivity. Qed.

(** ** The further facts on samples *)

Lemma missing_column_panics_sample :
  let header := ["ARPT_ID"; "ARPT_NAME"; "CITY"; "STATE_CODE"; "LAT_DECIMAL";
                 "LONG_DECIMAL"] in
  "FUEL_TYPES" ∈ columnNames /\ ("FUEL_TYPES" ∉ header) /\
  parseRows [header; ["ABC"; "Alpha"; "Austin"; "TX"; "30.0"; "-97.0"]] =
    Panicked indexPanic.
Proof.
  cbv zeta.
  assert (H1 : "FUEL_TYPES" ∈ columnNames) by compute_done.
  assert (H2 : "FUEL_TYPES" ∉ ["ARPT_ID"; "ARPT_NAME"; "CITY"; "STATE_CODE";
                               "LAT_DECIMAL"; "LONG_DECIMAL"]) by compute_done.
  split; [exact H1|]. split; [exact H2|].
  exact (missing_column_panics _ [["ABC"; "Alpha"; "Austin"; "TX"; "30.0"; "-97.0"]]
           "FUEL_TYPES" H1 H2).
Defined.

Lemma main_publishes_the_download_sample :
  let s' := (main sampleWorld emptySys).2 in
  main sampleWorld emptySys = (Returned (), s') /\
  exists (url body : string) (files : list ZipFile) (f : ZipFile)
         (header : list string) (data : list (list string))
         (out : list Airport) (b : string),
    (url = nextURL sampleWorld \/ url = fallbackURL sampleWorld) /\
    last (requests s') = Some url /\
    http_Get sampleWorld url = Reply 200 body None /\
    zip_Read body = Ok files /\
    List.find (fun f => EqualFold (zName f) "APT_BASE.csv") files = Some f /\
    csv_ReadAll (zData f) = Ok (header :: data) /\
    Forall2 (fun row a => airportOfRow (columnsOf header) row = Some a) data out /\
    json_MarshalIndent out = Ok b /\
    fs s' !! "public/airports.json" = Some b /\
    fs s' !! "APT_BASE.csv" = None.
Proof.
  cbv zeta.
  assert (Hrun : main sampleWorld emptySys = (Returned (), (main sampleWorld emptySys).2))
    by (vm_compute; reflexivity).
  split; [exact Hrun|].
  exact (main_publishes_the_download sampleWorld emptySys _ Hrun).
Defined.

Lemma TrimSpace_ascii_sample :
  isASCII "  1A2B " = true /\ TrimSpace "  1A2B " = "1A2B" /\
  exists pre post,
    "  1A2B " = pre +:+ TrimSpace "  1A2B " +:+ post /\
    allBytes asciiSpace pre = true /\ allBytes asciiSpace post = true /\
    startsWithSpace (TrimSpace "  1A2B ") = false /\
    startsWithSpace (String.rev (TrimSpace "  1A2B ")) = false.
Proof.
  split; [vm_compute; reflexivity|]. split; [vm_compute; reflexivity|].
  apply (TrimSpace_ascii "  1A2B "). vm_compute. reflexivity.
Defined.

Lemma parseFuel_ignores_case_sample :
  isASCII "100ll, MoGas" = true /\
  (parseFuel "100ll, MoGas" !! "mogas" = Some true <-> occursUpToCase "MOGAS" "100ll, MoGas") /\
  (parseFuel "100ll, MoGas" !! "100ll" = Some true <-> occursUpToCase "100" "100ll, MoGas") /\
  (parseFuel "100ll, MoGas" !! "jet_a" = Some true <-> occursUpToCase "JET" "100ll, MoGas").
Proof.
  split; [vm_compute; reflexivity|].
  apply (parseFuel_ignores_case "100ll, MoGas"). vm_compute. reflexivity.
Defined.

Lemma formatZipURL_of_date_sample :
  validDate 2028 2 29 = true /\ 0 <= 13 * Hour < 24 * Hour /\
  exists mon,
    monthNames !! Z.to_nat (2 - 1) = Some mon /\
    formatZipURL (Time_Add (Time_Date 2028 2 29) (13 * Hour)) =
      urlBase +:+ String (digit (29 / 10)) (String (digit (29 mod 10)) "") +:+
      "_" +:+ mon +:+ "_" +:+ pretty 2028 +:+ "_APT_CSV.zip".
Proof.
  assert (H1 : validDate 2028 2 29 = true) by (vm_compute; reflexivity).
  assert (H2 : 0 <= 13 * Hour < 24 * Hour) by (vm_compute; split; [discriminate|reflexivity]).
  split; [exact H1|]. split; [exact H2|].
  exact (formatZipURL_of_date 2028 2 29 (13 * Hour) H1 H2).
Defined.

Lemma computeNextCycle_at_midnight_sample :
  -27 <= 196 < 9138 /\
  let now := Time_Add anchorDate (196 * (24 * Hour)) in
  computeNextCycle now =
    if 196 <? 0 then Time_Add anchorDate cycleLength else nextBoundary now.
Proof.
  assert (H1 : -27 <= 196 < 9138) by lia.
  split; [exact H1|]. exact (computeNextCycle_at_midnight 196 H1).
Defined.

End FetchFacts.

(** * Facts about the browser UI *)

Module UIFacts.
Import UI.

Local Open Scope nat_scope.

(** ** The order of binary64 numbers

    A finite binary64 number is an integer multiple of 2^-1074: [Fin x]
    stands for [x * 2^-1074].  The comparisons of two numbers, and the sign of
    their rounded difference, are those of these integers. *)

Inductive number : Type :=
| NaN
| NegInf
| Fin (x : Z)
| PosInf.

(** [a - b], exactly. *)
Definition num_sub (a b : number) : number :=
  match a, b with
  | NaN, _ | _, NaN => NaN
  | PosInf, PosInf | NegInf, NegInf => NaN
  | PosInf, _ | _, NegInf => PosInf
  | NegInf, _ | _, PosInf => NegInf
  | Fin x, Fin y => Fin (x - y)
  end.

(** [a < b]; false when either is NaN. *)
Definition num_lt (a b : number) : bool :=
  match a, b with
  | NaN, _ | _, NaN => false
  | _, NegInf | PosInf, _ => false
  | NegInf, _ | _, PosInf => true
  | Fin x, Fin y => (x <? y)%Z
  end.

(** [a <= b]; false when either is NaN. *)
Definition num_le (a b : number) : bool :=
  match a, b with
  | NaN, _ | _, NaN => false
  | NegInf, _ | _, PosInf => true
  | _, NegInf | PosInf, _ => false
  | Fin x, Fin y => (x <=? y)%Z
  end.

(** The value of a finite binary64 number in units of 2^-1074. *)
Definition units (s : bool) (m : positive) (e : Z) : Z :=
  cond_Zopp s (Z.pos m * 2 ^ (e + 1074)).

Definition order_of_SF (x : spec_float) : number :=
  match x with
  | S754_nan => NaN
  | S754_infinity s => if s then NegInf else PosInf
  | S754_zero _ => Fin 0
  | S754_finite s m e => Fin (units s m e)
  end.

Definition order_of (x : float) : number := order_of_SF (Prim2SF x).

Definition isNaN (a : number) : bool :=
  match a with NaN => true | _ => false end.

(** [a] is at most as far as [b]. *)
Definition distLe (a b : Entry) : Prop := (dist a <=? dist b)%float = true.

(** The distance of [e] is a number. *)
Definition hasDist (e : Entry) : Prop := is_nan (dist e) = false.

(** Page [p] of a list: [PAGE_SIZE] elements from offset [p * PAGE_SIZE]. *)
Definition page (l : list Entry) (p : nat) : list Entry :=
  take PAGE_SIZE (drop (p * PAGE_SIZE) l).

(** The list shows the first pages of [filtered], and the Load More button is
    disabled exactly when there is no further page. *)
Definition pageInv (st : State) : Prop :=
  (forall items, listEl st = Some items -> is_Some (countEl st) ->
     items = take (Nat.min ((listPage st + 1) * PAGE_SIZE) (length (filtered st)))
                  (filtered st)) /\
  (forall d, loadMoreBtn st = Some d ->
     d = bool_decide (length (filtered st) <= (listPage st + 1) * PAGE_SIZE)).

(** What [escapeHtml] turns one code unit into. *)
Definition escChar (c : N) : jsstring :=
  if (c =? c_amp)%N then js "&amp;"
  else if (c =? c_lt)%N then js "&lt;"
  else if (c =? c_gt)%N then js "&gt;"
  else if (c =? c_quot)%N then js "&quot;"
  else if (c =? c_apos)%N then js "&#039;"
  else [c].

(** The entities of [escapeHtml], without their leading ampersand. *)
Definition entities : list jsstring :=
  [js "amp;"; js "lt;"; js "gt;"; js "quot;"; js "#039;"].

(** Every ampersand of [l] starts an entity. *)
Fixpoint ampOk (l : jsstring) : Prop :=
  match l with
  | [] => True
  | c :: rest =>
      (c = c_amp -> exists ent, ent ∈ entities /\ ent `prefix_of` rest) /\ ampOk rest
  end.

(** ** The page as a whole *)

(** The airport passes the part of the filter that depends on the mode. *)
Definition inScope `{Browser} (st : State) (a : Airport) : bool :=
  match searchMode st with
  | AllMode => true
  | RadiusMode => (haversine (center st) (pointOf a) <=? radiusMiles st)%float
  | ViewMode => inBounds st a
  end.

(** [filtered] is what [render()] computes from the current airports,
    selection, mode, center, radius and map view. *)
Definition inSync `{Browser} (st : State) : Prop :=
  filtered st = Array_sort byDist (withDist (center st) <$> filterAirports st).

(** The test of [renderRadiusCircle]: the circle is drawn in radius mode,
    and in view mode when the box [#showCircle] is checked. *)
Definition circleWanted (st : State) : bool :=
  match searchMode st with
  | RadiusMode => true
  | ViewMode => default false (showCircle st)
  | AllMode => false
  end.

(** The state with the fuel button [b] on the page and active. *)
Definition activate (b : FuelButton) (st : State) : State :=
  match b with
  | BtnMogas => set_fuelMogas (Some true) st
  | Btn100ll => set_fuel100ll (Some true) st
  | BtnJet => set_fuelJet (Some true) st
  end.

(** The state with all three fuel buttons active. *)
Definition allFuels (st : State) : State :=
  activate BtnMogas (activate Btn100ll (activate BtnJet st)).

(** [st'] has the airports, selection, mode, center, radius and map view of
    [st], and its results on the map. *)
Definition keeps (st st' : State) : Prop :=
  airports st' = airports st /\ filtered st' = filtered st /\
  markers st' = markers st /\ center st' = center st /\
  radiusMiles st' = radiusMiles st /\ radiusCircle st' = radiusCircle st /\
  searchMode st' = searchMode st /\ mapBounds st' = mapBounds st /\
  fuelMogas st' = fuelMogas st /\ fuel100ll st' = fuel100ll st /\
  fuelJet st' = fuelJet st /\ showCircle st' = showCircle st.

(** The observer watches the Load More button exactly while the button is
    enabled. *)
Definition observerInStep (st : State) : Prop :=
  forall watching disabled,
    loadMoreObserver st = Some watching -> loadMoreBtn st = Some disabled ->
    watching = negb disabled.

(** The handler of [ev] on a page with ([display]) or without the element
    [#radius-display].  Without it the slider's handler throws at
    [document.getElementById("radius-display").textContent = ...], after
    its assignment to [radiusMiles] and before its [render()]. *)
Definition step `{Browser} (display : bool) (ev : Event) (st : State) : State :=
  match ev with
  | SliderInput v => if display then handle ev st else set_radiusMiles v st
  | _ => handle ev st
  end.

(** The states of such a page: any state right after a [render()] (as at
    the end of [init]), those the handlers lead to from there, and those
    after the observer's callback, which does not test whether the button
    is still observed. *)
Inductive pageStates `{Browser} (display : bool) : State -> Prop :=
| page_rendered (st : State) : pageStates display (render st)
| page_step (ev : Event) (st : State) :
    pageStates display st -> pageStates display (step display ev st)
| page_callback (st : State) :
    pageStates display st -> pageStates display (observerCallback st).

(** [filtered] can be stale only in radius mode on a page without
    [#radius-display]. *)
Definition fresh (display : bool) (st : State) : Prop :=
  display = true \/ searchMode st ≠ RadiusMode.

(** What holds of the page in every state. *)
Definition pageOk `{Browser} (display : bool) (st : State) : Prop :=
  (fresh display st -> inSync st) /\ markers st = take MAX_PINS (filtered st) /\
  radiusCircle st = circleWanted st /\ observerInStep st.

#[local] Instance number_eq_dec : EqDecision number.
Proof. solve_decision. Defined.

(** The entries of [l] whose distance is the number [n]. *)
Definition atDistance (n : number) (l : list Entry) : list Entry :=
  List.filter (fun e => bool_decide (order_of (dist e) = n)) l.

(** [render()] from the point where the sorted array [sorted] is at hand. *)
Definition renderWith `{Browser} (sorted : list Entry) (st : State) : State :=
  updateLoadMoreState
    (renderList true
       (renderRadiusCircle
          (renderPins (slice sorted 0 MAX_PINS) (set_filtered sorted st)))).

(** [renderList(true)] up to its call of [updateLoadMoreState]. *)
Definition firstPage `{Browser} (st : State) : State :=
  let st := set_listPage 0 (set_listEl (Some []) st) in
  let start := listPage st * PAGE_SIZE in
  let end_ := Nat.min (start + PAGE_SIZE) (length (filtered st)) in
  let chunk := slice (filtered st) start end_ in
  let st := set_listEl (Some (default [] (listEl st) ++ chunk)) st in
  set_countEl (Some (countText st)) st.

(** The code units [escapeHtml] replaces. *)
Definition special (c : N) : bool :=
  (c =? c_amp)%N || (c =? c_lt)%N || (c =? c_gt)%N || (c =? c_quot)%N || (c =? c_apos)%N.

(** ** Binary64 comparisons and differences, through their integers *)

Section FloatOrder.
Local Open Scope Z_scope.

Lemma digits2_pos_bounds (m : positive) :
  2 ^ (Z.pos (digits2_pos m) - 1) <= Z.pos m < 2 ^ Z.pos (digits2_pos m).
Proof.
  assert (Hstep : forall d, 0 < d -> 2 ^ d = 2 * 2 ^ (d - 1)).
  { intros d Hd. rewrite <- Z.pow_succ_r by lia. f_equal. lia. }
  induction m as [m IH|m IH|]; cbn [digits2_pos]; [| |simpl; lia].
  all: rewrite Pos2Z.inj_succ, (Hstep (Z.succ _)) by lia.
  all: replace (Z.succ (Z.pos (digits2_pos m)) - 1) with (Z.pos (digits2_pos m)) by lia.
  all: rewrite (Hstep (Z.pos (digits2_pos m))) in * by lia.
  all: revert IH; generalize (2 ^ (Z.pos (digits2_pos m) - 1)); lia.
Qed.

(** What validity says of a finite number. *)
Lemma valid_finite (s : bool) (m : positive) (e : Z) :
  valid_binary (S754_finite s m e) = true ->
  -1074 <= e <= 971 /\ Z.pos (digits2_pos m) <= 53 /\
  (-1074 < e -> Z.pos (digits2_pos m) = 53).
Proof.
  unfold SpecFloat.valid_binary, bounded, canonical_mantissa, fexp, SpecFloat.emin, prec, emax.
  rewrite andb_true_iff, Z.eqb_eq, Z.leb_le. lia.
Qed.

Lemma units_lt (m1 m2 : positive) (e1 e2 : Z) :
  valid_binary (S754_finite false m1 e1) = true ->
  valid_binary (S754_finite false m2 e2) = true ->
  e1 < e2 ->
  Z.pos m1 * 2 ^ (e1 + 1074) < Z.pos m2 * 2 ^ (e2 + 1074).
Proof.
  intros (He1 & Hd1 & _)%valid_finite (He2 & _ & Hd2)%valid_finite Hlt.
  assert (Hgt : -1074 < e2) by lia. specialize (Hd2 Hgt).
  replace (e2 + 1074) with ((e1 + 1074) + (e2 - e1)) by lia.
  rewrite (Z.pow_add_r 2 (e1 + 1074) (e2 - e1)) by lia.
  assert (Hk : 2 ^ 1 <= 2 ^ (e2 - e1)) by (apply Z.pow_le_mono_r; lia).
  assert (Hpos : 0 < 2 ^ (e1 + 1074)) by (apply Z.pow_pos_nonneg; lia).
  assert (Hp1 : 2 ^ Z.pos (digits2_pos m1) <= 2 ^ 53) by (apply Z.pow_le_mono_r; lia).
  pose proof (digits2_pos_bounds m1) as [_ Hm1].
  pose proof (digits2_pos_bounds m2) as [Hm2 _].
  rewrite Hd2 in Hm2.
  change (2 ^ (53 - 1)) with 4503599627370496 in Hm2.
  change (2 ^ 53) with 9007199254740992 in Hp1.
  change (2 ^ 1) with 2 in Hk.
  revert Hk Hpos Hp1 Hm1 Hm2.
  generalize (2 ^ (e2 - e1)) (2 ^ (e1 + 1074)) (2 ^ Z.pos (digits2_pos m1)).
  intros k p q Hk Hpos Hp1 Hm1 Hm2.
  assert (Z.pos m1 * p < 9007199254740992 * p) by nia.
  assert (Hmk : 9007199254740992 <= Z.pos m2 * k).
  { replace 9007199254740992 with (4503599627370496 * 2) by reflexivity.
    apply Z.mul_le_mono_nonneg; lia. }
  assert (9007199254740992 * p <= (Z.pos m2 * k) * p)
    by (apply Z.mul_le_mono_nonneg_r; lia).
  lia.
Qed.

Lemma scale_compare (a b p : Z) : 0 < p -> (a * p ?= b * p) = (a ?= b).
Proof.
  intros Hp. destruct (Z.compare_spec a b) as [->|Hlt|Hgt].
  - apply Z.compare_refl.
  - apply Z.compare_lt_iff. nia.
  - apply Z.compare_gt_iff. nia.
Qed.

Lemma finite_compare (s1 s2 : bool) (m1 m2 : positive) (e1 e2 : Z) :
  valid_binary (S754_finite s1 m1 e1) = true ->
  valid_binary (S754_finite s2 m2 e2) = true ->
  SFcompare (S754_finite s1 m1 e1) (S754_finite s2 m2 e2) =
    Some (units s1 m1 e1 ?= units s2 m2 e2).
Proof.
  intros Hv1 Hv2.
  assert (Hv1' : valid_binary (S754_finite false m1 e1) = true) by exact Hv1.
  assert (Hv2' : valid_binary (S754_finite false m2 e2) = true) by exact Hv2.
  destruct (valid_finite _ _ _ Hv1) as (He1 & _), (valid_finite _ _ _ Hv2) as (He2 & _).
  assert (Hp1 : 0 < Z.pos m1 * 2 ^ (e1 + 1074))
    by (apply Z.mul_pos_pos; [lia|apply Z.pow_pos_nonneg; lia]).
  assert (Hp2 : 0 < Z.pos m2 * 2 ^ (e2 + 1074))
    by (apply Z.mul_pos_pos; [lia|apply Z.pow_pos_nonneg; lia]).
  assert (Hcmp : (Z.pos m1 * 2 ^ (e1 + 1074) ?= Z.pos m2 * 2 ^ (e2 + 1074)) =
                 match e1 ?= e2 with
                 | Lt => Lt
                 | Gt => Gt
                 | Eq => Pos.compare_cont Eq m1 m2
                 end).
  { destruct (Z.compare_spec e1 e2) as [->|Hlt|Hgt].
    - apply scale_compare. apply Z.pow_pos_nonneg; lia.
    - apply Z.compare_lt_iff. by apply units_lt.
    - apply Z.compare_gt_iff. by apply units_lt. }
  unfold units, cond_Zopp. cbn [SFcompare].
  revert Hcmp Hp1 Hp2.
  generalize (Z.pos m1 * 2 ^ (e1 + 1074)) (Z.pos m2 * 2 ^ (e2 + 1074)).
  intros u1 u2 Hcmp Hp1 Hp2.
  destruct s1, s2.
  - rewrite Z.compare_opp, (Z.compare_antisym u1 u2), Hcmp.
    by destruct (e1 ?= e2).
  - f_equal. symmetry. apply Z.compare_lt_iff. lia.
  - f_equal. symmetry. apply Z.compare_gt_iff. lia.
  - rewrite Hcmp. by destruct (e1 ?= e2).
Qed.

Lemma units_sign (s : bool) (m : positive) (e : Z) :
  -1074 <= e -> if s then units s m e < 0 else 0 < units s m e.
Proof.
  intros He. unfold units.
  assert (0 < Z.pos m * 2 ^ (e + 1074))
    by (apply Z.mul_pos_pos; [lia|apply Z.pow_pos_nonneg; lia]).
  destruct s; simpl; lia.
Qed.

Lemma SFcompare_order (x y : spec_float) :
  valid_binary x = true -> valid_binary y = true ->
  SFleb x y = num_le (order_of_SF x) (order_of_SF y) /\
  SFltb x y = num_lt (order_of_SF x) (order_of_SF y).
Proof.
  intros Hx Hy. unfold SFleb, SFltb.
  destruct x as [sx|sx| |sx mx ex], y as [sy|sy| |sy my ey];
    try done; try (by destruct sx); try (by destruct sy); try (by destruct sx, sy).
  - destruct (valid_finite _ _ _ Hy) as (He & _).
    pose proof (units_sign sy my ey ltac:(lia)) as Hs. cbn.
    destruct sy; split; symmetry;
      first [apply Z.leb_le|apply Z.leb_gt|apply Z.ltb_lt|apply Z.ltb_ge]; lia.
  - destruct (valid_finite _ _ _ Hx) as (He & _).
    pose proof (units_sign sx mx ex ltac:(lia)) as Hs. cbn.
    destruct sx; split; symmetry;
      first [apply Z.leb_le|apply Z.leb_gt|apply Z.ltb_lt|apply Z.ltb_ge]; lia.
  - rewrite finite_compare by done. cbn [order_of_SF num_le num_lt].
    unfold Z.leb, Z.ltb. by destruct (units sx mx ex ?= units sy my ey).
Qed.

Lemma iter_xO_pow (m d : positive) :
  Z.pos (Pos.iter xO m d) = Z.pos m * 2 ^ Z.pos d.
Proof.
  induction d as [|d IH] using Pos.peano_ind.
  - simpl. lia.
  - rewrite Pos.iter_succ, Pos2Z.inj_xO, IH, Pos2Z.inj_succ, Z.pow_succ_r by lia. lia.
Qed.

Lemma shl_align_fst (mx : positive) (ex ez : Z) :
  ez <= ex -> Z.pos (shl_align mx ex ez).1 = Z.pos mx * 2 ^ (ex - ez).
Proof.
  intros Hle. unfold shl_align.
  destruct (ez - ex) as [|d|d] eqn:Hd; try lia.
  - replace (ex - ez) with 0 by lia. simpl. lia.
  - simpl. rewrite iter_xO_pow. f_equal. f_equal. lia.
Qed.

Lemma shr_1_m (mrs : shr_record) :
  0 <= shr_m mrs -> shr_m (shr_1 mrs) = shr_m mrs / 2.
Proof.
  destruct mrs as [m r s]. simpl. intros Hm. rewrite <- Z.div2_div.
  destruct m as [|[p|p|]|p]; try done; lia.
Qed.

Lemma iter_pos_shr_m (p : positive) (mrs : shr_record) :
  0 <= shr_m mrs -> shr_m (SpecFloat.iter_pos shr_1 p mrs) = shr_m mrs / 2 ^ Z.pos p.
Proof.
  revert mrs. induction p as [p IH|p IH|]; intros mrs Hm; cbn [SpecFloat.iter_pos].
  - assert (H1 : 0 <= shr_m (shr_1 mrs)) by (rewrite shr_1_m by done; apply Z.div_pos; lia).
    assert (H2 : 0 <= shr_m (SpecFloat.iter_pos shr_1 p (shr_1 mrs)))
      by (rewrite IH by done; apply Z.div_pos; [done|apply Z.pow_pos_nonneg; lia]).
    rewrite !IH, shr_1_m by done.
    assert (Hp : 0 < 2 ^ Z.pos p) by (apply Z.pow_pos_nonneg; lia).
    rewrite !Z.div_div by lia. f_equal.
    replace (Z.pos p~1) with (1 + Z.pos p + Z.pos p) by lia.
    rewrite !Z.pow_add_r by lia. change (2 ^ 1) with 2. lia.
  - assert (H2 : 0 <= shr_m (SpecFloat.iter_pos shr_1 p mrs))
      by (rewrite IH by done; apply Z.div_pos; [done|apply Z.pow_pos_nonneg; lia]).
    rewrite !IH by done.
    assert (Hp : 0 < 2 ^ Z.pos p) by (apply Z.pow_pos_nonneg; lia).
    rewrite !Z.div_div by lia. f_equal.
    replace (Z.pos p~0) with (Z.pos p + Z.pos p) by lia.
    rewrite !Z.pow_add_r by lia. lia.
  - rewrite shr_1_m by done. reflexivity.
Qed.

Lemma shr_fexp_pos (m e : Z) (l : location) :
  0 < m -> -1074 <= e ->
  0 < shr_m (shr_fexp prec emax m e l).1 /\ -1074 <= (shr_fexp prec emax m e l).2.
Proof.
  intros Hm He. unfold shr_fexp, shr.
  destruct m as [|p|p]; try lia. cbn [Zdigits2].
  assert (Hrec : shr_m (shr_record_of_loc (Z.pos p) l) = Z.pos p)
    by (by destruct l as [|[]]).
  pose proof (digits2_pos_bounds p) as [Hlow _].
  set (d := Z.pos (digits2_pos p)) in *.
  assert (Hn : fexp prec emax (d + e) - e <= d - 1)
    by (unfold fexp, SpecFloat.emin, prec, emax; lia).
  destruct (fexp prec emax (d + e) - e) as [|n|n] eqn:Hshift; cbn [fst snd].
  - split; [rewrite Hrec|]; lia.
  - split; [|lia].
    rewrite iter_pos_shr_m by (rewrite Hrec; lia). rewrite Hrec.
    apply Z.div_str_pos. split; [apply Z.pow_pos_nonneg; lia|].
    etrans; [|exact Hlow]. apply Z.pow_le_mono_r; lia.
  - split; [rewrite Hrec|]; lia.
Qed.

Lemma round_nearest_even_pos (m : Z) (l : location) :
  0 < m -> 0 < round_nearest_even m l.
Proof.
  intros Hm. destruct l as [|[]]; simpl; try done; [|lia].
  destruct (Z.even m); lia.
Qed.

Lemma binary_round_aux_sign (s : bool) (m e : Z) (l : location) :
  0 < m -> -1074 <= e ->
  SFltb (S754_zero false) (binary_round_aux prec emax s m e l) = negb s.
Proof.
  intros Hm He. unfold binary_round_aux.
  destruct (shr_fexp_pos m e l Hm He) as [Hm1 He1].
  destruct (shr_fexp prec emax m e l) as [mrs1 e1]. cbn [fst snd] in *.
  pose proof (round_nearest_even_pos _ (loc_of_shr_record mrs1) Hm1) as Hm2.
  destruct (shr_fexp_pos _ e1 loc_Exact Hm2 He1) as [Hm3 _].
  destruct (shr_fexp prec emax _ e1 loc_Exact) as [mrs2 e2]. cbn [fst snd] in *.
  destruct (shr_m mrs2) as [|q|q]; try lia.
  destruct (e2 <=? emax - prec); by destruct s.
Qed.

Lemma binary_normalize_sign (m e : Z) :
  -1074 <= e ->
  SFltb (S754_zero false) (binary_normalize prec emax m e false) = (0 <? m).
Proof.
  intros He. unfold binary_normalize, binary_round.
  assert (Hal : forall p, -1074 <= (shl_align p e (fexp prec emax (Z.pos (digits2_pos p) + e))).2).
  { intros p. unfold shl_align.
    destruct (fexp prec emax (Z.pos (digits2_pos p) + e) - e) eqn:Hd; cbn [snd]; try done.
    unfold fexp, SpecFloat.emin, prec, emax. lia. }
  destruct m as [|p|p]; [done| |].
  - specialize (Hal p).
    destruct (shl_align p e _) as [mz ez]. by rewrite binary_round_aux_sign.
  - specialize (Hal p).
    destruct (shl_align p e _) as [mz ez]. by rewrite binary_round_aux_sign.
Qed.

Lemma SFsub_sign (x y : spec_float) :
  valid_binary x = true -> valid_binary y = true ->
  SFltb (S754_zero false) (SFsub prec emax x y) =
    num_lt (Fin 0) (num_sub (order_of_SF x) (order_of_SF y)).
Proof.
  intros Hx Hy.
  destruct x as [sx|sx| |sx mx ex], y as [sy|sy| |sy my ey];
    try done; try (by destruct sx); try (by destruct sy); try (by destruct sx, sy).
  - destruct (valid_finite _ _ _ Hy) as (He & _).
    pose proof (units_sign sy my ey ltac:(lia)) as Hs. cbn.
    destruct sy; cbn; symmetry; [apply Z.ltb_lt|apply Z.ltb_ge]; lia.
  - destruct (valid_finite _ _ _ Hx) as (He & _).
    pose proof (units_sign sx mx ex ltac:(lia)) as Hs. cbn.
    destruct sx; cbn; symmetry; [apply Z.ltb_ge|apply Z.ltb_lt]; lia.
  - destruct (valid_finite _ _ _ Hx) as (Hex & _), (valid_finite _ _ _ Hy) as (Hey & _).
    cbn [SFsub order_of_SF num_sub num_lt].
    rewrite binary_normalize_sign by lia.
    rewrite !shl_align_fst by lia.
    unfold units.
    set (ez := Z.min ex ey).
    assert (Hux : Z.pos mx * 2 ^ (ex + 1074) = Z.pos mx * 2 ^ (ex - ez) * 2 ^ (ez + 1074)).
    { rewrite <- Z.mul_assoc, <- Z.pow_add_r by lia. do 2 f_equal. lia. }
    assert (Huy : Z.pos my * 2 ^ (ey + 1074) = Z.pos my * 2 ^ (ey - ez) * 2 ^ (ez + 1074)).
    { rewrite <- Z.mul_assoc, <- Z.pow_add_r by lia. do 2 f_equal. lia. }
    rewrite Hux, Huy.
    assert (Hp : 0 < 2 ^ (ez + 1074)) by (apply Z.pow_pos_nonneg; lia).
    generalize dependent (2 ^ (ez + 1074)).
    generalize (Z.pos mx * 2 ^ (ex - ez)) (Z.pos my * 2 ^ (ey - ez)).
    intros a b p _ _ Hp.
    destruct (Z.ltb_spec 0 (cond_Zopp sx a - cond_Zopp sy b)) as [Hd|Hd];
      symmetry; [apply Z.ltb_lt|apply Z.ltb_ge]; destruct sx, sy; cbn in *; nia.
Qed.

Lemma leb_order (a b : float) :
  (a <=? b)%float = num_le (order_of a) (order_of b).
Proof.
  rewrite FloatAxioms.leb_spec. apply SFcompare_order; apply Prim2SF_valid.
Qed.

Lemma sub_sign (a b : float) :
  (0 <? a - b)%float = num_lt (Fin 0) (num_sub (order_of a) (order_of b)).
Proof.
  rewrite FloatAxioms.ltb_spec, FloatAxioms.sub_spec. apply SFsub_sign; apply Prim2SF_valid.
Qed.

Lemma is_nan_order (a : float) : is_nan a = isNaN (order_of a).
Proof.
  unfold is_nan, order_of. rewrite FloatAxioms.eqb_spec. unfold SFeqb.
  pose proof (Prim2SF_valid a) as Hv.
  destruct (Prim2SF a) as [s|s| |s m e]; try done; try (by destruct s).
  rewrite finite_compare by done. by rewrite Z.compare_refl.
Qed.

Lemma nan_is_NaN (a : float) : order_of a = NaN -> a = nan.
Proof.
  unfold order_of. intros Ha. apply Prim2SF_inj.
  destruct (Prim2SF a) as [s|s| |s m e]; try done. by destruct s.
Qed.

Lemma add_nan_l (t : float) : (nan + t)%float = nan.
Proof. apply Prim2SF_inj. by rewrite FloatAxioms.add_spec. Qed.

Lemma mul_nan_r (t : float) : (t * nan)%float = nan.
Proof.
  apply Prim2SF_inj. rewrite FloatAxioms.mul_spec.
  change (Prim2SF nan) with S754_nan. by destruct (Prim2SF t).
Qed.

Lemma leb_numbers (a b : float) :
  (a <=? b)%float = true -> is_nan a = false /\ is_nan b = false.
Proof.
  rewrite leb_order, !is_nan_order. by destruct (order_of a), (order_of b).
Qed.

End FloatOrder.

(** ** Escaping *)

Lemma replaceAll_bind (c : N) (by_ : jsstring) (f : N -> jsstring) (s : jsstring) :
  replaceAll c by_ (s ≫= f) = s ≫= (fun x => replaceAll c by_ (f x)).
Proof.
  unfold replaceAll. induction s as [|x s IH]; [done|].
  rewrite !bind_cons, bind_app. by rewrite IH.
Qed.

Lemma escChar_eq (x : N) :
  replaceAll c_apos (js "&#039;")
    (replaceAll c_quot (js "&quot;")
       (replaceAll c_gt (js "&gt;")
          (replaceAll c_lt (js "&lt;")
             (if (x =? c_amp)%N then js "&amp;" else [x])))) = escChar x.
Proof.
  unfold escChar.
  destruct (N.eqb_spec x c_amp) as [->|Hamp]; [done|].
  destruct (N.eqb_spec x c_lt) as [->|Hlt]; [done|].
  destruct (N.eqb_spec x c_gt) as [->|Hgt]; [done|].
  destruct (N.eqb_spec x c_quot) as [->|Hquot]; [done|].
  destruct (N.eqb_spec x c_apos) as [->|Hapos]; [done|].
  apply N.eqb_neq in Hlt, Hgt, Hquot, Hapos.
  unfold replaceAll. simpl. rewrite Hlt. simpl. rewrite Hgt. simpl. rewrite Hquot. simpl.
  by rewrite Hapos.
Qed.

Lemma escapeHtml_chars (s : jsstring) : escapeHtml (JStr s) = s ≫= escChar.
Proof.
  unfold escapeHtml. unfold replaceAll at 5. rewrite !replaceAll_bind.
  induction s as [|x s IH]; [done|]. rewrite !bind_cons, IH. f_equal. apply escChar_eq.
Qed.

Lemma escChar_no_markup (x c : N) :
  c ∈ escChar x -> c <> c_lt /\ c <> c_gt /\ c <> c_quot /\ c <> c_apos.
Proof.
  unfold escChar.
  destruct (N.eqb_spec x c_amp); [|destruct (N.eqb_spec x c_lt);
    [|destruct (N.eqb_spec x c_gt); [|destruct (N.eqb_spec x c_quot);
      [|destruct (N.eqb_spec x c_apos)]]]].
  all: intros Hin; try (apply list_elem_of_In in Hin; simpl in Hin;
                        intuition (subst; done)).
Qed.

Lemma ampOk_app_r (l rest : jsstring) :
  Forall (fun c => c <> c_amp) l -> ampOk rest -> ampOk (l ++ rest).
Proof.
  induction 1 as [|c l Hc _ IH]; simpl; [done|]. intros Hrest. split; [done|auto].
Qed.

Lemma ampOk_escChar (x : N) (rest : jsstring) : ampOk rest -> ampOk (escChar x ++ rest).
Proof.
  intros Hrest.
  assert (Hent : forall ent, ent ∈ entities -> Forall (fun c => c <> c_amp) ent ->
                   ampOk ((c_amp :: ent) ++ rest)).
  { intros ent Hin Hno. simpl. split.
    - intros _. exists ent. split; [done|]. by apply prefix_app_r.
    - by apply ampOk_app_r. }
  unfold escChar.
  destruct (N.eqb_spec x c_amp);
    [|destruct (N.eqb_spec x c_lt);
      [|destruct (N.eqb_spec x c_gt); [|destruct (N.eqb_spec x c_quot);
        [|destruct (N.eqb_spec x c_apos)]]]].
  1-5: apply Hent; [apply list_elem_of_In; simpl; tauto | by repeat constructor].
  simpl. by split.
Qed.

Lemma ampOk_escaped (s : jsstring) : ampOk (s ≫= escChar).
Proof.
  induction s as [|x s IH]; [done|]. rewrite bind_cons. by apply ampOk_escChar.
Qed.

Lemma ampOk_at (pre post : jsstring) :
  ampOk (pre ++ c_amp :: post) -> exists ent, ent ∈ entities /\ ent `prefix_of` post.
Proof.
  induction pre as [|c pre IH]; simpl; intros [Hhd Htl]; auto.
Qed.

(** [escapeHtml] maps null and undefined to the empty string; its output for
    a string holds no [<], [>], double or single quote, and every [&] in it
    starts one of the entities. *)
Lemma escapeHtml_output :
  escapeHtml JNull = [] /\ escapeHtml JUndefined = [] /\
  forall s : jsstring,
    (forall c, c ∈ escapeHtml (JStr s) ->
       c <> c_lt /\ c <> c_gt /\ c <> c_quot /\ c <> c_apos) /\
    (forall pre post, escapeHtml (JStr s) = pre ++ c_amp :: post ->
       exists ent, ent ∈ entities /\ ent `prefix_of` post).
Proof.
  split; [done|]. split; [done|]. intros s. rewrite escapeHtml_chars. split.
  - intros c (x & Hc & _)%list_elem_of_bind. by eapply escChar_no_markup.
  - intros pre post Heq. apply (ampOk_at pre). rewrite <- Heq. apply ampOk_escaped.
Qed.

(** ** Sorting, pins and pages *)

Section WithBrowser.
Context `{Browser}.

Lemma num_le_trans (a b c : number) :
  num_le a b = true -> num_le b c = true -> num_le a c = true.
Proof.
  destruct a, b, c; simpl; try done. intros ?%Z.leb_le ?%Z.leb_le. apply Z.leb_le. lia.
Qed.

#[local] Instance distLe_trans : Transitive distLe.
Proof. intros a b c. unfold distLe. rewrite !leb_order. apply num_le_trans. Qed.

Lemma byDist_not_after (a b : Entry) :
  hasDist a -> hasDist b ->
  (0 <? byDist a b)%float = false -> distLe a b.
Proof.
  unfold hasDist, distLe, byDist. rewrite !is_nan_order, sub_sign, leb_order.
  destruct (order_of (dist a)), (order_of (dist b)); simpl; try done.
  intros _ _ Hlt%Z.ltb_ge. apply Z.leb_le. lia.
Qed.

Lemma byDist_after (a b : Entry) :
  hasDist a -> hasDist b ->
  (0 <? byDist a b)%float = true -> distLe b a.
Proof.
  unfold hasDist, distLe, byDist. rewrite !is_nan_order, sub_sign, leb_order.
  destruct (order_of (dist a)), (order_of (dist b)); simpl; try done.
  intros _ _ Hlt%Z.ltb_lt. apply Z.leb_le. lia.
Qed.

Lemma sortInsert_perm {A} (cmp : A -> A -> float) (x : A) (l : list A) :
  sortInsert cmp x l ≡ₚ x :: l.
Proof.
  induction l as [|y l IH]; cbn [sortInsert]; [reflexivity|].
  destruct (0 <? cmp x y)%float; [|reflexivity]. rewrite IH. apply Permutation_swap.
Qed.

Lemma Array_sort_perm {A} (cmp : A -> A -> float) (l : list A) :
  Array_sort cmp l ≡ₚ l.
Proof.
  induction l as [|x l IH]; cbn [Array_sort]; [reflexivity|].
  by rewrite sortInsert_perm, IH.
Qed.

Lemma sortInsert_sorted (x : Entry) (l : list Entry) :
  hasDist x -> Forall hasDist l ->
  Sorted distLe l -> Sorted distLe (sortInsert byDist x l).
Proof.
  intros Hx Hl Hs. induction Hs as [|y l Hs IH Hhd]; cbn [sortInsert].
  - by repeat constructor.
  - apply Forall_cons in Hl as [Hy Hl].
    destruct (0 <? byDist x y)%float eqn:Hcmp.
    + constructor; [by apply IH|].
      destruct Hhd as [|z l Hyz]; cbn [sortInsert].
      * constructor. by apply byDist_after.
      * destruct (0 <? byDist x z)%float; constructor; [done|].
        by apply byDist_after.
    + constructor; [by constructor|]. constructor. by apply byDist_not_after.
Qed.

Lemma Array_sort_sorted (l : list Entry) :
  Forall hasDist l -> StronglySorted distLe (Array_sort byDist l).
Proof.
  intros Hl. apply Sorted_StronglySorted; [apply distLe_trans|].
  induction Hl as [|x l Hx Hl IH]; cbn [Array_sort]; [constructor|].
  apply sortInsert_sorted; [done| |done].
  by rewrite Array_sort_perm.
Qed.


(** An array of two or more entries in order of distance holds no NaN. *)
Lemma sorted_numbers (l : list Entry) :
  StronglySorted distLe l -> 2 <= length l -> Forall hasDist l.
Proof.
  intros Hs Hlen. destruct Hs as [|x l _ Hx]; [simpl in Hlen; lia|].
  destruct l as [|y l]; [simpl in Hlen; lia|].
  pose proof (Forall_inv Hx) as [Hnx _]%leb_numbers.
  constructor; [done|].
  eapply Forall_impl; [exact Hx|]. by intros z [_ Hz]%leb_numbers.
Qed.

(** When the half difference of the latitudes in radians overflows, the
    distance is NaN. *)
Lemma haversine_overflow (a b : Point) :
  ((p_lat b - p_lat a) * Math_PI / 180 / 2)%float = infinity ->
  haversine a b = nan.
Proof.
  intros Hinf. unfold haversine. cbv zeta. rewrite Hinf.
  rewrite (proj1 Math_sin_infinity), exponentiate_nan_2, add_nan_l.
  by rewrite Math_sqrt_nan, Math_asin_nan, mul_nan_r.
Qed.

(** *** Pagination *)

Lemma slice_page (l : list Entry) (p : nat) :
  slice l (p * PAGE_SIZE) (Nat.min (p * PAGE_SIZE + PAGE_SIZE) (length l)) = page l p.
Proof.
  unfold slice, page.
  destruct (decide (p * PAGE_SIZE + PAGE_SIZE <= length l)) as [Hle|Hgt].
  - rewrite Nat.min_l by done. f_equal. lia.
  - rewrite Nat.min_r by lia.
    rewrite !take_ge; [done| |]; rewrite length_drop; lia.
Qed.

Lemma take_pages (l : list Entry) (p : nat) :
  take (Nat.min (p * PAGE_SIZE) (length l)) l ++ page l p =
  take (Nat.min ((p + 1) * PAGE_SIZE) (length l)) l.
Proof.
  unfold page.
  assert (Hmin : forall n, take (Nat.min n (length l)) l = take n l).
  { intros n. destruct (decide (n <= length l)).
    - by rewrite Nat.min_l.
    - rewrite Nat.min_r by lia. rewrite !take_ge; [done|lia|lia]. }
  rewrite !Hmin, take_take_drop. f_equal. lia.
Qed.

Lemma hasMore_spec (st : State) :
  negb (hasMore st) = bool_decide (length (filtered st) <= (listPage st + 1) * PAGE_SIZE).
Proof.
  unfold hasMore. destruct (Nat.ltb_spec ((listPage st + 1) * PAGE_SIZE) (length (filtered st)));
    simpl; symmetry; [apply bool_decide_eq_false_2 | apply bool_decide_eq_true_2]; lia.
Qed.

Lemma updateLoadMoreState_spec (st : State) :
  let st' := updateLoadMoreState st in
  filtered st' = filtered st /\ listPage st' = listPage st /\
  listEl st' = listEl st /\ countEl st' = countEl st /\
  markers st' = markers st /\ center st' = center st /\
  isLoadingMore st' = isLoadingMore st /\
  loadMoreBtn st' = (fun _ => negb (hasMore st)) <$> loadMoreBtn st.
Proof.
  unfold updateLoadMoreState, setupLoadMoreObserver.
  destruct (loadMoreBtn st) as [d|] eqn:Hbtn; [|by rewrite Hbtn].
  destruct (hasMore st); simpl; repeat case_match; simpl; by rewrite ?Hbtn.
Qed.

Lemma renderList_spec (reset : bool) (st : State) :
  let st' := renderList reset st in
  filtered st' = filtered st /\ markers st' = markers st /\ center st' = center st /\
  isLoadingMore st' = isLoadingMore st /\
  match listEl st, countEl st with
  | Some items, Some _ =>
      let p := if reset then 0 else listPage st in
      listPage st' = p /\
      listEl st' = Some ((if reset then [] else items) ++ page (filtered st) p) /\
      is_Some (countEl st') /\
      loadMoreBtn st' = (fun _ => negb (hasMore st')) <$> loadMoreBtn st
  | _, _ => st' = st
  end.
Proof.
  unfold renderList.
  destruct (listEl st) as [items|] eqn:Hl; [|done].
  destruct (countEl st) as [txt|] eqn:Hc; [|done].
  set (st1 := if reset then _ else st).
  assert (Hst1 : filtered st1 = filtered st /\ markers st1 = markers st /\
                 center st1 = center st /\ isLoadingMore st1 = isLoadingMore st /\
                 loadMoreBtn st1 = loadMoreBtn st /\
                 listPage st1 = (if reset then 0 else listPage st) /\
                 listEl st1 = Some (if reset then [] else items))
    by (subst st1; destruct reset; simpl; auto 10).
  destruct Hst1 as (Hf1 & Hm1 & Hc1 & Hi1 & Hb1 & Hp1 & Hl1).
  clearbody st1. cbv zeta.
  match goal with |- context [updateLoadMoreState ?s] =>
    destruct (updateLoadMoreState_spec s) as (Hf & Hp & Hle & Hce & Hm & Hct & Hil & Hb)
  end.
  unfold hasMore in *. rewrite Hf, Hp, Hle, Hce, Hm, Hct, Hil, Hb. simpl.
  rewrite Hf1, Hm1, Hc1, Hi1, Hb1, Hp1, Hl1, slice_page. simpl. eauto 10.
Qed.


Lemma pageInv_intro (st : State) :
  (forall items, listEl st = Some items -> is_Some (countEl st) ->
     items = take (Nat.min ((listPage st + 1) * PAGE_SIZE) (length (filtered st)))
                  (filtered st)) ->
  pageInv (updateLoadMoreState st).
Proof.
  intros Hlist.
  destruct (updateLoadMoreState_spec st) as (Hf & Hp & Hle & Hce & _ & _ & _ & Hb).
  unfold pageInv. rewrite Hf, Hp, Hle, Hce, Hb. split; [done|].
  intros d Hd. rewrite hasMore_spec in Hd. destruct (loadMoreBtn st); by simplify_eq/=.
Qed.

Lemma render_spec (st : State) :
  let st' := render st in
  filtered st' = Array_sort byDist (withDist (center st) <$> filterAirports st) /\
  center st' = center st /\
  markers st' = slice (filtered st') 0 MAX_PINS /\
  (forall items, listEl st' = Some items -> is_Some (countEl st') ->
     listPage st' = 0 /\ items = page (filtered st') 0) /\
  pageInv st'.
Proof.
  unfold render. cbv zeta.
  set (sorted := Array_sort byDist (withDist (center st) <$> filterAirports st)).
  set (st1 := renderRadiusCircle _).
  assert (Hst1 : filtered st1 = sorted /\ center st1 = center st /\
                 markers st1 = slice sorted 0 MAX_PINS) by done.
  destruct Hst1 as (Hf1 & Hc1 & Hm1). clearbody st1 sorted.
  destruct (renderList_spec true st1) as (Hf2 & Hm2 & Hc2 & _ & Hlist).
  set (st2 := renderList true st1) in *. clearbody st2.
  destruct (updateLoadMoreState_spec st2) as (Hf & Hp & Hle & Hce & Hm & Hct & _ & Hb).
  assert (Hfirst : forall items, listEl st2 = Some items -> is_Some (countEl st2) ->
                     listPage st2 = 0 /\ items = page (filtered st2) 0).
  { intros items Hitems Hcount.
    destruct (listEl st1) as [old|] eqn:Hl1; [destruct (countEl st1) eqn:Hcn1|].
    - destruct Hlist as (Hp2 & Hl2 & _). rewrite Hf2. split; [done|].
      rewrite Hl2 in Hitems. by injection Hitems as <-.
    - subst st2. rewrite Hcn1 in Hcount. by destruct Hcount.
    - subst st2. congruence. }
  assert (Hinv : pageInv (updateLoadMoreState st2)).
  { apply pageInv_intro. intros items Hitems Hcount.
    destruct (Hfirst items Hitems Hcount) as [-> ->].
    by rewrite <- (take_pages _ 0). }
  rewrite Hf, Hct, Hm, Hle, Hce, Hp, Hf2, Hf1, Hc2, Hc1, Hm2, Hm1.
  rewrite Hf2, Hf1 in Hfirst. done.
Qed.

Lemma loadMoreFrame_spec (st : State) :
  let st' := loadMoreFrame st in
  filtered st' = filtered st /\
  (forall items, listEl st = Some items -> is_Some (countEl st) ->
     listPage st' = listPage st + 1 /\
     listEl st' = Some (items ++ page (filtered st) (listPage st + 1)) /\
     is_Some (countEl st')) /\
  (pageInv st -> pageInv st').
Proof.
  unfold loadMoreFrame. cbv zeta.
  set (st1 := set_listPage (listPage st + 1) st).
  destruct (renderList_spec false st1) as (Hf2 & _ & _ & _ & Hlist).
  set (st2 := renderList false st1) in *.
  set (st3 := set_isLoadingMore false st2).
  assert (Hst3 : filtered st3 = filtered st2 /\ listPage st3 = listPage st2 /\
                 listEl st3 = listEl st2 /\ countEl st3 = countEl st2 /\
                 loadMoreBtn st3 = loadMoreBtn st2) by done.
  destruct Hst3 as (Hf3 & Hp3 & Hl3 & Hc3 & Hb3). clearbody st3.
  destruct (updateLoadMoreState_spec st3) as (Hf & Hp & Hle & Hce & _ & _ & _ & Hb).
  assert (Hstep : forall items, listEl st = Some items -> is_Some (countEl st) ->
            listPage st2 = listPage st + 1 /\
            listEl st2 = Some (items ++ page (filtered st) (listPage st + 1)) /\
            is_Some (countEl st2)).
  { intros items Hitems [txt Hcount].
    change (listEl st1) with (listEl st) in Hlist.
    change (countEl st1) with (countEl st) in Hlist.
    rewrite Hitems, Hcount in Hlist. by destruct Hlist as (? & ? & ? & _). }
  split; [by rewrite Hf, Hf3, Hf2|]. split.
  - intros items Hitems Hcount. rewrite Hp, Hle, Hce, Hp3, Hl3, Hc3. by apply Hstep.
  - intros [Hlist0 _].
    assert (Hinv : pageInv (updateLoadMoreState st3)); [|done].
    apply pageInv_intro. rewrite Hl3, Hc3, Hp3, Hf3, Hf2.
    change (filtered st1) with (filtered st).
    intros items Hitems Hcount.
    destruct (listEl st) as [old|] eqn:Hl0; [destruct (countEl st) as [txt|] eqn:Hc0|].
    + destruct (Hstep old eq_refl ltac:(eauto)) as (Hp2 & Hl2 & _).
      rewrite Hl2 in Hitems. injection Hitems as <-. rewrite Hp2.
      rewrite (Hlist0 old eq_refl ltac:(eauto)) at 1. apply take_pages.
    + subst st2. change (listEl st1) with (listEl st) in Hlist.
      change (countEl st1) with (countEl st) in Hlist. rewrite Hl0, Hc0 in Hlist.
      rewrite Hlist in Hcount. change (countEl st1) with (countEl st) in Hcount.
      rewrite Hc0 in Hcount. by destruct Hcount.
    + subst st2. change (listEl st1) with (listEl st) in Hlist.
      rewrite Hl0 in Hlist. rewrite Hlist in Hitems.
      change (listEl st1) with (listEl st) in Hitems. congruence.
Qed.

Lemma attemptLoadMore_inv (st : State) : pageInv st -> pageInv (attemptLoadMore st).
Proof.
  intros Hinv. unfold attemptLoadMore.
  destruct (isLoadingMore st); [done|].
  destruct (negb (hasMore st)); [|done].
  apply pageInv_intro, Hinv.
Qed.

Lemma handle_inv (ev : Event) (st : State) : pageInv st -> pageInv (handle ev st).
Proof.
  intros Hinv. destruct ev; simpl; try apply render_spec.
  - destruct (searchMode st); [apply render_spec|done|done].
  - unfold toggleFuel. destruct b; case_match; try done; apply render_spec.
  - case_match; [apply render_spec|done].
  - case_match; [by apply attemptLoadMore_inv|done].
  - repeat case_match; try done. unfold observerCallback.
    repeat case_match; try done; [by apply attemptLoadMore_inv|].
    apply pageInv_intro, Hinv.
  - case_match; [by apply loadMoreFrame_spec|done].
Qed.


(** C7.  In every state of the page, the list shows the prefix of [filtered]
    of length min((listPage + 1) * 80, length filtered) and the Load More
    button is disabled exactly when (listPage + 1) * 80 >= length filtered;
    the pending load-more callback advances [listPage] by one and appends
    page [listPage + 1] of the unchanged [filtered]. *)
Theorem pagination_by_pages_of_80 (st : State) :
  reachable st ->
  (forall items, listEl st = Some items -> is_Some (countEl st) ->
     items = take (Nat.min ((listPage st + 1) * 80) (length (filtered st))) (filtered st)) /\
  (forall d, loadMoreBtn st = Some d ->
     d = bool_decide (length (filtered st) <= (listPage st + 1) * 80)) /\
  (isLoadingMore st = true ->
   let st' := handle AnimationFrame st in
   filtered st' = filtered st /\
   forall items, listEl st = Some items -> is_Some (countEl st) ->
     listPage st' = listPage st + 1 /\
     listEl st' = Some (items ++ take 80 (drop ((listPage st + 1) * 80) (filtered st)))).
Proof.
  intros Hreach.
  assert (Hinv : pageInv st).
  { induction Hreach as [st|ev st _ IH]; [apply render_spec|by apply handle_inv]. }
  destruct Hinv as [Hlist Hbtn]. split; [exact Hlist|]. split; [exact Hbtn|].
  intros Hloading. simpl. rewrite Hloading.
  destruct (loadMoreFrame_spec st) as (Hf & Hstep & _). split; [done|].
  intros items Hitems Hcount. destruct (Hstep items Hitems Hcount) as (? & ? & _). done.
Qed.

(** C6.  After [render()], provided the distances of the filtered airports
    are numbers: [filtered] holds the filtered airports, each with its
    haversine distance from the search center, in nondecreasing order of that
    distance; the pins are its first 2000 entries; the list shows its first
    page, and every page loaded later is the next 80 entries of it. *)
Theorem render_sorts_by_distance (st : State) :
  Forall (fun a => is_nan (haversine (center st) (pointOf a)) = false) (filterAirports st) ->
  let st' := render st in
  StronglySorted distLe (filtered st') /\
  Forall (fun e => dist e = haversine (center st') (pointOf (ap e))) (filtered st') /\
  ap <$> filtered st' ≡ₚ filterAirports st /\
  markers st' = take MAX_PINS (filtered st') /\
  (forall items, listEl st' = Some items -> is_Some (countEl st') ->
     items = take PAGE_SIZE (filtered st')) /\
  (forall later items,
     filtered later = filtered st' ->
     listEl later = Some items -> is_Some (countEl later) ->
     filtered (loadMoreFrame later) = filtered st' /\
     listEl (loadMoreFrame later) =
       Some (items ++ take PAGE_SIZE (drop ((listPage later + 1) * PAGE_SIZE) (filtered st')))).
Proof.
  intros Hnum. cbv zeta.
  destruct (render_spec st) as (Hf & Hc & Hm & Hfirst & _).
  rewrite Hm, Hc. unfold slice. rewrite Nat.sub_0_r, drop_0.
  assert (Hdist : Forall (fun e => dist e = haversine (center st) (pointOf (ap e)))
                         (withDist (center st) <$> filterAirports st)).
  { apply Forall_fmap. by apply Forall_true. }
  assert (Hap : ap <$> (withDist (center st) <$> filterAirports st) = filterAirports st).
  { rewrite <- list_fmap_compose. apply list_fmap_id. }
  split; [|split; [|split; [|split; [|split]]]].
  - rewrite Hf. apply Array_sort_sorted. apply Forall_fmap. done.
  - rewrite Hf. by rewrite Array_sort_perm.
  - rewrite Hf. by rewrite Array_sort_perm, Hap.
  - done.
  - intros items Hitems Hcount. destruct (Hfirst items Hitems Hcount) as [_ ->].
    unfold page. by rewrite drop_0.
  - intros later items Hsame Hitems Hcount.
    destruct (loadMoreFrame_spec later) as (Hkeep & Hstep & _).
    destruct (Hstep items Hitems Hcount) as (_ & Hshown & _).
    rewrite Hkeep, Hshown, Hsame. done.
Qed.

(** C8.  With no fuel button active, [filterAirports] returns the empty
    array whatever the airports, the mode, the center and the radius, and
    [render()] then shows no pin and no list entry. *)
Theorem no_fuel_selected_shows_nothing (st : State) :
  isActive (fuelMogas st) = false ->
  isActive (fuel100ll st) = false ->
  isActive (fuelJet st) = false ->
  filterAirports st = [] /\
  filtered (render st) = [] /\
  markers (render st) = [].
Proof.
  intros Hm Hl Hj.
  assert (Hnone : filterAirports st = []).
  { unfold filterAirports, getSelectedFuels. by rewrite Hm, Hl, Hj. }
  destruct (render_spec st) as (Hf & _ & Hmk & _).
  rewrite Hmk, Hf, Hnone. done.
Qed.

(** *** The AirNav link *)

Lemma infix_peel (h t k i : jsstring) :
  (exists pre post, t = pre ++ k ++ i ++ post) ->
  exists pre post, h ++ t = pre ++ k ++ i ++ post.
Proof.
  intros (pre & post & ->). exists (h ++ pre), post. by rewrite <- app_assoc.
Qed.

Ltac find_infix := first [ by eexists [], _ | apply infix_peel; find_infix ].

(** Both templates write [ap.arpt_id] into the [href] as it is. *)
Lemma itemHtml_href (e : Entry) :
  exists pre post,
    itemHtml e = pre ++ js "https://www.airnav.com/airport/K" ++ arpt_id (ap e) ++ post.
Proof. unfold itemHtml. cbv zeta. find_infix. Qed.

Lemma popupHtml_href (e : Entry) :
  exists pre post,
    popupHtml e = pre ++ js "https://www.airnav.com/airport/K" ++ arpt_id (ap e) ++ post.
Proof. unfold popupHtml. cbv zeta. find_infix. Qed.

End WithBrowser.

(** ** The page as a whole: filter, invariants, idempotence *)

Section Page.
Context `{Browser}.

Lemma filter_In_iff {A} (p : A -> bool) (l : list A) (x : A) :
  x ∈ List.filter p l <-> x ∈ l /\ p x = true.
Proof. rewrite !list_elem_of_In. apply filter_In. Qed.

Lemma filter_sublist {A} (p : A -> bool) (l : list A) : List.filter p l `sublist_of` l.
Proof.
  induction l as [|x l IH]; simpl; [done|].
  destruct (p x); [by apply sublist_skip|by apply sublist_cons].
Qed.

Lemma filter_mono {A} (p q : A -> bool) (l : list A) :
  (forall x, p x = true -> q x = true) ->
  List.filter p l `sublist_of` List.filter q l.
Proof.
  intros Hpq. induction l as [|x l IH]; simpl; [done|].
  destruct (p x) eqn:Hp.
  - rewrite (Hpq x Hp). by apply sublist_skip.
  - destruct (q x); [by apply sublist_cons|done].
Qed.

Lemma filter_sublist_of {A} (p : A -> bool) (l1 l2 : list A) :
  l1 `sublist_of` l2 -> List.filter p l1 `sublist_of` List.filter p l2.
Proof.
  induction 1 as [|x l1 l2 _ IH|x l1 l2 _ IH]; simpl; [done| |].
  - destruct (p x); [by apply sublist_skip|done].
  - destruct (p x); [by apply sublist_cons|done].
Qed.

(** *** [filterAirports] *)

Lemma filterAirports_elem (st : State) (a : Airport) :
  a ∈ filterAirports st <->
  a ∈ airports st /\
  (exists f, f ∈ getSelectedFuels st /\ fuelHas a f = true) /\
  inScope st a = true.
Proof.
  unfold filterAirports, inScope. cbv zeta.
  case_bool_decide as Hnone.
  - split; [by intros ?%elem_of_nil|].
    intros (_ & (f & Hf & _) & _). apply nil_length_inv in Hnone.
    rewrite Hnone in Hf. by apply elem_of_nil in Hf.
  - assert (Hsel : forall a,
              existsb (fun f => fuelHas a f) (getSelectedFuels st) = true <->
              exists f, f ∈ getSelectedFuels st /\ fuelHas a f = true).
    { intros a'. rewrite existsb_exists. by setoid_rewrite <- list_elem_of_In. }
    destruct (searchMode st); rewrite ?filter_In_iff, ?Hsel; tauto.
Qed.

(** X14.  [filterAirports] keeps the order of [airports], and keeps an
    airport exactly when one of the selected fuels is truthy in its [fuel]
    object and it is in scope for the mode: always in list-all mode, within
    [radiusMiles] of the center in radius mode, inside the map view in view
    mode. *)
Theorem filterAirports_spec (st : State) :
  filterAirports st `sublist_of` airports st /\
  forall a,
    a ∈ filterAirports st <->
    a ∈ airports st /\
    (exists f, f ∈ getSelectedFuels st /\ fuelHas a f = true) /\
    inScope st a = true.
Proof.
  split; [|apply filterAirports_elem].
  unfold filterAirports. cbv zeta.
  case_bool_decide as Hnone; [apply sublist_nil_l|].
  destruct (searchMode st);
    [etrans; [apply filter_sublist|]|etrans; [apply filter_sublist|]|];
    apply filter_sublist.
Qed.

Lemma getSelectedFuels_activate (b : FuelButton) (st : State) (f : jsstring) :
  f ∈ getSelectedFuels st -> f ∈ getSelectedFuels (activate b st).
Proof.
  unfold getSelectedFuels. destruct b; simpl;
    destruct (isActive (fuelMogas st)), (isActive (fuel100ll st)),
             (isActive (fuelJet st)); simpl;
    rewrite ?elem_of_cons; intuition.
Qed.

(** X15.  The fuel filter is any-of: with one more fuel button active,
    every airport that was in the result is still in it, in the same
    order. *)
Theorem more_fuels_more_airports (b : FuelButton) (st : State) :
  filterAirports st `sublist_of` filterAirports (activate b st).
Proof.
  unfold filterAirports. cbv zeta.
  case_bool_decide as Hnone; [apply sublist_nil_l|].
  rewrite bool_decide_eq_false_2.
  2:{ destruct (getSelectedFuels st) as [|f fs] eqn:Hsel; [done|].
      pose proof (getSelectedFuels_activate b st f) as Hin.
      rewrite Hsel in Hin. specialize (Hin ltac:(left)).
      intros Hlen%nil_length_inv. rewrite Hlen in Hin. by apply elem_of_nil in Hin. }
  assert (Hfuel : List.filter (fun a => existsb (fun f => fuelHas a f) (getSelectedFuels st))
                    (airports st) `sublist_of`
                  List.filter (fun a => existsb (fun f => fuelHas a f)
                                          (getSelectedFuels (activate b st)))
                    (airports (activate b st))).
  { replace (airports (activate b st)) with (airports st) by by destruct b.
    apply filter_mono. intros a. rewrite !existsb_exists.
    intros (f & Hf%list_elem_of_In & Hhas). exists f. split; [|done].
    apply list_elem_of_In. by apply getSelectedFuels_activate. }
  replace (searchMode (activate b st)) with (searchMode st) by by destruct b.
  replace (center (activate b st)) with (center st) by by destruct b.
  replace (radiusMiles (activate b st)) with (radiusMiles st) by by destruct b.
  destruct (searchMode st); [| |done].
  - replace (fun a : Airport => inBounds (activate b st) a)
      with (fun a : Airport => inBounds st a) by by destruct b.
    by apply filter_sublist_of.
  - by apply filter_sublist_of.
Qed.

(** X16.  In radius mode [render()] always leaves [filtered] in order of
    distance, whatever the data: an airport whose distance is NaN fails the
    test [haversine(center, ap) <= radiusMiles] and is not in the result, and
    every entry is within [radiusMiles] of the center. *)
Theorem radius_mode_is_sorted (st : State) :
  searchMode st = RadiusMode ->
  let st' := render st in
  StronglySorted distLe (filtered st') /\
  Forall (fun e => dist e = haversine (center st) (pointOf (ap e)) /\
                   (dist e <=? radiusMiles st)%float = true) (filtered st').
Proof.
  intros Hmode. cbv zeta.
  destruct (render_spec st) as (-> & _).
  assert (Hnear : Forall (fun e => dist e = haversine (center st) (pointOf (ap e)) /\
                                   (dist e <=? radiusMiles st)%float = true)
                         (withDist (center st) <$> filterAirports st)).
  { apply Forall_fmap, Forall_forall. intros a Ha.
    apply filterAirports_elem in Ha as (_ & _ & Hscope).
    unfold inScope in Hscope. rewrite Hmode in Hscope. done. }
  split.
  - apply Array_sort_sorted. eapply Forall_impl; [exact Hnear|].
    intros e [_ Hle]. by apply leb_numbers in Hle as [? _].
  - by rewrite Array_sort_perm.
Qed.

(** *** Ties *)

Lemma sortInsert_atDistance (n : number) (x : Entry) (l : list Entry) :
  atDistance n (sortInsert byDist x l) = atDistance n (x :: l).
Proof.
  unfold atDistance. induction l as [|y l IH]; [done|]. cbn [sortInsert].
  destruct (0 <? byDist x y)%float eqn:Hcmp; [|done].
  cbn [List.filter] in *. rewrite IH.
  case_bool_decide as Hx; [|done].
  rewrite bool_decide_eq_false_2; [done|].
  intros Hy. unfold byDist in Hcmp. rewrite sub_sign, Hx, Hy in Hcmp.
  destruct n; simpl in Hcmp; try done. by rewrite Z.sub_diag in Hcmp.
Qed.

Lemma Array_sort_atDistance (n : number) (l : list Entry) :
  atDistance n (Array_sort byDist l) = atDistance n l.
Proof.
  induction l as [|x l IH]; [done|]. cbn [Array_sort].
  rewrite sortInsert_atDistance. unfold atDistance in *. cbn [List.filter].
  by rewrite IH.
Qed.

(** X21.  The sort is stable: when no distance is NaN, the entries at one
    and the same distance stand in [filtered] in the order in which
    [filterAirports] returned their airports, which is the order of
    [airports.json].  (With a NaN distance the comparator is inconsistent
    and ECMAScript leaves the order to the engine.) *)
Theorem ties_keep_the_file_order (st : State) (n : number) :
  Forall (fun a => is_nan (haversine (center st) (pointOf a)) = false) (filterAirports st) ->
  atDistance n (filtered (render st)) =
    atDistance n (withDist (center st) <$> filterAirports st).
Proof.
  intros _. destruct (render_spec st) as (-> & _). apply Array_sort_atDistance.
Qed.

(** *** What the handlers keep *)

Lemma keeps_refl (st : State) : keeps st st.
Proof. by repeat split. Qed.

Lemma keeps_trans (st1 st2 st3 : State) : keeps st1 st2 -> keeps st2 st3 -> keeps st1 st3.
Proof. unfold keeps. intros ? ?. intuition congruence. Qed.

Lemma updateLoadMoreState_keeps (st : State) :
  keeps st (updateLoadMoreState st) /\ observerInStep (updateLoadMoreState st).
Proof.
  unfold updateLoadMoreState, setupLoadMoreObserver, observerInStep.
  destruct (loadMoreBtn st) as [d|] eqn:Hbtn.
  - destruct (hasMore st); simpl; repeat case_match; simpl;
      (split; [by repeat split|]); intros; simplify_eq/=; congruence.
  - split; [apply keeps_refl|]. intros; congruence.
Qed.

Lemma renderList_keeps (reset : bool) (st : State) : keeps st (renderList reset st).
Proof.
  unfold renderList.
  destruct (listEl st) as [items|]; [|apply keeps_refl].
  destruct (countEl st) as [txt|]; [|apply keeps_refl].
  eapply keeps_trans; [|apply updateLoadMoreState_keeps].
  destruct reset; by repeat split.
Qed.

Lemma loadMoreFrame_keeps (st : State) :
  keeps st (loadMoreFrame st) /\ observerInStep (loadMoreFrame st).
Proof.
  unfold loadMoreFrame. cbv zeta. split; [|apply updateLoadMoreState_keeps].
  eapply keeps_trans; [|apply updateLoadMoreState_keeps].
  eapply keeps_trans; [apply (renderList_keeps false (set_listPage (listPage st + 1) st))|].
  by repeat split.
Qed.

Lemma attemptLoadMore_keeps (st : State) :
  keeps st (attemptLoadMore st) /\
  (observerInStep st -> observerInStep (attemptLoadMore st)).
Proof.
  unfold attemptLoadMore. repeat case_match.
  - split; [apply keeps_refl|done].
  - split; [apply updateLoadMoreState_keeps|]. intros _. apply updateLoadMoreState_keeps.
  - split; [by repeat split|done].
Qed.

Lemma observerCallback_keeps (st : State) :
  keeps st (observerCallback st) /\
  (observerInStep st -> observerInStep (observerCallback st)).
Proof.
  unfold observerCallback. repeat case_match.
  - apply attemptLoadMore_keeps.
  - split; [apply updateLoadMoreState_keeps|]. intros _. apply updateLoadMoreState_keeps.
  - split; [apply keeps_refl|done].
Qed.

Lemma filterAirports_keeps (st st' : State) :
  keeps st st' -> filterAirports st' = filterAirports st.
Proof.
  intros (Ha & _ & _ & Hc & Hr & _ & Hm & Hb & Hf1 & Hf2 & Hf3 & _).
  unfold filterAirports, getSelectedFuels, inBounds.
  by rewrite Ha, Hc, Hr, Hm, Hb, Hf1, Hf2, Hf3.
Qed.

Lemma pageOk_keeps (display : bool) (st st' : State) :
  keeps st st' -> observerInStep st' -> pageOk display st -> pageOk display st'.
Proof.
  intros Hk Hobs (Hsync & Hpins & Hcircle & _).
  pose proof (filterAirports_keeps _ _ Hk) as Hfa.
  destruct Hk as (Ha & Hf & Hmk & Hc & Hr & Hrc & Hm & Hb & Hf1 & Hf2 & Hf3 & Hsc).
  unfold pageOk, fresh, inSync, circleWanted in *.
  rewrite Hfa, Hf, Hmk, Hc, Hrc, Hm, Hsc. done.
Qed.

Lemma render_pageOk (display : bool) (st : State) : pageOk display (render st).
Proof.
  destruct (render_spec st) as (Hf & Hc & Hm & _).
  assert (Hk : airports (render st) = airports st /\
               radiusMiles (render st) = radiusMiles st /\
               searchMode (render st) = searchMode st /\
               mapBounds (render st) = mapBounds st /\
               fuelMogas (render st) = fuelMogas st /\
               fuel100ll (render st) = fuel100ll st /\
               fuelJet (render st) = fuelJet st /\
               showCircle (render st) = showCircle st /\
               radiusCircle (render st) = circleWanted st /\
               observerInStep (render st)).
  { unfold render. cbv zeta.
    match goal with |- context [updateLoadMoreState ?s] =>
      destruct (updateLoadMoreState_keeps s)
        as ((Ha & _ & _ & _ & Hr & Hrc & Hmd & Hb & Hf1 & Hf2 & Hf3 & Hsc) & Hobs)
    end.
    rewrite Ha, Hr, Hrc, Hmd, Hb, Hf1, Hf2, Hf3, Hsc.
    match goal with |- context [renderList true ?s] =>
      destruct (renderList_keeps true s)
        as (Ha' & _ & _ & _ & Hr' & Hrc' & Hmd' & Hb' & Hf1' & Hf2' & Hf3' & Hsc')
    end.
    rewrite Ha', Hr', Hrc', Hmd', Hb', Hf1', Hf2', Hf3', Hsc'.
    by repeat split. }
  destruct Hk as (Ha & Hr & Hmd & Hb & Hf1 & Hf2 & Hf3 & Hsc & Hrc & Hobs).
  assert (Hfa : filterAirports (render st) = filterAirports st).
  { unfold filterAirports, getSelectedFuels, inBounds.
    by rewrite Ha, Hc, Hr, Hmd, Hb, Hf1, Hf2, Hf3. }
  unfold pageOk, fresh, inSync, circleWanted.
  rewrite Hfa, Hc, Hm, Hrc, Hmd, Hsc. by repeat split.
Qed.

(** A change of the map view outside view mode, or of the radius outside
    radius mode, leaves the results as they are. *)
Lemma pageOk_unused_input (display : bool) (st st' : State) :
  airports st' = airports st -> filtered st' = filtered st ->
  markers st' = markers st -> center st' = center st ->
  radiusCircle st' = radiusCircle st -> searchMode st' = searchMode st ->
  fuelMogas st' = fuelMogas st -> fuel100ll st' = fuel100ll st ->
  fuelJet st' = fuelJet st -> showCircle st' = showCircle st ->
  loadMoreObserver st' = loadMoreObserver st -> loadMoreBtn st' = loadMoreBtn st ->
  (fresh display st' -> searchMode st = RadiusMode -> radiusMiles st' = radiusMiles st) ->
  (searchMode st = ViewMode -> mapBounds st' = mapBounds st) ->
  pageOk display st -> pageOk display st'.
Proof.
  intros Ha Hf Hmk Hc Hrc Hm Hf1 Hf2 Hf3 Hsc Hob Hbtn Hr Hb (Hsync & Hpins & Hcircle & Hobs).
  unfold pageOk, fresh, inSync, circleWanted, observerInStep in *.
  rewrite Hm in Hr.
  rewrite Hf, Hmk, Hc, Hrc, Hm, Hsc, Hob, Hbtn. repeat split; try done.
  intros Hfresh. rewrite Hsync by done. f_equal. f_equal.
  unfold filterAirports, getSelectedFuels, inBounds.
  rewrite Ha, Hc, Hm, Hf1, Hf2, Hf3.
  destruct (searchMode st) eqn:Hmode; [by rewrite Hb|by rewrite Hr|done].
Qed.

Lemma handle_pageOk (display : bool) (ev : Event) (st : State) :
  pageOk display st -> pageOk display (handle ev st).
Proof.
  intros Hok. destruct ev; simpl; try apply render_pageOk.
  - destruct (searchMode st) eqn:Hmode; [apply render_pageOk| |];
      (eapply pageOk_unused_input; [..|exact Hok]; try done; intros; congruence).
  - unfold toggleFuel. destruct b; case_match; try done; apply render_pageOk.
  - case_match; [apply render_pageOk|done].
  - case_match; [|done].
    destruct (attemptLoadMore_keeps st) as [Hk Hobs].
    eapply pageOk_keeps; [exact Hk| |exact Hok]. apply Hobs, Hok.
  - repeat case_match; try done.
    destruct (observerCallback_keeps st) as [Hk Hobs].
    eapply pageOk_keeps; [exact Hk| |exact Hok]. apply Hobs, Hok.
  - case_match; [|done].
    destruct (loadMoreFrame_keeps st) as [Hk Hobs].
    eapply pageOk_keeps; [exact Hk|exact Hobs|exact Hok].
Qed.

Lemma step_pageOk (display : bool) (ev : Event) (st : State) :
  pageOk display st -> pageOk display (step display ev st).
Proof.
  intros Hok. destruct ev; try (by apply handle_pageOk).
  unfold step. destruct display; [by apply handle_pageOk|].
  eapply pageOk_unused_input; [..|exact Hok]; try done.
  intros [?|Hmode]; [done|]. simpl in Hmode. congruence.
Qed.

Lemma pageStates_pageOk (display : bool) (st : State) :
  pageStates display st -> pageOk display st.
Proof.
  induction 1 as [st|ev st _ IH|st _ IH];
    [apply render_pageOk|by apply step_pageOk|].
  destruct (observerCallback_keeps st) as [Hk Hobs].
  eapply pageOk_keeps; [exact Hk| |exact IH]. apply Hobs, IH.
Qed.

(** X17.  The results on show are never stale, with one exception.  After
    the [render()] that ends [init] and after every handler from then on,
    [filtered] is the array [render()] computes from the current airports,
    fuel selection, mode, center, radius and map view; except in radius
    mode on a page without [#radius-display], where the slider's handler
    throws after changing [radiusMiles] and before its [render()]. *)
Theorem results_are_in_sync (display : bool) (st : State) :
  pageStates display st ->
  display = true \/ searchMode st ≠ RadiusMode ->
  filtered st = Array_sort byDist (withDist (center st) <$> filterAirports st).
Proof. intros (Hsync & _)%pageStates_pageOk Hfresh. by apply Hsync. Qed.

(** X18.  After the [render()] that ends [init] and after every handler
    from then on, the pins are the first [MAX_PINS] entries of [filtered],
    so there are never more than 2000 of them. *)
Theorem pins_are_the_first_2000 (display : bool) (st : State) :
  pageStates display st ->
  markers st = take MAX_PINS (filtered st) /\ length (markers st) <= 2000.
Proof.
  intros (_ & Hpins & _)%pageStates_pageOk. split; [done|].
  rewrite Hpins, length_take. unfold MAX_PINS. lia.
Qed.

(** X19.  After the [render()] that ends [init] and after every handler
    from then on, the radius circle and the center marker are on the map
    exactly in radius mode, and in view mode when [#showCircle] is checked;
    never in list-all mode. *)
Theorem circle_follows_the_mode (display : bool) (st : State) :
  pageStates display st ->
  radiusCircle st =
    match searchMode st with
    | RadiusMode => true
    | ViewMode => default false (showCircle st)
    | AllMode => false
    end.
Proof. intros (_ & _ & Hcircle & _)%pageStates_pageOk. exact Hcircle. Qed.

(** X20.  After the [render()] that ends [init] and after every handler
    from then on, on a page that has a Load More button and an observer, the
    observer watches the button exactly while the button is enabled. *)
Theorem observer_follows_the_button (display : bool) (st : State) :
  pageStates display st ->
  forall watching disabled,
    loadMoreObserver st = Some watching -> loadMoreBtn st = Some disabled ->
    watching = negb disabled.
Proof. intros (_ & _ & _ & Hobs)%pageStates_pageOk. exact Hobs. Qed.

(** *** [render()] twice *)

Lemma updateLoadMoreState_twice (st : State) :
  updateLoadMoreState (updateLoadMoreState st) = updateLoadMoreState st.
Proof.
  unfold updateLoadMoreState, setupLoadMoreObserver, hasMore.
  destruct st as [a f m c r rc lp sm il ob mb f1 f2 f3 sc le ce btn].
  cbn [loadMoreBtn]. destruct btn as [d|]; [|reflexivity].
  cbn [listPage filtered set_loadMoreBtn loadMoreObserver loadMoreBtn].
  destruct ((lp + 1) * PAGE_SIZE <? length f) eqn:Hmore; cbn [negb].
  - destruct ob as [w|].
    + cbn [listPage filtered set_loadMoreBtn set_loadMoreObserver loadMoreObserver
           loadMoreBtn]. by rewrite Hmore.
    + destruct hasIntersectionObserver eqn:Hio;
        cbn [listPage filtered set_loadMoreBtn set_loadMoreObserver loadMoreObserver
             loadMoreBtn]; by rewrite Hmore, ?Hio.
  - destruct ob as [w|];
      cbn [listPage filtered set_loadMoreBtn set_loadMoreObserver loadMoreObserver
           loadMoreBtn]; by rewrite Hmore.
Qed.

Lemma renderList_firstPage (st : State) :
  renderList true st =
    match listEl st, countEl st with
    | Some _, Some _ => updateLoadMoreState (firstPage st)
    | _, _ => st
    end.
Proof. reflexivity. Qed.

Lemma updateLoadMoreState_sets (st : State) :
  exists disabled watching,
    updateLoadMoreState st =
      set_loadMoreObserver watching (set_loadMoreBtn disabled st).
Proof.
  unfold updateLoadMoreState, setupLoadMoreObserver.
  destruct (loadMoreBtn st) as [d|] eqn:Hbtn.
  - destruct (negb (hasMore st)).
    + cbn [loadMoreObserver set_loadMoreBtn].
      destruct (loadMoreObserver st) as [w|] eqn:Hob; [by eexists _, _|].
      exists (Some true), None. destruct st; simpl in *. by rewrite Hob.
    + cbn [loadMoreObserver loadMoreBtn set_loadMoreBtn].
      destruct (loadMoreObserver st) as [w|] eqn:Hob; [by eexists _, _|].
      destruct hasIntersectionObserver; [by eexists _, _|].
      exists (Some false), None. destruct st; simpl in *. by rewrite Hob.
  - exists None, (loadMoreObserver st). destruct st; simpl in *. by rewrite Hbtn.
Qed.

Lemma firstPage_sets (disabled watching : option bool) (st : State) :
  firstPage (set_loadMoreObserver watching (set_loadMoreBtn disabled st)) =
  set_loadMoreObserver watching (set_loadMoreBtn disabled (firstPage st)).
Proof. destruct st. reflexivity. Qed.

Lemma firstPage_twice (st : State) : firstPage (firstPage st) = firstPage st.
Proof. destruct st. reflexivity. Qed.

Lemma firstPage_absorbed (st : State) :
  firstPage (updateLoadMoreState (firstPage st)) = updateLoadMoreState (firstPage st).
Proof.
  destruct (updateLoadMoreState_sets (firstPage st)) as (d & w & ->).
  by rewrite firstPage_sets, firstPage_twice.
Qed.

Lemma pins_in_place (sorted : list Entry) (st : State) :
  filtered st = sorted -> markers st = slice sorted 0 MAX_PINS ->
  radiusCircle st = circleWanted st ->
  renderRadiusCircle (renderPins (slice sorted 0 MAX_PINS) (set_filtered sorted st)) = st.
Proof.
  unfold circleWanted, renderRadiusCircle, renderPins.
  destruct st as [a f m c r rc lp sm il ob mb f1 f2 f3 sc le ce btn].
  cbn [filtered markers radiusCircle searchMode showCircle].
  intros <- <- ->. reflexivity.
Qed.

Lemma renderWith_twice (sorted : list Entry) (st : State) :
  renderWith sorted (renderWith sorted st) = renderWith sorted st.
Proof.
  unfold renderWith at 1.
  set (k := renderRadiusCircle (renderPins (slice sorted 0 MAX_PINS) (set_filtered sorted st))).
  assert (Hx : renderWith sorted st = updateLoadMoreState (renderList true k)) by done.
  set (x := renderWith sorted st) in *.
  assert (Hk : keeps k x).
  { rewrite Hx. eapply keeps_trans; [apply renderList_keeps|apply updateLoadMoreState_keeps]. }
  rewrite pins_in_place.
  2:{ by destruct Hk as (_ & -> & _). }
  2:{ by destruct Hk as (_ & _ & -> & _). }
  2:{ destruct Hk as (_ & _ & _ & _ & _ & -> & Hm & _ & _ & _ & _ & Hs).
      unfold circleWanted. by rewrite Hm, Hs. }
  clear Hk. clearbody x k. subst x.
  destruct (updateLoadMoreState_spec (renderList true k)) as (_ & _ & Hle & Hce & _).
  rewrite (renderList_firstPage (updateLoadMoreState _)), Hle, Hce.
  rewrite (renderList_firstPage k).
  destruct (listEl k) as [items|] eqn:Hl; [destruct (countEl k) as [txt|] eqn:Hc|].
  - rewrite !updateLoadMoreState_twice.
    assert (Hfp : is_Some (listEl (firstPage k)) /\ is_Some (countEl (firstPage k)))
      by (split; eexists; reflexivity).
    destruct Hfp as [[items' Hl'] [txt' Hc']].
    destruct (updateLoadMoreState_spec (firstPage k)) as (_ & _ & Hle' & Hce' & _).
    rewrite Hle', Hce', Hl', Hc'.
    by rewrite firstPage_absorbed, !updateLoadMoreState_twice.
  - rewrite Hl, Hc. apply updateLoadMoreState_twice.
  - rewrite Hl. apply updateLoadMoreState_twice.
Qed.

Lemma render_renderWith (st : State) :
  render st =
    renderWith (Array_sort byDist (withDist (center st) <$> filterAirports st)) st.
Proof. reflexivity. Qed.

Lemma renderWith_keeps (sorted : list Entry) (st : State) :
  center (renderWith sorted st) = center st /\
  filterAirports (renderWith sorted st) = filterAirports st.
Proof.
  unfold renderWith.
  match goal with |- context [updateLoadMoreState ?s] =>
    destruct (updateLoadMoreState_keeps s) as [Hk1 _]
  end.
  match goal with |- context [renderList true ?s] =>
    pose proof (renderList_keeps true s) as Hk2
  end.
  pose proof (keeps_trans _ _ _ Hk2 Hk1) as Hk.
  set (st' := updateLoadMoreState _) in *. clearbody st'.
  unfold filterAirports, getSelectedFuels, inBounds.
  destruct Hk as (Ha & _ & _ & Hc & Hr & _ & Hm & Hb & Hf1 & Hf2 & Hf3 & _).
  simpl in *. by rewrite Ha, Hc, Hr, Hm, Hb, Hf1, Hf2, Hf3.
Qed.

(** X22.  [render()] is idempotent: a second [render()] with nothing
    changed in between leaves every variable, the list, the count, the
    button and the observer as the first one left them, and puts the same
    pins and circle on the map. *)
Theorem render_twice (st : State) : render (render st) = render st.
Proof.
  rewrite (render_renderWith (render st)), (render_renderWith st).
  destruct (renderWith_keeps
              (Array_sort byDist (withDist (center st) <$> filterAirports st)) st)
    as [-> ->].
  apply renderWith_twice.
Qed.

(** *** Load More *)

Lemma attemptLoadMore_twice (st : State) :
  attemptLoadMore (attemptLoadMore st) = attemptLoadMore st.
Proof.
  unfold attemptLoadMore.
  destruct (isLoadingMore st) eqn:Hload; [by rewrite Hload|].
  destruct (hasMore st) eqn:Hmore; cbn [negb]; [done|].
  destruct (updateLoadMoreState_spec st) as (Hf & Hp & _ & _ & _ & _ & Hil & _).
  rewrite Hil, Hload. unfold hasMore in *. rewrite Hf, Hp, Hmore. cbn [negb].
  apply updateLoadMoreState_twice.
Qed.

Lemma attemptLoadMore_button (st : State) :
  is_Some (loadMoreBtn st) -> is_Some (loadMoreBtn (attemptLoadMore st)).
Proof.
  intros [d Hbtn]. unfold attemptLoadMore. repeat case_match; try by eexists.
  destruct (updateLoadMoreState_spec st) as (_ & _ & _ & _ & _ & _ & _ & ->).
  rewrite Hbtn. by eexists.
Qed.

(** X23.  Loading more is debounced: a second click on Load More before the
    animation frame changes nothing; while a load is pending neither a click
    nor the observer starts another; and the frame callback ends the
    pending state. *)
Theorem load_more_is_debounced (st : State) :
  handle LoadMoreClick (handle LoadMoreClick st) = handle LoadMoreClick st /\
  (isLoadingMore st = true ->
   handle LoadMoreClick st = st /\ handle ButtonInView st = st) /\
  isLoadingMore (handle AnimationFrame st) = false.
Proof.
  split; [|split].
  - cbn [handle]. destruct (loadMoreBtn st) as [d|] eqn:Hbtn; [|by rewrite Hbtn].
    destruct (attemptLoadMore_button st) as [d' ->]; [by eexists|].
    apply attemptLoadMore_twice.
  - intros Hload. cbn [handle]. unfold observerCallback, attemptLoadMore.
    rewrite Hload. split; by repeat case_match.
  - cbn [handle]. destruct (isLoadingMore st) eqn:Hload; [|done].
    unfold loadMoreFrame. cbv zeta.
    match goal with |- context [updateLoadMoreState ?s] =>
      destruct (updateLoadMoreState_spec s) as (_ & _ & _ & _ & _ & _ & -> & _)
    end.
    done.
Qed.

End Page.

(** ** Escaping, character by character *)

Lemma escChar_special (c : N) : special c = false -> escChar c = [c].
Proof.
  unfold special, escChar. rewrite !orb_false_iff.
  by intros ((((-> & ->) & ->) & ->) & ->).
Qed.

(** X24.  [escapeHtml] works code unit by code unit: the escape of a
    concatenation is the concatenation of the escapes, and a string without
    [&], [<], [>] and the two quotes comes back unchanged. *)
Theorem escapeHtml_per_character (s t : jsstring) :
  escapeHtml (JStr (s ++ t)) = escapeHtml (JStr s) ++ escapeHtml (JStr t) /\
  (forallb (fun c => negb (special c)) s = true -> escapeHtml (JStr s) = s).
Proof.
  rewrite !escapeHtml_chars. split; [apply bind_app|].
  induction s as [|c s IH]; [done|]. cbn [forallb].
  rewrite andb_true_iff, negb_true_iff. intros [Hc Hs].
  rewrite bind_cons, escChar_special, IH by done. done.
Qed.

Lemma escChar_head (c : N) :
  exists rest, escChar c = (if special c then c_amp else c) :: rest /\
               (special c = false -> rest = []).
Proof.
  unfold escChar, special.
  destruct (c =? c_amp)%N eqn:H1; [by eexists|].
  destruct (c =? c_lt)%N eqn:H2; [by eexists|].
  destruct (c =? c_gt)%N eqn:H3; [by eexists|].
  destruct (c =? c_quot)%N eqn:H4; [by eexists|].
  destruct (c =? c_apos)%N eqn:H5; [by eexists|].
  by eexists.
Qed.

Lemma escChar_prefix_free (x y : N) (r1 r2 : jsstring) :
  escChar x ++ r1 = escChar y ++ r2 -> x = y /\ r1 = r2.
Proof.
  assert (Hcases : forall c,
            (c = c_amp /\ escChar c = js "&amp;") \/
            (c = c_lt /\ escChar c = js "&lt;") \/
            (c = c_gt /\ escChar c = js "&gt;") \/
            (c = c_quot /\ escChar c = js "&quot;") \/
            (c = c_apos /\ escChar c = js "&#039;") \/
            (c <> c_amp /\ escChar c = [c])).
  { intros c. unfold escChar.
    destruct (N.eqb_spec c c_amp); [by left|].
    destruct (N.eqb_spec c c_lt); [by right; left|].
    destruct (N.eqb_spec c c_gt); [by right; right; left|].
    destruct (N.eqb_spec c c_quot); [by right; right; right; left|].
    destruct (N.eqb_spec c c_apos); [by right; right; right; right; left|].
    by right; right; right; right; right. }
  destruct (Hcases x) as [[-> ->]|[[-> ->]|[[-> ->]|[[-> ->]|[[-> ->]|[Hx ->]]]]]];
  destruct (Hcases y) as [[-> ->]|[[-> ->]|[[-> ->]|[[-> ->]|[[-> ->]|[Hy ->]]]]]];
    cbn; intros Heq; simplify_eq; done.
Qed.

(** X25.  Escaping loses nothing: two different strings never have the same
    escape. *)
Theorem escapeHtml_is_injective (s t : jsstring) :
  escapeHtml (JStr s) = escapeHtml (JStr t) -> s = t.
Proof.
  rewrite !escapeHtml_chars. revert t.
  induction s as [|x s IH]; intros [|y t]; rewrite ?bind_cons.
  - done.
  - intros Heq. destruct (escChar_head y) as (rest & Hy & _). rewrite Hy in Heq. done.
  - intros Heq. destruct (escChar_head x) as (rest & Hx & _). rewrite Hx in Heq. done.
  - intros [-> Heq]%escChar_prefix_free. f_equal. by apply IH.
Qed.

(** ** The fetcher and the page *)

Section Keys.
Context `{Fetch.GoLib}.

(** X26.  The fuel names the page filters by are the keys the fetcher
    writes: every name [getSelectedFuels] can return is a key of the [fuel]
    map of every record [parseFuel] builds, and every key of that map is
    returned when all three buttons are active. *)
Theorem fuel_keys_agree (st : State) (fuelTypes : string) :
  (forall f, f ∈ getSelectedFuels st ->
     exists k, f = js k /\ is_Some (Fetch.parseFuel fuelTypes !! k)) /\
  (forall k, is_Some (Fetch.parseFuel fuelTypes !! k) ->
     js k ∈ getSelectedFuels (allFuels st)).
Proof.
  destruct (FetchFacts.parseFuel_lookups fuelTypes) as (Hm & Hl & Hj).
  split.
  - intros f. unfold getSelectedFuels. rewrite !elem_of_app.
    intros [Hf|[Hf|Hf]].
    + destruct (isActive (fuelMogas st)); [|by apply elem_of_nil in Hf].
      apply list_elem_of_singleton in Hf as ->. exists "mogas". by rewrite Hm.
    + destruct (isActive (fuel100ll st)); [|by apply elem_of_nil in Hf].
      apply list_elem_of_singleton in Hf as ->. exists "100ll". by rewrite Hl.
    + destruct (isActive (fuelJet st)); [|by apply elem_of_nil in Hf].
      apply list_elem_of_singleton in Hf as ->. exists "jet_a". by rewrite Hj.
  - intros k. unfold Fetch.parseFuel. cbv zeta.
    rewrite !lookup_insert_is_Some, lookup_singleton_is_Some.
    unfold getSelectedFuels, allFuels. cbn.
    intros [<-|[_ [<-|[_ <-]]]]; rewrite !elem_of_cons; auto.
Qed.

End Keys.

Import UISamples.

(** ** Runs on the sample pages *)

(** C10, at its failing input.  For an airport whose identifier is a double
    quote followed by [><img src=x onerror=alert(1)>], [escapeHtml] gives
    [&quot;&gt;&lt;img src=x onerror=alert(1)&gt;], but the list item and the
    popup both hold the identifier itself inside the [href] attribute. *)
Theorem arpt_id_reaches_href_unescaped (B : Browser) :
  let e := {| ap := hostileAirport; dist := 0%float |} in
  let id := dq ++ js "><img src=x onerror=alert(1)>" in
  arpt_id hostileAirport = id /\
  escapeHtml (JStr id) = js "&quot;&gt;&lt;img src=x onerror=alert(1)&gt;" /\
  (exists pre post,
     @itemHtml B e = pre ++ js "https://www.airnav.com/airport/K" ++ id ++ post) /\
  (exists pre post,
     @popupHtml B e = pre ++ js "https://www.airnav.com/airport/K" ++ id ++ post).
Proof.
  cbv zeta. split; [done|]. split; [by vm_compute|].
  split; [apply (@itemHtml_href B) | apply (@popupHtml_href B)].
Qed.

(** C6 as stated fails: with an airport at latitude 1e308 in the data, the
    difference of latitudes in radians overflows, the distance is NaN in
    every engine, and no order of the three entries is nondecreasing; the
    sample engine leaves ABC (172.7 miles) in front of ZZ9 (103.6 miles). *)
Lemma nan_distance_breaks_order :
  ~ (exists B : Browser,
       StronglySorted distLe (filtered (@render B (samplePage farAirports)))) /\
  (fun e => arpt_id (ap e)) <$> filtered (render (samplePage farAirports)) =
    [js "ABC"; js "FAR"; js "ZZ9"].
Proof.
  split; [|vm_compute; reflexivity].
  intros [B Hsorted].
  destruct (@render_spec B (samplePage farAirports)) as (Hf & _).
  assert (Hall : @filterAirports B (samplePage farAirports) = farAirports)
    by (vm_compute; reflexivity).
  rewrite Hf, Hall in Hsorted.
  apply sorted_numbers in Hsorted; [|rewrite Array_sort_perm, length_fmap; simpl; lia].
  rewrite Array_sort_perm in Hsorted.
  apply Forall_fmap, Forall_cons in Hsorted as [_ Hrest].
  apply Forall_cons in Hrest as [Hfar _].
  unfold hasDist in Hfar. simpl in Hfar.
  rewrite haversine_overflow in Hfar; [done|]. vm_compute. reflexivity.
Qed.

(** A NaN distance leaves the array as it was: [3, NaN, 1] stays in that
    order. *)
Example sort_with_NaN :
  let e (d : float) := {| ap := hostileAirport; dist := d |} in
  Array_sort byDist [e 3%float; e nan; e 1%float] = [e 3%float; e nan; e 1%float].
Proof. vm_compute. reflexivity. Qed.

Lemma render_sorts_by_distance_sample :
  let st := samplePage threeAirports in
  Forall (fun a => is_nan (haversine (center st) (pointOf a)) = false) (filterAirports st) /\
  StronglySorted distLe (filtered (render st)) /\
  (fun e => arpt_id (ap e)) <$> filtered (render st) = [js "ZZ9"; js "ABC"] /\
  markers (render st) = take MAX_PINS (filtered (render st)).
Proof.
  cbv zeta.
  assert (Hnum : Forall (fun a => is_nan (haversine (center (samplePage threeAirports))
                                           (pointOf a)) = false)
                        (filterAirports (samplePage threeAirports)))
    by (vm_compute; repeat constructor).
  destruct (render_sorts_by_distance (samplePage threeAirports) Hnum)
    as (Hsorted & _ & _ & Hpins & _).
  split; [exact Hnum|]. split; [exact Hsorted|]. split; [vm_compute; reflexivity|exact Hpins].
Defined.

Lemma pagination_sample :
  let st := handle LoadMoreClick (render (samplePage manyAirports)) in
  reachable st /\
  isLoadingMore st = true /\
  length <$> listEl st = Some 80 /\
  loadMoreBtn st = Some false /\
  listPage (handle AnimationFrame st) = listPage st + 1 /\
  length <$> listEl (handle AnimationFrame st) = Some 160.
Proof.
  cbv zeta.
  set (st := handle LoadMoreClick (render (samplePage manyAirports))).
  assert (Hreach : reachable st) by (apply reach_handle, reach_render).
  destruct (pagination_by_pages_of_80 st Hreach) as (Hlist & Hbtn & Hmore).
  assert (Hloading : isLoadingMore st = true) by (vm_compute; reflexivity).
  destruct (Hmore Hloading) as [_ Hstep].
  assert (Hitems : listEl st = Some (default [] (listEl st))) by (vm_compute; reflexivity).
  assert (Hcount : is_Some (countEl st)) by (vm_compute; eauto).
  destruct (Hstep _ Hitems Hcount) as [Hpage Hshown].
  split; [exact Hreach|]. split; [exact Hloading|].
  split; [vm_compute; reflexivity|]. split; [vm_compute; reflexivity|].
  split; [exact Hpage|]. vm_compute. reflexivity.
Defined.

Lemma no_fuel_selected_sample :
  let st := set_fuelMogas (Some false) (samplePage threeAirports) in
  isActive (fuelMogas st) = false /\
  isActive (fuel100ll st) = false /\
  isActive (fuelJet st) = false /\
  filterAirports st = [] /\
  filtered (render st) = [] /\
  markers (render st) = [].
Proof.
  cbv zeta. split; [reflexivity|]. split; [reflexivity|]. split; [reflexivity|].
  exact (no_fuel_selected_shows_nothing
           (set_fuelMogas (Some false) (samplePage threeAirports))
           eq_refl eq_refl eq_refl).
Defined.

(** ** The further facts on sample pages *)

Lemma radius_mode_is_sorted_sample :
  let st := set_searchMode RadiusMode (samplePage threeAirports) in
  searchMode st = RadiusMode /\
  (fun e => arpt_id (ap e)) <$> filtered (render st) = [js "ZZ9"; js "ABC"] /\
  StronglySorted distLe (filtered (render st)) /\
  Forall (fun e => dist e = haversine (center st) (pointOf (ap e)) /\
                   (dist e <=? radiusMiles st)%float = true) (filtered (render st)).
Proof.
  cbv zeta. split; [reflexivity|]. split; [vm_compute; reflexivity|].
  exact (radius_mode_is_sorted (set_searchMode RadiusMode (samplePage threeAirports))
           eq_refl).
Defined.

Lemma results_are_in_sync_sample :
  let st := step false (SliderInput 50) (render (samplePage threeAirports)) in
  pageStates false st /\ radiusMiles st = 50%float /\ searchMode st ≠ RadiusMode /\
  filtered st = Array_sort byDist (withDist (center st) <$> filterAirports st).
Proof.
  cbv zeta.
  set (st := step false (SliderInput 50) (render (samplePage threeAirports))).
  assert (Hst : pageStates false st) by apply page_step, page_rendered.
  assert (Hmode : searchMode st ≠ RadiusMode) by (vm_compute; discriminate).
  split; [exact Hst|]. split; [vm_compute; reflexivity|]. split; [exact Hmode|].
  exact (results_are_in_sync false st Hst (or_intror Hmode)).
Defined.

Lemma pins_are_the_first_2000_sample :
  let st := render (samplePage manyAirports) in
  pageStates true st /\ length (filtered st) = 200 /\
  markers st = take MAX_PINS (filtered st) /\ length (markers st) <= 2000.
Proof.
  cbv zeta.
  assert (Hst : pageStates true (render (samplePage manyAirports))) by apply page_rendered.
  split; [exact Hst|]. split; [vm_compute; reflexivity|].
  exact (pins_are_the_first_2000 true _ Hst).
Defined.

Lemma circle_follows_the_mode_sample :
  let p := {| p_lat := 40; p_lon := -98 |} in
  let st := step true (MapClick p)
              (render (set_searchMode ViewMode (samplePage threeAirports))) in
  pageStates true st /\ searchMode st = RadiusMode /\
  radiusCircle st =
    match searchMode st with
    | RadiusMode => true
    | ViewMode => default false (showCircle st)
    | AllMode => false
    end.
Proof.
  cbv zeta.
  set (st := step true (MapClick _) _).
  assert (Hst : pageStates true st) by apply page_step, page_rendered.
  split; [exact Hst|]. split; [vm_compute; reflexivity|].
  exact (circle_follows_the_mode true st Hst).
Defined.

Lemma observer_follows_the_button_sample :
  let st := step true AnimationFrame
              (step true LoadMoreClick (render (samplePage manyAirports))) in
  pageStates true st /\
  loadMoreObserver st = Some true /\ loadMoreBtn st = Some false /\
  forall watching disabled,
    loadMoreObserver st = Some watching -> loadMoreBtn st = Some disabled ->
    watching = negb disabled.
Proof.
  cbv zeta.
  set (st := step true AnimationFrame _).
  assert (Hst : pageStates true st) by apply page_step, page_step, page_rendered.
  split; [exact Hst|]. split; [vm_compute; reflexivity|]. split; [vm_compute; reflexivity|].
  exact (observer_follows_the_button true st Hst).
Defined.

Lemma ties_keep_the_file_order_sample :
  let st := samplePage [mkAirport (js "B") 41 true false false;
                        mkAirport (js "C") 40 true false false;
                        mkAirport (js "A") 41 true false false] in
  let n := order_of (haversine (center st) (pointOf (mkAirport (js "B") 41 true false false))) in
  Forall (fun a => is_nan (haversine (center st) (pointOf a)) = false) (filterAirports st) /\
  (fun e => arpt_id (ap e)) <$> filtered (render st) = [js "C"; js "B"; js "A"] /\
  atDistance n (filtered (render st)) =
    atDistance n (withDist (center st) <$> filterAirports st).
Proof.
  cbv zeta.
  set (st := samplePage _).
  assert (Hnum : Forall (fun a => is_nan (haversine (center st) (pointOf a)) = false)
                        (filterAirports st))
    by (vm_compute; repeat constructor).
  split; [exact Hnum|]. split; [vm_compute; reflexivity|].
  exact (ties_keep_the_file_order st _ Hnum).
Defined.

Lemma escapeHtml_is_injective_sample :
  escapeHtml (JStr (js "a<" ++ js "b")) = escapeHtml (JStr (js "a<b")) /\
  js "a<" ++ js "b" = js "a<b".
Proof.
  assert (Heq : escapeHtml (JStr (js "a<" ++ js "b")) = escapeHtml (JStr (js "a<b")))
    by (vm_compute; reflexivity).
  split; [exact Heq|].
  exact (escapeHtml_is_injective (js "a<" ++ js "b") (js "a<b") Heq).
Defined.

End UIFacts.
